(** * Transcript post-processing of the interview-prep backend

    A shallow embedding of [backend/services/transcription.py]
    (class [TranscriptionService]): the speaking-rate estimator, the
    repetition cleaner, the filler-word densifier and the orchestrating
    [transcribe] method, and of [backend/services/transcript_cleanup.py]
    (class [TranscriptCleanupService]), followed by the properties proved
    about them.

    Conventions of the embedding.
    - A Python [str] is a list of characters; a character is a Latin-1 code
      point (Rocq's 8-bit [ascii]), and the classification tables below are
      CPython's for the code points 0..255.
    - Python floats are the kernel's binary64 floats ([PrimFloat]).
    - [re] patterns are values of an abstract syntax [regex], run by a
      backtracking matcher with leftmost, greedy-or-lazy semantics.
    - Code that can raise returns a [result]; code that touches the file
      system, external tools or the random generator runs in a state and
      exception monad over an explicit [world]. *)

From Stdlib Require Import ZArith Floats Ascii String DecimalString.
From stdpp Require Import base option list gmap strings.

Local Open Scope Z_scope.

(** ** Python strings over Latin-1 *)

Module Py.

Definition text := list ascii.

Definition of_string (s : string) : text := list_ascii_of_string s.
Definition to_string (t : text) : string := string_of_list_ascii t.

Definition code (c : ascii) : N := N_of_ascii c.

Definition in_range (lo hi : N) (c : ascii) : bool :=
  (N.leb lo (code c) && N.leb (code c) hi)%bool.

(** [str.isspace], also the class [\s] of [re] on [str] patterns. *)
Definition isspace (c : ascii) : bool :=
  in_range 9 13 c || in_range 28 32 c || N.eqb (code c) 133 || N.eqb (code c) 160.

(** The class [\w] of [re] on [str] patterns: alphanumeric or underscore. *)
Definition isword (c : ascii) : bool :=
  in_range 48 57 c || in_range 65 90 c || N.eqb (code c) 95 || in_range 97 122 c
  || N.eqb (code c) 170 || in_range 178 179 c || N.eqb (code c) 181
  || in_range 185 186 c || in_range 188 190 c
  || in_range 192 214 c || in_range 216 246 c || in_range 248 255 c.

(** [str.lower] on one character, also the case folding of [re.IGNORECASE]. *)
Definition lower_char (c : ascii) : ascii :=
  if in_range 65 90 c || in_range 192 214 c || in_range 216 222 c
  then ascii_of_N (code c + 32) else c.

Definition lower (s : text) : text := map lower_char s.

Definition eqc (a b : ascii) : bool := Ascii.eqb a b.

Fixpoint eqt (a b : text) : bool :=
  match a, b with
  | [], [] => true
  | x :: a', y :: b' => eqc x y && eqt a' b'
  | _, _ => false
  end.

(** [str.split()] without argument: maximal runs of non-space characters. *)
Fixpoint split_from (acc : text) (s : text) : list text :=
  match s with
  | [] => match acc with [] => [] | _ => [rev acc] end
  | c :: s' =>
      if isspace c
      then match acc with [] => split_from [] s' | _ => rev acc :: split_from [] s' end
      else split_from (c :: acc) s'
  end.

Definition split (s : text) : list text := split_from [] s.

(** [sep.join(parts)]. *)
Fixpoint join (sep : text) (parts : list text) : text :=
  match parts with
  | [] => []
  | [p] => p
  | p :: rest => p ++ sep ++ join sep rest
  end.

Fixpoint lstrip (s : text) : text :=
  match s with
  | c :: s' => if isspace c then lstrip s' else s
  | [] => []
  end.

(** [str.strip()]. *)
Definition strip (s : text) : text := rev (lstrip (rev (lstrip s))).

Fixpoint starts_with (p s : text) : bool :=
  match p, s with
  | [], _ => true
  | x :: p', y :: s' => eqc x y && starts_with p' s'
  | _ :: _, [] => false
  end.

(** [str.replace(old, new)] for a non-empty [old]: every non-overlapping
    occurrence, leftmost first; [skip] counts the characters of the
    occurrence being replaced that are still to be dropped. *)
Fixpoint replace_go (old new : text) (skip : nat) (s : text) : text :=
  match s with
  | [] => []
  | c :: s' =>
      match skip with
      | S n => replace_go old new n s'
      | O =>
          if starts_with old s
          then new ++ replace_go old new (length old - 1) s'
          else c :: replace_go old new 0 s'
      end
  end.

(** [str.replace]; an empty [old] matches between any two characters. *)
Definition replace (old new s : text) : text :=
  match old with
  | [] => new ++ flat_map (fun c => c :: new) s
  | _ => replace_go old new 0 s
  end.

(** The slice [l[i:j]] for non-negative bounds. *)
Definition slice {A} (i j : nat) (l : list A) : list A := take (j - i) (drop i l).

End Py.

(** ** Exceptions *)

(** A raised Python exception: its class and [str(e)]. *)
Record exn := Exn { exn_class : string; exn_message : string }.

Inductive result (A : Type) :=
| Ok (a : A)
| Raise (e : exn).
Arguments Ok {A} a.
Arguments Raise {A} e.

Definition re_error (msg : string) : exn := Exn "re.error" msg.

(** ** The [re] module: patterns, matching, [sub], [findall], [search] *)

Module Re.
Import Py.

Inductive regex :=
| Lit (c : ascii)                       (* a literal character *)
| Cls (p : ascii -> bool)               (* a class: \w, \s, [...], [^...] *)
| Eps                                   (* the empty pattern *)
| Cat (r1 r2 : regex)                   (* r1 r2 *)
| Alt (r1 r2 : regex)                   (* r1|r2, left alternative first *)
| Rep (greedy : bool) (lo : nat) (r : regex)  (* r* r+ (greedy) or r*? r+? *)
| Grp (n : nat) (r : regex)             (* capturing group number n *)
| Ref (n : nat)                         (* backreference \n *)
| Bnd                                   (* \b *)
| Eos.                                  (* $ without MULTILINE *)

(** A position in the subject: the character before it, what is left, and
    the groups captured so far (latest first). *)
Record mstate := MState {
  prev : option ascii;
  rest : text;
  caps : list (nat * text)
}.

Definition last_of (p : option ascii) (s : text) : option ascii :=
  match last s with Some c => Some c | None => p end.

Definition advance (n : nat) (s : mstate) : mstate :=
  MState (last_of (prev s) (take n (rest s))) (drop n (rest s)) (caps s).

Definition cap (n : nat) (s : mstate) : option text :=
  snd <$> List.find (fun p => Nat.eqb (fst p) n) (caps s).

Definition word_at (c : option ascii) : bool :=
  match c with Some x => isword x | None => false end.

Definition at_boundary (s : mstate) : bool :=
  xorb (word_at (prev s)) (word_at (head (rest s))).

(** [$]: at the end, or just before a newline that ends the subject. *)
Definition at_end (s : mstate) : bool :=
  match rest s with
  | [] => true
  | [c] => N.eqb (code c) 10
  | _ => false
  end.

Definition same_char (ic : bool) (a b : ascii) : bool :=
  if ic then eqc (lower_char a) (lower_char b) else eqc a b.

Fixpoint same_prefix (ic : bool) (p s : text) : bool :=
  match p, s with
  | [], _ => true
  | x :: p', y :: s' => same_char ic x y && same_prefix ic p' s'
  | _ :: _, [] => false
  end.

Definition orelse {A} (a b : option A) : option A :=
  match a with Some _ => a | None => b end.

(** One step over the character [x]. *)
Definition step (x : ascii) (r : text) (s : mstate) : mstate :=
  MState (Some x) r (caps s).

(** The loop of a repetition [r*], [r+], [r*?]: [body] matches one more
    [r], [k] is what follows the repetition, [count] the iterations done.
    An iteration has to consume input, so [fuel] above the length of what
    is left is never exhausted. *)
Fixpoint rep_loop (body : mstate -> (mstate -> option mstate) -> option mstate)
    (greedy : bool) (lo : nat) (k : mstate -> option mstate)
    (fuel count : nat) (s0 : mstate) {struct fuel} : option mstate :=
  match fuel with
  | O => None
  | S fuel' =>
      let more :=
        body s0 (fun s1 =>
          if Nat.ltb (length (rest s1)) (length (rest s0))
          then rep_loop body greedy lo k fuel' (S count) s1 else None) in
      let stop := if Nat.leb lo count then k s0 else None in
      if greedy then orelse more stop else orelse stop more
  end.

(** The backtracking matcher in continuation-passing style: [k] is the
    rest of the pattern, and an alternative is abandoned when [k] fails.
    [ic] is [re.IGNORECASE]. *)
Fixpoint rmatch (ic : bool) (r : regex) (s : mstate)
    (k : mstate -> option mstate) {struct r} : option mstate :=
  match r with
  | Lit c =>
      match rest s with
      | x :: r' => if same_char ic c x then k (step x r' s) else None
      | [] => None
      end
  | Cls p =>
      match rest s with
      | x :: r' => if p x then k (step x r' s) else None
      | [] => None
      end
  | Eps => k s
  | Cat r1 r2 => rmatch ic r1 s (fun s1 => rmatch ic r2 s1 k)
  | Alt r1 r2 => orelse (rmatch ic r1 s k) (rmatch ic r2 s k)
  | Rep greedy lo r1 =>
      rep_loop (rmatch ic r1) greedy lo k (S (length (rest s))) O s
  | Grp n r1 =>
      rmatch ic r1 s (fun s1 =>
        let got := take (length (rest s) - length (rest s1)) (rest s) in
        k (MState (prev s1) (rest s1) ((n, got) :: caps s1)))
  | Ref n =>
      match cap n s with
      | Some g => if same_prefix ic g (rest s) then k (advance (length g) s) else None
      | None => None
      end
  | Bnd => if at_boundary s then k s else None
  | Eos => if at_end s then k s else None
  end.

(** One match attempt at a position.  [must_advance] rejects an empty
    match (set after an empty match at the same place). *)
Definition match_here (ic : bool) (r : regex) (must_advance : bool) (s : mstate)
    : option mstate :=
  rmatch ic r (MState (prev s) (rest s) []) (fun s1 =>
    if must_advance && Nat.eqb (length (rest s1)) (length (rest s))
    then None else Some s1).

(** [search]: the leftmost position from [s] on where the pattern matches;
    returns the text skipped, the text matched and the state after it. *)
Fixpoint search_from (ic : bool) (r : regex) (must_advance : bool)
    (fuel : nat) (skipped : text) (s : mstate) : option (text * text * mstate) :=
  match match_here ic r must_advance s with
  | Some s1 =>
      Some (rev skipped, take (length (rest s) - length (rest s1)) (rest s), s1)
  | None =>
      match fuel, rest s with
      | S fuel', c :: r' => search_from ic r false fuel' (c :: skipped) (MState (Some c) r' [])
      | _, _ => None
      end
  end.

Definition start_of (s : text) : mstate := MState None s [].

(** [re.search(r, s) is not None]. *)
Definition search (ic : bool) (r : regex) (s : text) : bool :=
  match search_from ic r false (length s) [] (start_of s) with
  | Some _ => true
  | None => false
  end.

(** All non-overlapping matches, leftmost first, as [(skipped, matched,
    state at the end of the match)].  After an empty match the next one has
    to advance. *)
Fixpoint matches_from (ic : bool) (r : regex) (fuel : nat) (must_advance : bool)
    (s : mstate) : list (text * text * mstate) * text :=
  match fuel with
  | O => ([], rest s)
  | S fuel' =>
      match search_from ic r must_advance (length (rest s)) [] s with
      | None => ([], rest s)
      | Some (skipped, matched, s1) =>
          let '(more, tail) :=
            matches_from ic r fuel' (Nat.eqb (length matched) 0) s1 in
          ((skipped, matched, s1) :: more, tail)
      end
  end.

(** At most two matches per character: the fuel is never exhausted. *)
Definition all_matches (ic : bool) (r : regex) (s : text)
    : list (text * text * mstate) * text :=
  matches_from ic r (2 * length s + 2)%nat false (start_of s).

(** [re.findall(r, s)] for a pattern without capturing group. *)
Definition findall (ic : bool) (r : regex) (s : text) : list text :=
  map (fun m => snd (fst m)) (fst (all_matches ic r s)).

(** [len(re.findall(r, s))]: the number of matches, whatever the groups. *)
Definition count_matches (ic : bool) (r : regex) (s : text) : nat :=
  length (fst (all_matches ic r s)).

(** *** Replacement templates *)

Inductive piece :=
| PText (t : text)
| PGroup (n : nat).

Definition is_digit (c : ascii) : bool := in_range 48 57 c.
Definition is_octal (c : ascii) : bool := in_range 48 55 c.
Definition is_ascii_letter (c : ascii) : bool := in_range 65 90 c || in_range 97 122 c.
Definition digit_val (c : ascii) : nat := N.to_nat (code c - 48).

Definition chr (n : nat) : ascii := ascii_of_nat n.

(** [int(name)] of [\g<name>]: optional blanks around, an optional sign,
    digits with single underscores between them; [None] stands for
    [ValueError] and for a negative number. *)
Fixpoint int_digits (acc : nat) (after_digit : bool) (s : text) : option nat :=
  match s with
  | [] => if after_digit then Some acc else None
  | c :: s' =>
      if is_digit c then int_digits (10 * acc + digit_val c)%nat true s'
      else if N.eqb (code c) 95 && after_digit
           then match s' with
                | d :: _ => if is_digit d then int_digits acc false s' else None
                | [] => None
                end
           else None
  end.

Definition int_of_name (name : text) : option nat :=
  match strip name with
  | c :: s' =>
      if N.eqb (code c) 43 then int_digits 0 false s'
      else if N.eqb (code c) 45
           then match int_digits 0 false s' with Some O => Some O | _ => None end
           else int_digits 0 false (c :: s')
  | [] => None
  end.

Fixpoint until_gt (acc : text) (s : text) : option (text * text) :=
  match s with
  | [] => None
  | c :: s' => if N.eqb (code c) 62 then Some (rev acc, s') else until_gt (c :: acc) s'
  end.

Definition escape_char (c : ascii) : option ascii :=
  match code c with
  | 97%N => Some (chr 7)      (* \a *)
  | 98%N => Some (chr 8)      (* \b *)
  | 102%N => Some (chr 12)    (* \f *)
  | 110%N => Some (chr 10)    (* \n *)
  | 114%N => Some (chr 13)    (* \r *)
  | 116%N => Some (chr 9)     (* \t *)
  | 118%N => Some (chr 11)    (* \v *)
  | 92%N => Some c            (* \\ *)
  | _ => None
  end.

(** [sre_parse.parse_template] for a pattern with [groups] groups, none of
    them named.  [fuel] bounds the number of pieces by the length.  A
    rejected template is modelled by [re.error] and the head of its
    message: the position that CPython appends to the message is left out,
    and a group name that is an identifier, for which CPython raises
    [IndexError], is rejected as a bad group name. *)
Fixpoint parse_template (groups : nat) (fuel : nat) (s : text) : result (list piece) :=
  let lit c k := match k with Ok ps => Ok (PText [c] :: ps) | Raise e => Raise e end in
  let grp n k :=
    if Nat.leb n groups
    then match k with Ok ps => Ok (PGroup n :: ps) | Raise e => Raise e end
    else Raise (re_error "invalid group reference") in
  match fuel with
  | O => Ok []
  | S fuel' =>
      match s with
      | [] => Ok []
      | c :: s1 =>
          if negb (N.eqb (code c) 92) then lit c (parse_template groups fuel' s1)
          else
            match s1 with
            | [] => Raise (re_error "bad escape (end of pattern)")
            | e :: s2 =>
                if N.eqb (code e) 103 then           (* \g<name> *)
                  match s2 with
                  | lt :: s3 =>
                      if N.eqb (code lt) 60 then
                        match until_gt [] s3 with
                        | Some (name, s4) =>
                            match name, int_of_name name with
                            | _ :: _, Some n =>
                                if Nat.leb 100 n
                                then Raise (re_error "invalid group reference")
                                else grp n (parse_template groups fuel' s4)
                            | _, _ => Raise (re_error "bad group name")
                            end
                        | None => Raise (re_error "missing >, unterminated name")
                        end
                      else Raise (re_error "missing <")
                  | [] => Raise (re_error "missing <")
                  end
                else if N.eqb (code e) 48 then       (* \0, \0o, \0oo *)
                  match s2 with
                  | d1 :: s3 =>
                      if is_octal d1 then
                        match s3 with
                        | d2 :: s4 =>
                            if is_octal d2
                            then lit (chr (8 * digit_val d1 + digit_val d2)%nat)
                                     (parse_template groups fuel' s4)
                            else lit (chr (digit_val d1)) (parse_template groups fuel' s3)
                        | [] => lit (chr (digit_val d1)) (parse_template groups fuel' s3)
                        end
                      else lit (chr 0) (parse_template groups fuel' s2)
                  | [] => lit (chr 0) (parse_template groups fuel' s2)
                  end
                else if is_digit e then              (* \N, \NN, \ooo *)
                  match s2 with
                  | d1 :: s3 =>
                      if is_digit d1 then
                        match s3 with
                        | d2 :: s4 =>
                            if is_octal e && is_octal d1 && is_octal d2 then
                              let v := (64 * digit_val e + 8 * digit_val d1 + digit_val d2)%nat in
                              if Nat.ltb 255 v
                              then Raise (re_error "octal escape value outside of range 0-0o377")
                              else lit (chr v) (parse_template groups fuel' s4)
                            else grp (10 * digit_val e + digit_val d1)%nat
                                     (parse_template groups fuel' s3)
                        | [] => grp (10 * digit_val e + digit_val d1)%nat
                                    (parse_template groups fuel' s3)
                        end
                      else grp (digit_val e) (parse_template groups fuel' s2)
                  | [] => grp (digit_val e) (parse_template groups fuel' s2)
                  end
                else
                  match escape_char e with
                  | Some x => lit x (parse_template groups fuel' s2)
                  | None =>
                      if is_ascii_letter e then Raise (re_error "bad escape")
                      else match parse_template groups fuel' s2 with
                           | Ok ps => Ok (PText [c; e] :: ps)
                           | Raise x => Raise x
                           end
                  end
            end
      end
  end.

(** The text a template stands for at one match; an unset group is empty. *)
Definition expand (ps : list piece) (matched : text) (s : mstate) : text :=
  flat_map (fun p =>
    match p with
    | PText t => t
    | PGroup O => matched
    | PGroup n => default [] (cap n s)
    end) ps.

(** [re.sub(r, repl, s)] with the template [repl] already parsed. *)
Definition sub_pieces (ic : bool) (r : regex) (ps : list piece) (s : text) : text :=
  let '(ms, tail) := all_matches ic r s in
  flat_map (fun m => let '(skipped, matched, s1) := m in
                     skipped ++ expand ps matched s1) ms ++ tail.

(** [re.sub(r, repl, s, flags)]: the template is parsed first, and a bad
    template raises even when nothing matches. *)
Definition sub (ic : bool) (groups : nat) (r : regex) (repl s : text) : result text :=
  match parse_template groups (length repl) repl with
  | Ok ps => Ok (sub_pieces ic r ps s)
  | Raise e => Raise e
  end.

(** [re.escape(p)] compiled: every character of [p] is a literal. *)
Definition literal (p : text) : regex := foldr (fun c r => Cat (Lit c) r) Eps p.

Definition plus (r : regex) : regex := Rep true 1 r.

End Re.

(** ** Literals that the compiled module does not show

    The repository ships [transcription.py] as compiled bytecode only, and
    four literals of its constant tables are not legible there.  The
    development is parametric in them. *)
Record literals := Literals {
  rate_medium : Z;        (* fallback rate returned below 100 words *)
  rate_long : Z;          (* fallback rate returned from 100 words on *)
  segment_floor : nat;    (* size under which a clause is left alone *)
  um_threshold : float    (* [random.random()] above it inserts "um" *)
}.

(** ** Speaking-rate estimator *)

(** One entry of [timestamps]: the dict
    [{'word': .., 'start_time': .., 'end_time': ..}]. *)
Record word_timing := WordTiming {
  word : Py.text;
  start_time : float;
  end_time : float
}.

Definition float_of_nat (n : nat) : float :=
  PrimFloat.of_uint63 (Uint63.of_Z (Z.of_nat n)).

(** [int(x)] for a float [x]: truncation toward zero; raises on an
    infinity or a NaN. *)
Definition int_of_float (x : float) : result Z :=
  match Prim2SF x with
  | S754_zero _ => Ok 0
  | S754_infinity _ =>
      Raise (Exn "OverflowError" "cannot convert float infinity to integer")
  | S754_nan => Raise (Exn "ValueError" "cannot convert float NaN to integer")
  | S754_finite sign m e =>
      let mag := if 0 <=? e then Z.shiftl (Zpos m) e else Z.shiftr (Zpos m) (- e) in
      Ok (if sign then - mag else mag)
  end.

Definition is_empty {A} (l : list A) : bool :=
  match l with [] => true | _ => false end.

(** [[w for w in transcript.split() if w]] *)
Definition spoken_words (transcript : Py.text) : list Py.text :=
  filter (fun w => negb (is_empty w) = true) (Py.split transcript).

(** [TranscriptionService._calculate_fallback_speaking_rate] *)
Definition _calculate_fallback_speaking_rate (L : literals) (transcript : Py.text)
    : option Z :=
  let words := spoken_words transcript in
  let total_words := length words in
  if Nat.eqb total_words 0 then None
  else if Nat.ltb total_words 20 then Some 120
  else if Nat.ltb total_words 100 then Some (rate_medium L)
  else Some (rate_long L).

(** The value [wpm] that the estimator computes from the first and the
    last timestamp, before it is checked against the bounds; [None] when
    the elapsed time is not positive. *)
Definition timed_rate (transcript : Py.text) (first last : word_timing)
    : option (result Z) :=
  let words := spoken_words transcript in
  let total_words := length words in
  let first_time := start_time first in
  let last_time := end_time last in
  let duration_minutes := PrimFloat.div (PrimFloat.sub last_time first_time) (float_of_nat 60) in
  if PrimFloat.leb duration_minutes (float_of_nat 0) then None
  else Some (int_of_float (PrimFloat.div (float_of_nat total_words) duration_minutes)).

(** [TranscriptionService._calculate_speaking_rate] *)
Definition _calculate_speaking_rate (L : literals) (transcript : Py.text)
    (timestamps : list word_timing) : result (option Z) :=
  match timestamps, last timestamps with
  | first :: _, Some final =>
      if Nat.ltb (length timestamps) 2
      then Ok (_calculate_fallback_speaking_rate L transcript)
      else
        match timed_rate transcript first final with
        | None => Ok (_calculate_fallback_speaking_rate L transcript)
        | Some (Raise e) => Raise e
        | Some (Ok wpm) =>
            if (wpm <? 30) || (300 <? wpm)
            then Ok (_calculate_fallback_speaking_rate L transcript)
            else Ok (Some wpm)
        end
  | _, _ => Ok (_calculate_fallback_speaking_rate L transcript)
  end.

(** ** Repetition cleaner *)

Definition space : Py.text := Py.of_string " ".

(** [\b(\w+)(\s+\1\b)+] *)
Definition repeated_word : Re.regex :=
  Re.Cat Re.Bnd
    (Re.Cat (Re.Grp 1 (Re.plus (Re.Cls Py.isword)))
            (Re.plus (Re.Grp 2 (Re.Cat (Re.plus (Re.Cls Py.isspace))
                                       (Re.Cat (Re.Ref 1) Re.Bnd))))).

(** [re.escape(phrase1) + r'\s+' + re.escape(phrase2)] *)
Definition phrase_twice (phrase1 phrase2 : Py.text) : Re.regex :=
  Re.Cat (Re.literal phrase1) (Re.Cat (Re.plus (Re.Cls Py.isspace)) (Re.literal phrase2)).

(** The body of the inner loop, at window start [i]. *)
Definition collapse_window (words : list Py.text) (phrase_len i : nat)
    (cleaned_text : Py.text) : result Py.text :=
  let phrase1 := Py.join space (Py.slice i (i + phrase_len) words) in
  let phrase2 := Py.join space (Py.slice (i + phrase_len) (i + phrase_len * 2) words) in
  if Py.eqt (Py.lower phrase1) (Py.lower phrase2)
  then Re.sub true 0 (phrase_twice phrase1 phrase2) phrase1 cleaned_text
  else Ok cleaned_text.

(** A [for] loop that threads one variable and stops at the first raise. *)
Fixpoint for_each {A B} (f : A -> B -> result B) (l : list A) (b : B) : result B :=
  match l with
  | [] => Ok b
  | a :: l' => match f a b with Ok b' => for_each f l' b' | Raise e => Raise e end
  end.

(** The body of the outer loop, for one phrase length. *)
Definition collapse_phrases (words : list Py.text) (phrase_len : nat)
    (cleaned_text : Py.text) : result Py.text :=
  if Nat.ltb (length words) (phrase_len * 2) then Ok cleaned_text
  else for_each (collapse_window words phrase_len)
                (seq 0 (length words - phrase_len * 2 + 1)) cleaned_text.

(** The last statement: [re.sub(r'\b(\w+)(\s+\1\b)+', r'\1', cleaned_text,
    flags=re.IGNORECASE)]. *)
Definition collapse_words (cleaned_text : Py.text) : result Py.text :=
  Re.sub true 2 repeated_word (Py.of_string "\1") cleaned_text.

(** [TranscriptionService._clean_repetitions] *)
Definition _clean_repetitions (text : Py.text) : result Py.text :=
  let words := Py.split text in
  if Nat.ltb (length words) 6 then Ok text
  else
    match for_each (collapse_phrases words) (seq 3 (6 - 3)) text with
    | Ok cleaned_text => collapse_words cleaned_text
    | Raise e => Raise e
    end.

(** ** The outside world *)

(** What [self.model.transcribe] returns: [result['text']], and
    [result['segments']] with the [words] of each segment when present. *)
Record word_info := WordInfo { wi_word : Py.text; wi_start : float; wi_end : float }.
Record segment := Segment { words : option (list word_info) }.
Record recognition := Recognition { r_text : Py.text; r_segments : option (list segment) }.

(** How a run of [ffmpeg] ends: normally, with [CalledProcessError]
    (non-zero exit status), or with another exception of [subprocess.run];
    and whether it has written its output file by then. *)
Inductive ffmpeg_exit := Exit_ok | Exit_failed (e : exn) | Exit_other (e : exn).
Record ffmpeg_run := FfmpegRun { exit : ffmpeg_exit; wrote_output : bool }.

(** The external capabilities a call relies on; paths are strings. *)
Record tools := Tools {
  model : option (string -> result recognition);  (* [self.model], [None] if not loaded *)
  mktemp : string;                                (* [tempfile.mktemp(suffix='.wav')] *)
  ffmpeg : string -> string -> ffmpeg_run;        (* input path, output path *)
  ffprobe : string -> result (option float);      (* the probe, [json.loads] and [float]:
                                                     the duration when both keys are there *)
  from_file : string -> result unit;              (* [AudioSegment.from_file] *)
  random : nat -> float;                          (* the n-th [random.random()] *)
  removable : string -> bool                      (* whether [os.remove] succeeds *)
}.

(** What a call changes: the files on disk, the draws taken from the
    random generator, the log, and [transcribe]'s local list
    [temp_files]. *)
Record state := State {
  files : gset string;
  draws : nat;
  log : list string;
  temp_files : list string
}.

(** Computations that read and change the state and may raise. *)
Definition M (A : Type) : Type := state -> result A * state.

Definition ret {A} (a : A) : M A := fun s => (Ok a, s).
Definition bind {A B} (m : M A) (f : A -> M B) : M B :=
  fun s => match m s with
           | (Ok a, s') => f a s'
           | (Raise e, s') => (Raise e, s')
           end.
Definition raise {A} (e : exn) : M A := fun s => (Raise e, s).
Definition lift {A} (r : result A) : M A := fun s => (r, s).

Notation "'let*' x ':=' m 'in' k" := (bind m (fun x => k))
  (at level 10, x name, m at level 100, k at level 200).

(** [try: m except Exception as e: h e] *)
Definition try_except {A} (m : M A) (h : exn -> M A) : M A :=
  fun s => match m s with
           | (Ok a, s') => (Ok a, s')
           | (Raise e, s') => h e s'
           end.

(** [try: m finally: f] *)
Definition try_finally {A} (m : M A) (f : M unit) : M A :=
  fun s => match m s with
           | (r, s') => match f s' with
                        | (Ok _, s'') => (r, s'')
                        | (Raise e, s'') => (Raise e, s'')
                        end
           end.

(** [for x in l: body x] *)
Fixpoint for_ {A} (l : list A) (body : A -> M unit) : M unit :=
  match l with
  | [] => ret tt
  | x :: l' => bind (body x) (fun _ => for_ l' body)
  end.

(** A loop that threads one variable. *)
Fixpoint fold_ {A B} (body : A -> B -> M B) (l : list A) (b : B) : M B :=
  match l with
  | [] => ret b
  | x :: l' => bind (body x b) (fold_ body l')
  end.

Definition logger (level msg : string) : M unit :=
  fun s => (Ok tt, State (files s) (draws s) (log s ++ [level +:+ ": " +:+ msg]) (temp_files s)).

Definition path_exists (p : string) : M bool :=
  fun s => (Ok (bool_decide (p ∈ files s)), s).

(** [os.remove(p)] *)
Definition os_remove (T : tools) (p : string) : M unit :=
  fun s =>
    if bool_decide (p ∈ files s) && removable T p
    then (Ok tt, State (files s ∖ {[p]}) (draws s) (log s) (temp_files s))
    else (Raise (Exn "OSError" p), s).

(** [random.random()] *)
Definition random_random (T : tools) : M float :=
  fun s => (Ok (random T (draws s)), State (files s) (S (draws s)) (log s) (temp_files s)).

(** [temp_files.append(p)] *)
Definition temp_files_append (p : string) : M unit :=
  fun s => (Ok tt, State (files s) (draws s) (log s) (temp_files s ++ [p])).

Definition get_temp_files : M (list string) := fun s => (Ok (temp_files s), s).

(** [subprocess.run(['ffmpeg', '-i', video, ..., out], check=True,
    capture_output=True)] *)
Definition run_ffmpeg (T : tools) (video out : string) : M (result unit) :=
  fun s =>
    let r := ffmpeg T video out in
    let s' := if wrote_output r
              then State (files s ∪ {[out]}) (draws s) (log s) (temp_files s) else s in
    match exit r with
    | Exit_ok => (Ok (Ok tt), s')
    | Exit_failed e => (Ok (Raise e), s')
    | Exit_other e => (Raise e, s')
    end.

(** ** Filler-word densifier *)

Definition lits (s : string) : Re.regex := Re.literal (Py.of_string s).

(** [\b(um|uh|like|you know)\b] *)
Definition filler_word : Re.regex :=
  Re.Cat Re.Bnd
    (Re.Cat (Re.Grp 1 (Re.Alt (lits "um") (Re.Alt (lits "uh")
                         (Re.Alt (lits "like") (lits "you know")))))
            Re.Bnd).

Definition is_clause_end (c : ascii) : bool :=
  existsb (Py.eqc c) (Py.of_string ".!?,;").

(** [[^.!?,;]*?(?:[.!?,;]|$)] *)
Definition clause : Re.regex :=
  Re.Cat (Re.Rep false 0 (Re.Cls (fun c => negb (is_clause_end c))))
         (Re.Alt (Re.Cls is_clause_end) Re.Eos).

(** The condition of the list comprehension:
    [len(s.split()) > n and not re.search(filler, s.lower())]. *)
Definition is_clean_segment (L : literals) (s : Py.text) : bool :=
  Nat.ltb (segment_floor L) (length (Py.split s))
  && negb (Re.search false filler_word (Py.lower s)).

(** The body of the loop over the first three clean segments. *)
Definition densify_segment (L : literals) (T : tools) (segment : Py.text)
    (modified : Py.text) : M Py.text :=
  if Nat.ltb (length (Py.strip segment)) (segment_floor L) then ret modified
  else
    let words := Py.split segment in
    if Nat.leb 6 (length words) then
      let midpoint := (length words / 2)%nat in
      let* x := random_random T in
      let insertion :=
        if PrimFloat.ltb (um_threshold L) x then Py.of_string " um " else Py.of_string " uh " in
      let modified_segment :=
        Py.join space (take midpoint words) ++ insertion
        ++ Py.join space (drop midpoint words) in
      ret (Py.replace segment modified_segment modified)
    else ret modified.

(** The [try] block of [_ensure_filler_words]. *)
Definition densify (L : literals) (T : tools) (transcript : Py.text)
    (audio_path : string) : M Py.text :=
  let* _ := lift (from_file T audio_path) in
  let filler_count := Re.count_matches false filler_word (Py.lower transcript) in
  let word_count := length (Py.split transcript) in
  if Nat.ltb 50 word_count
     && PrimFloat.ltb (float_of_nat filler_count)
                      (PrimFloat.div (float_of_nat word_count) (float_of_nat 50))
  then
    let clean_segments := Re.findall false clause transcript in
    let clean_segments := List.filter (is_clean_segment L) clean_segments in
    if is_empty clean_segments then ret transcript
    else fold_ (densify_segment L T) (take 3 clean_segments) transcript
  else ret transcript.

(** [TranscriptionService._ensure_filler_words] *)
Definition _ensure_filler_words (L : literals) (T : tools) (transcript : Py.text)
    (audio_path : string) : M Py.text :=
  try_except (densify L T transcript audio_path)
    (fun e =>
       let* _ := logger "WARNING" ("Error in filler word enhancement: " +:+ exn_message e) in
       ret transcript).

(** ** Orchestrator *)

(** Values stored in the dictionary that [transcribe] returns. *)
Inductive value :=
| VNone
| VBool (b : bool)
| VStr (s : string)
| VText (t : Py.text)
| VInt (z : Z)
| VFloat (x : float)
| VTimings (l : list word_timing).

(** A dict literal: keys in the order they are written. *)
Definition dict := list (string * value).

(** [d.get(k)]: [None] when the key is absent. *)
Definition get (k : string) (d : dict) : value :=
  match List.find (fun p => String.eqb (fst p) k) d with
  | Some p => snd p
  | None => VNone
  end.

Definition has_key (k : string) (d : dict) : bool :=
  existsb (fun p => String.eqb (fst p) k) d.

(** [TranscriptionService._extract_audio] *)
Definition _extract_audio (T : tools) (video_path : string) : M string :=
  let temp_audio := mktemp T in
  let* r := run_ffmpeg T video_path temp_audio in
  match r with
  | Ok _ => ret temp_audio
  | Raise e => raise (Exn "Exception" ("Failed to extract audio: " +:+ exn_message e))
  end.

(** The two nested loops that flatten the word timestamps. *)
Definition flatten_timestamps (r : recognition) : list word_timing :=
  match r_segments r with
  | Some segments =>
      flat_map (fun seg =>
        match words seg with
        | Some ws => map (fun w => WordTiming (wi_word w) (wi_start w) (wi_end w)) ws
        | None => []
        end) segments
  | None => []
  end.

(** The duration probe; its bare [except: pass] keeps [duration = None]. *)
Definition probe_duration (T : tools) (source_audio_path : string) : M (option float) :=
  try_except (lift (ffprobe T source_audio_path)) (fun _ => ret None).

Definition opt_value {A} (f : A -> value) (o : option A) : value :=
  match o with Some a => f a | None => VNone end.

(** The choice of the audio to recognise: the separate audio file when it
    is given and exists, else a temporary extract that is tracked. *)
Definition acquire_audio (T : tools) (video_path : string)
    (audio_path : option string) : M string :=
  let* audio_there :=
    match audio_path with
    | Some p => if String.eqb p "" then ret false else path_exists p
    | None => ret false
    end in
  if audio_there then ret (default "" audio_path)
  else let* p := _extract_audio T video_path in
       let* _ := temp_files_append p in
       ret p.

(** Recognition, post-processing and the assembly of the result. *)
Definition recognise (L : literals) (T : tools)
    (whisper : string -> result recognition) (source_audio_path : string) : M dict :=
  let* _ := logger "INFO" "Starting transcription with Whisper" in
  let* result := lift (whisper source_audio_path) in
  let transcript := Py.strip (r_text result) in
  let timestamps := flatten_timestamps result in
  let* transcript := lift (_clean_repetitions transcript) in
  let* transcript := _ensure_filler_words L T transcript source_audio_path in
  let* duration := probe_duration T source_audio_path in
  let* speaking_rate :=
    (if is_empty timestamps then ret None
     else lift (_calculate_speaking_rate L transcript timestamps)) in
  ret [("success", VBool true);
       ("transcript", VText transcript);
       ("timestamps", VTimings timestamps);
       ("duration", opt_value VFloat duration);
       ("speaking_rate", opt_value VInt speaking_rate)].

(** The inner [try] block of [transcribe]. *)
Definition transcribe_body (L : literals) (T : tools) (video_path : string)
    (audio_path : option string) : M dict :=
  let* video_there := path_exists video_path in
  if negb video_there
  then ret [("success", VBool false); ("error", VStr "Video file not found")]
  else
    match model T with
    | None =>
        ret [("success", VBool false);
             ("error", VStr "Transcription service not initialized correctly")]
    | Some whisper =>
        let* source_audio_path := acquire_audio T video_path audio_path in
        recognise L T whisper source_audio_path
    end.

(** The [finally] block: remove what [temp_files] lists, ignoring errors. *)
Definition cleanup (T : tools) : M unit :=
  let* l := get_temp_files in
  for_ l (fun file_path =>
    let* there := path_exists file_path in
    if there then try_except (os_remove T file_path) (fun _ => ret tt) else ret tt).

(** [TranscriptionService.transcribe]; [temp_files = []] comes first. *)
Definition transcribe (L : literals) (T : tools) (video_path : string)
    (audio_path : option string) : M dict :=
  fun s =>
    try_finally
      (try_except (transcribe_body L T video_path audio_path)
         (fun e =>
            let* _ := logger "ERROR" ("Transcription error: " +:+ exn_message e) in
            ret [("success", VBool false); ("error", VStr (exn_message e))]))
      (cleanup T)
      (State (files s) (draws s) (log s) []).

(** ** Construction of the service *)

(** What [__init__] relies on: the environment variable
    [WHISPER_MODEL_SIZE], [torch.cuda.is_available()] and
    [whisper.load_model(size, device=device)]. *)
Record loader := Loader {
  whisper_model_size : option string;
  cuda_is_available : result bool;
  load_model : string -> string -> result (string -> result recognition)
}.

(** The attributes of a [TranscriptionService]; [device] is not set when
    the test for CUDA raises. *)
Record service := Service {
  model_size : string;
  device : option string;
  self_model : option (string -> result recognition)
}.

(** [TranscriptionService.__init__] *)
Definition __init__ (E : loader) : M service :=
  let model_size := default "turbo" (whisper_model_size E) in
  let* _ := logger "INFO" ("Initializing Whisper with model size: " +:+ model_size) in
  let failed (device : option string) (e : exn) :=
    let* _ := logger "ERROR" ("Error loading Whisper model: " +:+ exn_message e) in
    ret (Service model_size device None) in
  match cuda_is_available E with
  | Raise e => failed None e
  | Ok cuda =>
      let device := if cuda : bool then "cuda" else "cpu" in
      match load_model E model_size device with
      | Raise e => failed (Some device) e
      | Ok m =>
          let* _ := logger "INFO" ("Whisper model '" +:+ model_size
                                   +:+ "' loaded successfully") in
          ret (Service model_size (Some device) (Some m))
      end
  end.

(** ** Transcript cleanup service

    [backend/services/transcript_cleanup.py], class
    [TranscriptCleanupService]: a raw transcript is sent to a generative
    model with a fixed prompt, and the answer is taken only when it is not
    suspiciously short. *)

Module Cleanup.

(** Two literals of [clean_transcript] that the compiled module does not
    show in full: the length under which a transcript is not sent, and the
    share of the raw length under which an answer is refused. *)
Record literals := Literals {
  too_short : nat;
  shortest_share : float
}.

(** What [model.generate_content(prompt)] returns, seen through its
    attribute [text]: absent, a string, or a property that raises. *)
Inductive response :=
| No_text
| Text (t : Py.text)
| Text_raises (e : exn).

(** [genai.GenerativeModel(name)], then its [generate_content]. *)
Record gemini := Gemini {
  GenerativeModel : string -> result (Py.text -> result response)
}.

(** The attribute of a [TranscriptCleanupService] that [clean_transcript]
    reads. *)
Record service := Service {
  gemini_model : string
}.

(** [str(n)] for a length. *)
Definition str_of_nat (n : nat) : string := NilZero.string_of_uint (Nat.to_uint n).

Definition nl : string := String (ascii_of_nat 10) EmptyString.
Definition dq : string := String (ascii_of_nat 34) EmptyString.

(** The two constants of the f-string of [_create_cleanup_prompt]. *)
Definition prompt_head : string :=
  nl +:+
  "I need you to clean up this interview transcript to make it clear, logical, and grammatically correct while preserving the essence of what was said." +:+
  nl +:+ nl +:+ "Here's the raw transcript:" +:+ nl +:+ dq.

Definition prompt_tail : string :=
  dq +:+ nl +:+ nl +:+ "Please do the following:" +:+ nl +:+
  "1. Fix any obvious transcription errors, typos, or grammatical issues" +:+ nl +:+
  "2. Add proper punctuation and capitalization where needed" +:+ nl +:+
  "3. Format into complete, coherent sentences and paragraphs" +:+ nl +:+
  "4. Preserve filler words like " +:+ dq +:+ "um" +:+ dq +:+ ", " +:+ dq +:+ "uh" +:+ dq +:+
  ", " +:+ dq +:+ "like" +:+ dq +:+ ", " +:+ dq +:+ "you know" +:+ dq +:+ ", etc." +:+ nl +:+
  "5. Make the transcript logically coherent" +:+ nl +:+
  "6. Make the transcript read as natural spoken language, NOT formal writing" +:+ nl +:+
  "7. IMPORTANT: The final transcript should read clearly and make complete sense" +:+ nl +:+
  "   while still sounding like the person speaking in an interview setting" +:+ nl +:+
  "8. Replace any personal name introduction with " +:+ dq +:+ "Jane Doe" +:+ dq +:+
  " - for example, if someone says " +:+ dq +:+ "My name is John Smith" +:+ dq +:+ " or " +:+
  dq +:+ "I'm Sarah Johnson" +:+ dq +:+ ", change it to " +:+ dq +:+ "My name is Jane Doe" +:+
  dq +:+ " or " +:+ dq +:+ "I'm Jane Doe" +:+ dq +:+ ". This is for privacy reasons." +:+
  nl +:+ "9. DO NOT add new information the speaker didn't express" +:+ nl +:+
  "10. DO NOT summarize - provide the full cleaned transcript" +:+ nl +:+ nl +:+
  "Output the cleaned transcript directly without any introduction, explanation, or additional commentary." +:+
  nl.

(** [TranscriptCleanupService._create_cleanup_prompt] *)
Definition _create_cleanup_prompt (raw_transcript : Py.text) : Py.text :=
  Py.of_string prompt_head ++ raw_transcript ++ Py.of_string prompt_tail.

(** [hasattr(response, 'text')]: false on [AttributeError], and any other
    exception of the property goes through. *)
Definition hasattr_text (r : response) : result bool :=
  match r with
  | No_text => Ok false
  | Text _ => Ok true
  | Text_raises e => Raise e
  end.

(** [response.text] *)
Definition text_of (r : response) : result Py.text :=
  match r with
  | No_text => Raise (Exn "AttributeError" "text")
  | Text t => Ok t
  | Text_raises e => Raise e
  end.

Definition lengths (raw cleaned : Py.text) : string :=
  str_of_nat (length raw) +:+ ", cleaned: " +:+ str_of_nat (length cleaned) +:+ ")".

(** The inner [try] block: [Some] is what it returns, [None] when it
    falls through to the [return raw_transcript] after it. *)
Definition ask (C : literals) (G : gemini) (self : service)
    (raw_transcript prompt : Py.text) : M (option Py.text) :=
  let* model := lift (GenerativeModel G (gemini_model self)) in
  let* response := lift (model prompt) in
  let* _ := logger "INFO" "Cleanup API response received successfully" in
  let* has := lift (hasattr_text response) in
  if has : bool then
    let* cleaned_transcript := lift (text_of response) in
    if PrimFloat.ltb (float_of_nat (length cleaned_transcript))
         (PrimFloat.mul (float_of_nat (length raw_transcript)) (shortest_share C))
    then
      let* _ := logger "WARNING"
                  ("Cleaned transcript suspiciously short (raw: "
                   +:+ lengths raw_transcript cleaned_transcript) in
      ret (Some raw_transcript)
    else
      let* _ := logger "INFO"
                  ("Successfully cleaned transcript (raw: "
                   +:+ lengths raw_transcript cleaned_transcript) in
      ret (Some cleaned_transcript)
  else
    let* _ := logger "WARNING" "No text content found in Gemini API response" in
    ret None.

(** [TranscriptCleanupService.clean_transcript] *)
Definition clean_transcript (C : literals) (G : gemini) (self : service)
    (raw_transcript : Py.text) : M Py.text :=
  if is_empty raw_transcript
     || Nat.ltb (length (Py.strip raw_transcript)) (too_short C)
  then
    let* _ := logger "WARNING" "Transcript too short to clean up" in
    ret raw_transcript
  else
    try_except
      (let prompt := _create_cleanup_prompt raw_transcript in
       let* _ := logger "DEBUG" ("Sending cleanup request with transcript length: "
                                 +:+ str_of_nat (length raw_transcript)) in
       let* returned :=
         try_except (ask C G self raw_transcript prompt)
           (fun e =>
              let* _ := logger "ERROR" ("Error with Gemini API call: " +:+ exn_message e) in
              ret None) in
       ret (default raw_transcript returned))
      (fun e =>
         let* _ := logger "ERROR" ("Error cleaning transcript: " +:+ exn_message e) in
         ret raw_transcript).

End Cleanup.

(** ** Notions used in the statements *)

(** The rate of the specification's first tier, as a float:
    [word_count / (elapsed / 60)] with [elapsed] the last entry's end time
    minus the first entry's start time. *)
Definition quotient_rate (transcript : Py.text) (first final : word_timing) : float :=
  PrimFloat.div (float_of_nat (length (spoken_words transcript)))
    (PrimFloat.div (PrimFloat.sub (end_time final) (start_time first)) (float_of_nat 60)).

(** Scenario B of the specification. *)
Definition hi_there : list word_timing :=
  [WordTiming (Py.of_string "hi") 0%float 0.5%float;
   WordTiming (Py.of_string "there") 0.5%float 1%float].

(** Seven words spoken in six seconds and a half. *)
Definition seven_words : Py.text := Py.of_string "one two three four five six seven".
Definition seven_timings : list word_timing :=
  [WordTiming (Py.of_string "one") 0%float 1%float;
   WordTiming (Py.of_string "seven") 6%float 6.5%float].

(** Two words spread over a hundred seconds. *)
Definition slow_timings : list word_timing :=
  [WordTiming (Py.of_string "hi") 0%float 1%float;
   WordTiming (Py.of_string "there") 99%float 100%float].

(** A transcript of five words. *)
Definition five_words : Py.text := Py.of_string "I like my new job".

(** Values put in place of the illegible literals where an example needs
    concrete ones; no statement depends on this choice. *)
Definition sample_literals : literals := Literals 140 160 10 0.5%float.

(** The two shapes of a result: success without an [error] entry, or
    failure with an [error] message. *)
Definition is_success (d : dict) : Prop :=
  get "success" d = VBool true /\ has_key "error" d = false /\ get "error" d = VNone.
Definition is_failure (d : dict) : Prop :=
  get "success" d = VBool false /\ exists msg, get "error" d = VStr msg.

(** [result['success']] for what [transcribe] evaluates to. *)
Definition is_success_b (r : result dict) : bool :=
  match r with
  | Ok d => match get "success" d with VBool b => b | _ => false end
  | Raise _ => false
  end.

(** A world for the examples: the video is on disk, the recogniser hears
    "hello world" without word timestamps, [ffmpeg] succeeds and writes its
    output, and nothing can be removed. *)
Definition hello : recognition := Recognition (Py.of_string "hello world") None.
Definition stubborn_tools : tools :=
  Tools (Some (fun _ => Ok hello)) "/tmp/tmp0.wav"
        (fun _ _ => FfmpegRun Exit_ok true)
        (fun _ => Ok (Some 2%float))
        (fun _ => Ok tt)
        (fun _ => 0.75%float)
        (fun _ => false).
(** The same world, where files can be removed. *)
Definition friendly_tools : tools :=
  Tools (Some (fun _ => Ok hello)) "/tmp/tmp0.wav"
        (fun _ _ => FfmpegRun Exit_ok true)
        (fun _ => Ok (Some 2%float))
        (fun _ => Ok tt)
        (fun _ => 0.75%float)
        (fun _ => true).
(** The same world, where the audio cannot be loaded for densification. *)
Definition deaf_tools : tools :=
  Tools (Some (fun _ => Ok hello)) "/tmp/tmp0.wav"
        (fun _ _ => FfmpegRun Exit_ok true)
        (fun _ => Ok (Some 2%float))
        (fun _ => Raise (Exn "FileNotFoundError" "No such file"))
        (fun _ => 0.75%float)
        (fun _ => true).
Definition video_on_disk : state := State {["/data/answer.webm"]} 0 [] [].

(** [m] leaves the files on disk and the tracked list as they are. *)
Definition keeps {A} (m : M A) : Prop :=
  forall s, files (snd (m s)) = files s /\ temp_files (snd (m s)) = temp_files s.

(** Whatever [m] returns satisfies [P]. *)
Definition returns {A} (P : A -> Prop) (m : M A) : Prop :=
  forall s a s', m s = (Ok a, s') -> P a.

(** The state after the text [x], in front of [r]. *)
Definition after (pv : option ascii) (x r : Py.text) (c : list (nat * Py.text)) : Re.mstate :=
  Re.MState (Re.last_of pv x) r c.

(** A text made of characters of the class [q]. *)
Definition all_in (q : ascii -> bool) (x : Py.text) : Prop :=
  Forall (fun ch => q ch = true) x.

(** A text without any character of the class [q]. *)
Definition none_in (q : ascii -> bool) (x : Py.text) : Prop :=
  Forall (fun ch => q ch = false) x.

(** A text that does not start with a character of the class [q]. *)
Definition not_at (q : ascii -> bool) (r : Py.text) : Prop :=
  match r with [] => True | ch :: _ => q ch = false end.

(** A word in the sense of [\w+]. *)
Definition is_word (w : Py.text) : Prop := w <> [] /\ all_in Py.isword w.

(** A further occurrence of the word [w]: some white space, then [w] again
    up to the case. *)
Definition repeats (w : Py.text) (rep : Py.text * Py.text) : Prop :=
  fst rep <> [] /\ all_in Py.isspace (fst rep) /\ Py.lower (snd rep) = Py.lower w.

(** The text of a list of further occurrences. *)
Definition occurrences (reps : list (Py.text * Py.text)) : Py.text :=
  flat_map (fun rep => fst rep ++ snd rep) reps.

(** One iteration of the repeated part of [repeated_word]: [\s+\1\b]. *)
Definition word_again : Re.regex :=
  Re.Grp 2 (Re.Cat (Re.plus (Re.Cls Py.isspace)) (Re.Cat (Re.Ref 1) Re.Bnd)).

(** The groups recorded after the occurrences [reps]. *)
Definition recorded (reps : list (Py.text * Py.text)) (c : list (nat * Py.text))
    : list (nat * Py.text) :=
  fold_left (fun c rep => (2%nat, fst rep ++ snd rep) :: c) reps c.

(** The first group among the recorded ones. *)
Definition group1 (c : list (nat * Py.text)) : option Py.text :=
  Re.cap 1 (Re.MState None [] c).

(** A stutter that hides a repeated phrase. *)
Definition stutter : Py.text := Py.of_string "so I I think so I think we can go".


(** The maximal runs of word characters of a text: [re.findall(r'\w+', t)]. *)
Definition word_tokens (t : Py.text) : list Py.text :=
  Re.findall false (Re.plus (Re.Cls Py.isword)) t.

(** An answer of 55 words in which a sentence of 25 words is said twice,
    the first time after "I would like to say". *)
Definition strength : Py.text :=
  Py.of_string ("my biggest strength is that I learn new tools quickly and I enjoy "
                +:+ "helping my team solve hard problems under pressure with a calm attitude").
Definition repeated_answer : Py.text :=
  Py.of_string "I would like to say " ++ strength ++ Py.of_string ". " ++ strength.

(** The same sentence with a filler after its twelfth word. *)
Definition strength_with (filler : Py.text) : Py.text :=
  Py.of_string "my biggest strength is that I learn new tools quickly and I"
  ++ filler
  ++ Py.of_string "enjoy helping my team solve hard problems under pressure with a calm attitude".

(** What the densifier makes of [repeated_answer]. *)
Definition merged_answer (filler : Py.text) : Py.text :=
  Py.of_string "I would like to say" ++ strength_with filler ++ Py.of_string "."
  ++ strength_with filler.

(** The two fillers the densifier inserts. *)
Definition um : Py.text := Py.of_string " um ".
Definition uh : Py.text := Py.of_string " uh ".

(** Whether the word [w] is among the words [l]. *)
Definition occurs (w : string) (l : list Py.text) : bool :=
  existsb (Py.eqt (Py.of_string w)) l.

(** A text without backslash, which a replacement template takes as it is. *)
Definition plain (p : Py.text) : Prop :=
  Forall (fun c => N.eqb (Py.code c) 92 = false) p.

(** Cleaning twice. *)
Definition clean_twice (text : Py.text) : result Py.text :=
  match _clean_repetitions text with
  | Ok once => _clean_repetitions once
  | Raise e => Raise e
  end.

(** The capabilities [T] seen from a service: [self.model] is the
    service's. *)
Definition tools_of (S : service) (T : tools) : tools :=
  Tools (self_model S) (mktemp T) (ffmpeg T) (ffprobe T) (from_file T) (random T)
        (removable T).

(** The capabilities [T] with another duration probe. *)
Definition with_ffprobe (T : tools) (probe : string -> result (option float)) : tools :=
  Tools (model T) (mktemp T) (ffmpeg T) probe (from_file T) (random T) (removable T).

(** The two failures that [transcribe] reports before any work. *)
Definition video_not_found : dict :=
  [("success", VBool false); ("error", VStr "Video file not found")].
Definition not_initialized : dict :=
  [("success", VBool false);
   ("error", VStr "Transcription service not initialized correctly")].

(** Whether a separate audio file is given and on disk. *)
Definition audio_given (audio_path : option string) (s : state) : bool :=
  match audio_path with
  | Some p => negb (String.eqb p "") && bool_decide (p ∈ files s)
  | None => false
  end.

(** The message that [transcribe] reports when [ffmpeg] ends with [r]:
    a non-zero exit status is wrapped by [_extract_audio], any other
    exception of [subprocess.run] is reported as it is. *)
Definition extraction_error (r : ffmpeg_exit) : option string :=
  match r with
  | Exit_ok => None
  | Exit_failed e => Some ("Failed to extract audio: " +:+ exn_message e)
  | Exit_other e => Some (exn_message e)
  end.

(** The duration that a probe ends with: none when it raises. *)
Definition found_duration (r : result (option float)) : option float :=
  match r with Ok d => d | Raise _ => None end.

(** Loading the model fails: the test for CUDA raises, or [load_model]
    does on the device chosen. *)
Definition load_fails (E : loader) : Prop :=
  match cuda_is_available E with
  | Raise _ => True
  | Ok cuda =>
      exists e, load_model E (default "turbo" (whisper_model_size E))
                  (if cuda : bool then "cuda" else "cpu") = Raise e
  end.

(** A loader for the examples, on a machine without the model file. *)
Definition no_model_file : loader :=
  Loader None (Ok false) (fun _ _ => Raise (Exn "RuntimeError" "Model turbo not found")).

(** In a result that carries a transcript and timestamps, the rate is
    null without timestamps, and else the estimator's on these two. *)
Definition rate_of_result (L : literals) (d : dict) : Prop :=
  forall t ts,
    get "transcript" d = VText t -> get "timestamps" d = VTimings ts ->
    if is_empty ts then get "speaking_rate" d = VNone
    else exists r, _calculate_speaking_rate L t ts = Ok r
                   /\ get "speaking_rate" d = opt_value VInt r.

(** A recogniser that raises on every file. *)
Definition broken_tools : tools :=
  Tools (Some (fun _ => Raise (Exn "RuntimeError" "CUDA out of memory"))) "/tmp/tmp0.wav"
        (fun _ _ => FfmpegRun Exit_ok true)
        (fun _ => Ok (Some 2%float))
        (fun _ => Ok tt)
        (fun _ => 0.75%float)
        (fun _ => true).

(** Whether the group [n] occurs in the pattern [r]. *)
Fixpoint has_group (n : nat) (r : Re.regex) : bool :=
  match r with
  | Re.Cat r1 r2 | Re.Alt r1 r2 => has_group n r1 || has_group n r2
  | Re.Rep _ _ r1 => has_group n r1
  | Re.Grp m r1 => Nat.eqb m n || has_group n r1
  | _ => false
  end.

(** The state [s1] is further in the subject than [s], and has recorded
    groups of [r] on top of those of [s]. *)
Definition further (r : Re.regex) (s s1 : Re.mstate) : Prop :=
  (exists x, Re.rest s = x ++ Re.rest s1)
  /\ exists new, Re.caps s1 = new ++ Re.caps s
                 /\ Forall (fun p => has_group (fst p) r = true) new.

(** The guard of the densifier: more than 50 words, and fewer fillers
    than one for 50 words. *)
Definition fillers_are_sparse (transcript : Py.text) : bool :=
  Nat.ltb 50 (length (Py.split transcript))
  && PrimFloat.ltb
       (float_of_nat (Re.count_matches false filler_word (Py.lower transcript)))
       (PrimFloat.div (float_of_nat (length (Py.split transcript))) (float_of_nat 50)).

(** Whether a text holds a filler, as the densifier looks for them. *)
Definition has_filler (t : Py.text) : bool :=
  Re.search false filler_word (Py.lower t).

(** A transcript of 52 words without punctuation nor filler. *)
Definition plain_answer : list Py.text :=
  map Py.of_string
    ["my"; "biggest"; "strength"; "is"; "that"; "I"; "learn"; "new"; "tools"; "quickly";
     "and"; "enjoy"; "helping"; "the"; "team"; "solve"; "hard"; "problems"; "under";
     "pressure"; "with"; "a"; "calm"; "attitude"; "which"; "has"; "been"; "very"; "useful";
     "in"; "every"; "project"; "we"; "shipped"; "last"; "year"; "when"; "deadlines"; "were";
     "short"; "so"; "people"; "often"; "ask"; "me"; "for"; "help"; "during"; "our";
     "weekly"; "planning"; "meetings"]%string.

(** The answer of the generative model to the cleanup prompt for [raw]:
    the text it gives, if it gives one. *)
Definition answer (G : Cleanup.gemini) (self : Cleanup.service) (raw : Py.text)
    : option Py.text :=
  match Cleanup.GenerativeModel G (Cleanup.gemini_model self) with
  | Ok model =>
      match model (Cleanup._create_cleanup_prompt raw) with
      | Ok (Cleanup.Text t) => Some t
      | _ => None
      end
  | Raise _ => None
  end.

(** An answer is suspiciously short. *)
Definition suspiciously_short (C : Cleanup.literals) (raw cleaned : Py.text) : bool :=
  PrimFloat.ltb (float_of_nat (length cleaned))
    (PrimFloat.mul (float_of_nat (length raw)) (Cleanup.shortest_share C)).

(** Values in place of the illegible literals of the cleanup service. *)
Definition sample_cleanup_literals : Cleanup.literals := Cleanup.Literals 10 0.5%float.

(** A generative model that answers with the same text whatever it is
    asked. *)
Definition parrot (t : Py.text) : Cleanup.gemini :=
  Cleanup.Gemini (fun _ => Ok (fun _ => Ok (Cleanup.Text t))).

(** What stands before the middle of a sentence, and after it. *)
Definition lead (pre : list Py.text) : Py.text :=
  match pre with [] => [] | _ => Py.join space pre ++ space end.
Definition trail (post : list Py.text) : Py.text :=
  match post with [] => [] | _ => space ++ Py.join space post end.

(** What follows a word [w]: nothing, or a space and another word. *)
Definition other_word_next (w r : Py.text) : Prop :=
  r = [] \/ exists w0 r3, r = space ++ w0 ++ r3 /\ is_word w0
                          /\ Py.lower w0 <> Py.lower w /\ not_at Py.isword r3.

(** No word of [ws] is said twice in a row. *)
Fixpoint neighbours_differ (ws : list Py.text) : Prop :=
  match ws with
  | u :: ((v :: _) as rest) => Py.lower v <> Py.lower u /\ neighbours_differ rest
  | _ => True
  end.

(** Further occurrences of a word in a sentence: a space before each. *)
Definition spaced (rs : list Py.text) : list (Py.text * Py.text) :=
  map (fun r => (space, r)) rs.

(** A sentence as its maximal runs: each a word followed by its further
    occurrences, in any casing. *)
Definition said (gs : list (Py.text * list Py.text)) : list Py.text :=
  flat_map (fun g => fst g :: snd g) gs.
Definition heard (gs : list (Py.text * list Py.text)) : list Py.text := map fst gs.
Definition is_run (g : Py.text * list Py.text) : Prop :=
  is_word (fst g) /\ Forall (fun r => Py.lower r = Py.lower (fst g)) (snd g).

(** The text that a substitution makes of the matches found and of the
    text left after them. *)
Definition glue (ps : list Re.piece) (found : list (Py.text * Py.text * Re.mstate) * Py.text)
    : Py.text :=
  flat_map (fun m => let '(skipped, matched, s1) := m in
                     skipped ++ Re.expand ps matched s1) (fst found) ++ snd found.

(** What [Re.matches_from] makes of one search in the text [t0]. *)
Definition after_search (ic : bool) (r : Re.regex) (fuel : nat) (t0 : Py.text)
    (found : option (Py.text * Py.text * Re.mstate))
    : list (Py.text * Py.text * Re.mstate) * Py.text :=
  match found with
  | None => ([], t0)
  | Some (skipped, matched, s1) =>
      let '(more, tail) :=
        Re.matches_from ic r fuel (Nat.eqb (length matched) 0) s1 in
      ((skipped, matched, s1) :: more, tail)
  end.

(** The test of the cleaner on the window of [m] words at [i]: the phrase
    there and the one after it are the same up to the case. *)
Definition phrase_repeats (words : list Py.text) (m i : nat) : bool :=
  Py.eqt (Py.lower (Py.join space (Py.slice i (i + m) words)))
         (Py.lower (Py.join space (Py.slice (i + m) (i + m * 2) words))).

(** No window of the phrase pass finds its phrase said twice. *)
Definition no_phrase_twice (words : list Py.text) : bool :=
  forallb (fun m => forallb (fun i => negb (phrase_repeats words m i))
                      (seq 0 (length words + 1 - m * 2)))
          (seq 3 (6 - 3)).

(** Each word said once. *)
Definition once (ws : list Py.text) : list (Py.text * list Py.text) :=
  map (fun w => (w, [])) ws.

(** Five words spoken in just under a second. *)
Definition brisk_timings : list word_timing :=
  [WordTiming (Py.of_string "I") 0%float 0.25%float;
   WordTiming (Py.of_string "job") 0.5%float 0.9990234375%float].

(** A text with the doubled word "don't", and one with the word "the"
    said twelve times, the first time with a capital. *)
Definition dont_dont : Py.text := Py.of_string "I said don't don't do that now".
Definition the_twelve_times : Py.text :=
  Py.of_string "The the the the the the the the the the the the end".

(** Scenario A of the specification, as recognised with the times of its
    first and last word, in a world where the video is on disk. *)
Definition scenario_a : Py.text :=
  Py.of_string "I I went to the the store and and bought milk".
Definition scenario_a_cleaned : Py.text :=
  Py.of_string "I went to the store and bought milk".
Definition stuttered : recognition :=
  Recognition scenario_a
    (Some [Segment (Some [WordInfo (Py.of_string "I") 0%float 0.25%float;
                          WordInfo (Py.of_string "milk") 3.5%float 4%float])]).
Definition stutter_tools : tools :=
  Tools (Some (fun _ => Ok stuttered)) "/tmp/tmp0.wav"
        (fun _ _ => FfmpegRun Exit_ok true)
        (fun _ => Ok (Some 4%float))
        (fun _ => Ok tt)
        (fun _ => 0.75%float)
        (fun _ => true).

(** * Properties *)

(** ** Speaking rate *)

Section Rate.
Variable L : literals.

Lemma fallback_zero transcript :
  length (spoken_words transcript) = 0%nat ->
  _calculate_fallback_speaking_rate L transcript = None.
Proof. unfold _calculate_fallback_speaking_rate. intros ->. reflexivity. Qed.

Lemma fallback_short transcript :
  (0 < length (spoken_words transcript) < 20)%nat ->
  _calculate_fallback_speaking_rate L transcript = Some 120.
Proof.
  unfold _calculate_fallback_speaking_rate. intros [H0 H1].
  destruct (Nat.eqb_spec (length (spoken_words transcript)) 0); [lia|].
  destruct (Nat.ltb_spec (length (spoken_words transcript)) 20); [reflexivity|lia].
Qed.

Lemma fallback_medium transcript :
  (20 <= length (spoken_words transcript) < 100)%nat ->
  _calculate_fallback_speaking_rate L transcript = Some (rate_medium L).
Proof.
  unfold _calculate_fallback_speaking_rate. intros [H0 H1].
  destruct (Nat.eqb_spec (length (spoken_words transcript)) 0); [lia|].
  destruct (Nat.ltb_spec (length (spoken_words transcript)) 20); [lia|].
  destruct (Nat.ltb_spec (length (spoken_words transcript)) 100); [reflexivity|lia].
Qed.

Lemma fallback_long transcript :
  (100 <= length (spoken_words transcript))%nat ->
  _calculate_fallback_speaking_rate L transcript = Some (rate_long L).
Proof.
  unfold _calculate_fallback_speaking_rate. intros H0.
  destruct (Nat.eqb_spec (length (spoken_words transcript)) 0); [lia|].
  destruct (Nat.ltb_spec (length (spoken_words transcript)) 20); [lia|].
  destruct (Nat.ltb_spec (length (spoken_words transcript)) 100); [lia|reflexivity].
Qed.

(** With fewer than two timestamps the estimator is the fallback. *)
Lemma rate_without_timestamps transcript timestamps :
  (length timestamps < 2)%nat ->
  _calculate_speaking_rate L transcript timestamps
  = Ok (_calculate_fallback_speaking_rate L transcript).
Proof.
  intros H. unfold _calculate_speaking_rate.
  destruct timestamps as [|first rest0]; [reflexivity|].
  destruct (last (first :: rest0)); [|reflexivity].
  destruct (Nat.ltb_spec (length (first :: rest0)) 2); [reflexivity|lia].
Qed.

(** With two timestamps or more the estimator goes through [timed_rate]. *)
Lemma rate_with_timestamps transcript timestamps first final :
  head timestamps = Some first -> last timestamps = Some final ->
  (2 <= length timestamps)%nat ->
  _calculate_speaking_rate L transcript timestamps
  = match timed_rate transcript first final with
    | None => Ok (_calculate_fallback_speaking_rate L transcript)
    | Some (Raise e) => Raise e
    | Some (Ok wpm) =>
        if (wpm <? 30) || (300 <? wpm)
        then Ok (_calculate_fallback_speaking_rate L transcript)
        else Ok (Some wpm)
    end.
Proof.
  intros Hh Hl Hn. unfold _calculate_speaking_rate.
  destruct timestamps as [|t0 rest0]; [discriminate|].
  simpl in Hh. injection Hh as ->. rewrite Hl.
  destruct (Nat.ltb_spec (length (first :: rest0)) 2); [lia|reflexivity].
Qed.

End Rate.

(** C3 (amended).  With at least two timestamps and a positive duration
    in minutes, the estimator returns the integer part of
    word_count / (elapsed / 60), provided that integer lies between 30 and
    300; for the timestamps of scenario B and the transcript "hi there" it
    returns 120. *)
Theorem tier1_rate_is_truncated_quotient (L : literals) :
  (forall transcript timestamps first final wpm,
      head timestamps = Some first -> last timestamps = Some final ->
      (2 <= length timestamps)%nat ->
      PrimFloat.leb
        (PrimFloat.div (PrimFloat.sub (end_time final) (start_time first)) (float_of_nat 60))
        (float_of_nat 0) = false ->
      int_of_float (quotient_rate transcript first final) = Ok wpm ->
      30 <= wpm <= 300 ->
      _calculate_speaking_rate L transcript timestamps = Ok (Some wpm))
  /\ _calculate_speaking_rate L (Py.of_string "hi there") hi_there = Ok (Some 120).
Proof.
  split.
  - intros transcript timestamps first final wpm Hh Hl Hn Hpos Hint [Hlo Hhi].
    rewrite (rate_with_timestamps L transcript timestamps first final Hh Hl Hn).
    unfold timed_rate. rewrite Hpos.
    unfold quotient_rate in Hint. rewrite Hint.
    destruct (Z.ltb_spec wpm 30); [lia|].
    destruct (Z.ltb_spec 300 wpm); [lia|]. reflexivity.
  - reflexivity.
Qed.

Lemma tier1_rate_is_truncated_quotient_witness :
  _calculate_speaking_rate sample_literals seven_words seven_timings = Ok (Some 64).
Proof.
  refine (proj1 (tier1_rate_is_truncated_quotient sample_literals)
            seven_words seven_timings
            (WordTiming (Py.of_string "one") 0%float 1%float)
            (WordTiming (Py.of_string "seven") 6%float 6.5%float) 64 _ _ _ _ _ _).
  - reflexivity.
  - reflexivity.
  - simpl. lia.
  - reflexivity.
  - reflexivity.
  - lia.
Defined.

(** C3, as first stated, fails: seven words over 6.5 seconds make a
    quotient above 64.6, and the estimator returns 64. *)
Lemma tier1_rate_not_the_quotient :
  (forall L, _calculate_speaking_rate L seven_words seven_timings = Ok (Some 64))
  /\ length seven_timings = 2%nat
  /\ PrimFloat.ltb 0%float (PrimFloat.sub 6.5%float 0%float) = true
  /\ PrimFloat.ltb 64.5%float
       (quotient_rate seven_words
          (WordTiming (Py.of_string "one") 0%float 1%float)
          (WordTiming (Py.of_string "seven") 6%float 6.5%float)) = true.
Proof. repeat split. Qed.

(** C8 (amended).  The bounds are checked on the integer part of the
    rate of the first tier: when the integer part of
    word_count / (elapsed / 60) is below 30 or above 300, the estimator
    returns what the word-count fallback returns. *)
Theorem implausible_rate_falls_back (L : literals) transcript timestamps first final wpm :
  head timestamps = Some first -> last timestamps = Some final ->
  (2 <= length timestamps)%nat ->
  PrimFloat.leb
    (PrimFloat.div (PrimFloat.sub (end_time final) (start_time first)) (float_of_nat 60))
    (float_of_nat 0) = false ->
  int_of_float (quotient_rate transcript first final) = Ok wpm ->
  wpm < 30 \/ 300 < wpm ->
  _calculate_speaking_rate L transcript timestamps
  = Ok (_calculate_fallback_speaking_rate L transcript).
Proof.
  intros Hh Hl Hn Hpos Hint Hout.
  rewrite (rate_with_timestamps L transcript timestamps first final Hh Hl Hn).
  unfold timed_rate. rewrite Hpos.
  unfold quotient_rate in Hint. rewrite Hint.
  destruct (Z.ltb_spec wpm 30); [reflexivity|].
  destruct (Z.ltb_spec 300 wpm); [reflexivity|lia].
Qed.

Lemma implausible_rate_falls_back_witness :
  int_of_float (quotient_rate (Py.of_string "hi there")
                  (WordTiming (Py.of_string "hi") 0%float 1%float)
                  (WordTiming (Py.of_string "there") 99%float 100%float)) = Ok 1
  /\ _calculate_speaking_rate sample_literals (Py.of_string "hi there") slow_timings
     = Ok (Some 120).
Proof.
  split; [reflexivity|].
  refine (implausible_rate_falls_back sample_literals (Py.of_string "hi there") slow_timings
            (WordTiming (Py.of_string "hi") 0%float 1%float)
            (WordTiming (Py.of_string "there") 99%float 100%float) 1 _ _ _ _ _ _).
  - reflexivity.
  - reflexivity.
  - simpl. lia.
  - reflexivity.
  - reflexivity.
  - left. lia.
Defined.

(** C8, as first stated, fails: five words over 0.999 seconds make a rate
    above 300, about 300.29; the estimator returns its integer part 300,
    where the word-count fallback gives 120. *)
Lemma rate_just_above_300_is_kept :
  PrimFloat.ltb 300%float
    (quotient_rate five_words
       (WordTiming (Py.of_string "I") 0%float 0.25%float)
       (WordTiming (Py.of_string "job") 0.5%float 0.9990234375%float)) = true
  /\ (forall L, _calculate_speaking_rate L five_words brisk_timings = Ok (Some 300))
  /\ (forall L, _calculate_fallback_speaking_rate L five_words = Some 120).
Proof. repeat split. Qed.

(** C4 (amended).  With fewer than two timestamps the estimator returns
    the word-count fallback: null for no word at all, 120 below 20 words,
    one fixed rate below 100 words and another from 100 words on; so every
    transcript of ten words or more gets a rate. *)
Theorem fallback_by_word_count (L : literals) transcript timestamps :
  (length timestamps < 2)%nat ->
  let n := length (spoken_words transcript) in
  let r := _calculate_fallback_speaking_rate L transcript in
  _calculate_speaking_rate L transcript timestamps = Ok r
  /\ (n = 0%nat -> r = None)
  /\ ((0 < n < 20)%nat -> r = Some 120)
  /\ ((20 <= n < 100)%nat -> r = Some (rate_medium L))
  /\ ((100 <= n)%nat -> r = Some (rate_long L))
  /\ ((10 <= n)%nat -> exists wpm, r = Some wpm).
Proof.
  intros Hts n r. subst n r.
  split; [apply rate_without_timestamps; exact Hts|].
  split; [apply fallback_zero|].
  split; [apply fallback_short|].
  split; [apply fallback_medium|].
  split; [apply fallback_long|].
  intros Hn.
  destruct (Nat.lt_ge_cases (length (spoken_words transcript)) 20) as [H20|H20].
  - exists 120. apply fallback_short. lia.
  - destruct (Nat.lt_ge_cases (length (spoken_words transcript)) 100) as [H100|H100].
    + exists (rate_medium L). apply fallback_medium. lia.
    + exists (rate_long L). apply fallback_long. lia.
Qed.

Lemma fallback_by_word_count_witness :
  _calculate_speaking_rate sample_literals five_words [] = Ok (Some 120).
Proof.
  destruct (fallback_by_word_count sample_literals five_words []) as (H & _ & H5 & _).
  - simpl. lia.
  - rewrite H, H5; [reflexivity|]. change (0 < 5 < 20)%nat. lia.
Defined.

(** C4, as first stated, fails: a transcript of five words gets the rate
    120 from the fallback, not null. *)
Lemma five_words_get_a_rate :
  length (spoken_words five_words) = 5%nat
  /\ (forall L, _calculate_fallback_speaking_rate L five_words = Some 120)
  /\ (forall L, _calculate_speaking_rate L five_words [] = Ok (Some 120)).
Proof. repeat split. Qed.

(** ** Effects of the orchestrator *)

Section Effects.
Variables (L : literals) (T : tools).

Lemma keeps_ret {A} (a : A) : keeps (ret a).
Proof. intros s. split; reflexivity. Qed.

Lemma keeps_raise {A} (e : exn) : keeps (@raise A e).
Proof. intros s. split; reflexivity. Qed.

Lemma keeps_lift {A} (r : result A) : keeps (lift r).
Proof. intros s. split; reflexivity. Qed.

Lemma keeps_bind {A B} (m : M A) (f : A -> M B) :
  keeps m -> (forall a, keeps (f a)) -> keeps (bind m f).
Proof.
  intros Hm Hf s. unfold bind. specialize (Hm s).
  destruct (m s) as [[a|e] s1]; simpl in *.
  - destruct (Hf a s1) as [H1 H2]. destruct Hm as [H3 H4].
    split; congruence.
  - exact Hm.
Qed.

Lemma keeps_try_except {A} (m : M A) (h : exn -> M A) :
  keeps m -> (forall e, keeps (h e)) -> keeps (try_except m h).
Proof.
  intros Hm Hh s. unfold try_except. specialize (Hm s).
  destruct (m s) as [[a|e] s1]; simpl in *.
  - exact Hm.
  - destruct (Hh e s1) as [H1 H2]. destruct Hm as [H3 H4].
    split; congruence.
Qed.

Lemma keeps_logger level msg : keeps (logger level msg).
Proof. intros s. split; reflexivity. Qed.

Lemma keeps_path_exists p : keeps (path_exists p).
Proof. intros s. split; reflexivity. Qed.

Lemma keeps_random : keeps (random_random T).
Proof. intros s. split; reflexivity. Qed.

Lemma keeps_fold {A B} (body : A -> B -> M B) (l : list A) :
  (forall a b, keeps (body a b)) -> forall b, keeps (fold_ body l b).
Proof.
  intros Hb. induction l as [|a l IH]; intros b; simpl.
  - apply keeps_ret.
  - apply keeps_bind; [apply Hb|exact IH].
Qed.

Lemma keeps_densify_segment segment modified :
  keeps (densify_segment L T segment modified).
Proof.
  unfold densify_segment.
  destruct (Nat.ltb _ _); [apply keeps_ret|].
  destruct (Nat.leb _ _); [|apply keeps_ret].
  apply keeps_bind; [apply keeps_random|]. intros x. apply keeps_ret.
Qed.

Lemma keeps_densify transcript audio_path : keeps (densify L T transcript audio_path).
Proof.
  unfold densify. apply keeps_bind; [apply keeps_lift|]. intros _.
  destruct (_ && _); [|apply keeps_ret].
  destruct (is_empty _); [apply keeps_ret|].
  apply keeps_fold. intros a b. apply keeps_densify_segment.
Qed.

Lemma keeps_ensure_filler_words transcript audio_path :
  keeps (_ensure_filler_words L T transcript audio_path).
Proof.
  unfold _ensure_filler_words. apply keeps_try_except; [apply keeps_densify|].
  intros e. apply keeps_bind; [apply keeps_logger|]. intros _. apply keeps_ret.
Qed.

Lemma keeps_recognise whisper source_audio_path :
  keeps (recognise L T whisper source_audio_path).
Proof.
  unfold recognise.
  apply keeps_bind; [apply keeps_logger|]. intros _.
  apply keeps_bind; [apply keeps_lift|]. intros r.
  apply keeps_bind; [apply keeps_lift|]. intros t1.
  apply keeps_bind; [apply keeps_ensure_filler_words|]. intros t2.
  apply keeps_bind.
  { unfold probe_duration. apply keeps_try_except; [apply keeps_lift|].
    intros e. apply keeps_ret. }
  intros d.
  apply keeps_bind.
  { destruct (is_empty _); [apply keeps_ret|apply keeps_lift]. }
  intros r0. apply keeps_ret.
Qed.

(** The densifier never raises. *)
Lemma ensure_filler_words_total transcript audio_path s :
  exists t, fst (_ensure_filler_words L T transcript audio_path s) = Ok t.
Proof.
  unfold _ensure_filler_words, try_except.
  destruct (densify L T transcript audio_path s) as [[t|e] s1].
  - exists t. reflexivity.
  - exists transcript. reflexivity.
Qed.

(** The removal loop of the [finally] block, over any list of paths. *)
Lemma removal_loop (l : list string) : forall s,
  exists s',
    for_ l (fun file_path =>
      let* there := path_exists file_path in
      if there then try_except (os_remove T file_path) (fun _ => ret tt) else ret tt) s
    = (Ok tt, s')
    /\ files s' ⊆ files s
    /\ temp_files s' = temp_files s
    /\ forall p, p ∈ l -> removable T p = true -> p ∉ files s'.
Proof.
  induction l as [|p l IH]; intros s; simpl.
  - exists s. split; [reflexivity|]. split; [intros x Hx; exact Hx|].
    split; [reflexivity|]. intros p Hp. inversion Hp.
  - unfold bind at 1. unfold bind at 1. unfold path_exists at 1.
    destruct (bool_decide (p ∈ files s)) eqn:Hin.
    + unfold try_except, os_remove. rewrite Hin. simpl.
      destruct (removable T p) eqn:Hrm; simpl.
      * destruct (IH (State (files s ∖ {[p]}) (draws s) (log s) (temp_files s)))
          as (s' & Hrun & Hsub & Htf & Hgone).
        exists s'. split; [exact Hrun|]. cbn [files temp_files] in *.
        split; [|split; [exact Htf|]].
        { intros x Hx. apply Hsub in Hx. apply elem_of_difference in Hx as [Hx _].
          exact Hx. }
        intros q Hq Hr. apply elem_of_cons in Hq as [->|Hq]; [|auto].
        intros Hx. apply Hsub in Hx. apply elem_of_difference in Hx as [_ Hx].
        apply Hx. apply elem_of_singleton. reflexivity.
      * destruct (IH s) as (s' & Hrun & Hsub & Htf & Hgone).
        exists s'. split; [exact Hrun|]. split; [exact Hsub|]. split; [exact Htf|].
        intros q Hq Hr. apply elem_of_cons in Hq as [->|Hq]; [congruence|auto].
    + simpl. destruct (IH s) as (s' & Hrun & Hsub & Htf & Hgone).
      exists s'. split; [exact Hrun|]. split; [exact Hsub|]. split; [exact Htf|].
      intros q Hq Hr. apply elem_of_cons in Hq as [->|Hq]; [|auto].
      apply bool_decide_eq_false in Hin. intros Hx. apply Hin, Hsub, Hx.
Qed.

(** The [finally] block never raises, only removes files, and removes
    every tracked file that can be removed. *)
Lemma cleanup_spec s :
  exists s',
    cleanup T s = (Ok tt, s')
    /\ files s' ⊆ files s
    /\ forall p, p ∈ temp_files s -> removable T p = true -> p ∉ files s'.
Proof.
  unfold cleanup, bind, get_temp_files.
  destruct (removal_loop (temp_files s) s) as (s' & Hrun & Hsub & _ & Hgone).
  exists s'. split; [exact Hrun|]. split; [exact Hsub|exact Hgone].
Qed.

(** What [transcribe] returns is what its [try]/[except] returns. *)
Lemma finally_keeps_result {A} (m : M A) s :
  fst (try_finally m (cleanup T) s) = fst (m s).
Proof.
  unfold try_finally. destruct (m s) as [r s1].
  destruct (cleanup_spec s1) as (s' & -> & _). reflexivity.
Qed.

Lemma returns_ret {A} (P : A -> Prop) (a : A) : P a -> returns P (ret a).
Proof. intros H s a' s' E. unfold ret in E. congruence. Qed.

Lemma returns_bind {A B} (P : B -> Prop) (m : M A) (f : A -> M B) :
  (forall a, returns P (f a)) -> returns P (bind m f).
Proof.
  intros Hf s b s' E. unfold bind in E.
  destruct (m s) as [[a|e] s1]; [|discriminate].
  exact (Hf a s1 b s' E).
Qed.

Lemma body_returns_success_or_failure video_path audio_path :
  returns (fun d => is_success d \/ is_failure d)
          (transcribe_body L T video_path audio_path).
Proof.
  unfold transcribe_body. apply returns_bind. intros there.
  destruct (negb there).
  - apply returns_ret. right. split; [reflexivity|]. eexists. reflexivity.
  - destruct (model T) as [whisper|].
    + apply returns_bind. intros src. unfold recognise.
      do 6 (apply returns_bind; intros ?).
      apply returns_ret. left. repeat split.
    + apply returns_ret. right. split; [reflexivity|]. eexists. reflexivity.
Qed.

(** After the choice of the audio, either nothing changed, or the
    temporary extract is tracked and is the only new file. *)
Lemma acquire_audio_tracks video_path audio_path s :
  temp_files s = [] ->
  exit (ffmpeg T video_path (mktemp T)) = Exit_ok
  \/ wrote_output (ffmpeg T video_path (mktemp T)) = false ->
  let s1 := snd (acquire_audio T video_path audio_path s) in
  (files s1 = files s /\ temp_files s1 = [])
  \/ (files s1 ⊆ files s ∪ {[mktemp T]} /\ temp_files s1 = [mktemp T]).
Proof.
  intros Htf Hff. unfold acquire_audio.
  assert (Hext : let s1 := snd ((let* p := _extract_audio T video_path in
                                 let* _ := temp_files_append p in ret p) s) in
                 (files s1 = files s /\ temp_files s1 = [])
                 \/ (files s1 ⊆ files s ∪ {[mktemp T]} /\ temp_files s1 = [mktemp T])).
  { unfold _extract_audio, bind, run_ffmpeg, temp_files_append, ret, raise.
    destruct (ffmpeg T video_path (mktemp T)) as [ex wrote]. cbn [exit wrote_output] in *.
    destruct ex; cbn [snd files temp_files].
    - right. clear Hff.
      destruct wrote; cbn [snd files temp_files]; rewrite Htf; split;
        [apply union_subseteq; split;
           [apply union_subseteq_l|apply union_subseteq_r]
        |reflexivity|apply union_subseteq_l|reflexivity].
    - destruct Hff as [Hff|Hff]; [discriminate|]. subst wrote. left. auto.
    - destruct Hff as [Hff|Hff]; [discriminate|]. subst wrote. left. auto. }
  cbv zeta in *.
  set (ext := let* p := _extract_audio T video_path in
              let* _ := temp_files_append p in ret p) in *.
  destruct audio_path as [p|].
  - destruct (String.eqb p "").
    + exact Hext.
    + unfold bind, path_exists. destruct (bool_decide (p ∈ files s)).
      * left. split; [reflexivity|exact Htf].
      * exact Hext.
  - exact Hext.
Qed.

End Effects.

(** C7.  Whatever the inputs and the world, [transcribe] returns a
    dictionary, and it is of exactly one of two shapes: [success] true and
    no [error] entry, or [success] false and an [error] message. *)
Theorem result_is_success_or_failure (L : literals) (T : tools)
    (video_path : string) (audio_path : option string) (s : state) :
  exists d,
    fst (transcribe L T video_path audio_path s) = Ok d
    /\ (is_success d \/ is_failure d)
    /\ (is_success d -> is_failure d -> False)
    /\ (has_key "error" d = true <-> get "success" d = VBool false).
Proof.
  unfold transcribe. rewrite finally_keeps_result.
  set (s0 := State (files s) (draws s) (log s) []).
  assert (Hshape : exists d,
    fst (try_except (transcribe_body L T video_path audio_path)
           (fun e =>
              let* _ := logger "ERROR" ("Transcription error: " +:+ exn_message e) in
              ret [("success", VBool false); ("error", VStr (exn_message e))]) s0) = Ok d
    /\ (is_success d \/ is_failure d)).
  { unfold try_except.
    destruct (transcribe_body L T video_path audio_path s0) as [[d|e] s1] eqn:Hbody.
    - exists d. split; [reflexivity|].
      exact (body_returns_success_or_failure L T video_path audio_path s0 d s1 Hbody).
    - eexists. split; [reflexivity|]. right. split; [reflexivity|].
      eexists. reflexivity. }
  destruct Hshape as (d & Hd & Hs). exists d. split; [exact Hd|]. split; [exact Hs|].
  split.
  - intros [H1 _] [H2 _]. congruence.
  - destruct Hs as [(H1 & H2 & H3)|(H1 & msg & H2)].
    + rewrite H1, H2. split; intros; discriminate.
    + rewrite H1. split; [reflexivity|]. intros _.
      unfold get in H2. unfold has_key.
      destruct (List.find _ d) as [p|] eqn:Hf; [|discriminate].
      apply existsb_exists. exists p.
      destruct (find_some _ _ Hf) as [Hin Hk]. split; assumption.
Qed.

(** C6 (amended).  The [finally] block removes every tracked temporary
    file that can be removed: when [os.remove] succeeds on the temporary
    extract, and [ffmpeg] either succeeded or wrote no output, no file
    created during the call remains on disk, on any exit path. *)
Theorem no_temporary_file_remains (L : literals) (T : tools)
    (video_path : string) (audio_path : option string) (s : state) :
  removable T (mktemp T) = true ->
  exit (ffmpeg T video_path (mktemp T)) = Exit_ok
  \/ wrote_output (ffmpeg T video_path (mktemp T)) = false ->
  files (snd (transcribe L T video_path audio_path s)) ⊆ files s.
Proof.
  intros Hrm Hff. unfold transcribe, try_finally.
  set (s0 := State (files s) (draws s) (log s) []).
  set (handler := fun e : exn =>
         let* _ := logger "ERROR" ("Transcription error: " +:+ exn_message e) in
         ret [("success", VBool false); ("error", VStr (exn_message e))]).
  assert (Hinv : let s1 := snd (try_except (transcribe_body L T video_path audio_path)
                                  handler s0) in
                 (files s1 = files s0 /\ temp_files s1 = [])
                 \/ (files s1 ⊆ files s0 ∪ {[mktemp T]} /\ temp_files s1 = [mktemp T])).
  { assert (Hh : forall e, keeps (handler e)).
    { intros e. apply keeps_bind; [apply keeps_logger|]. intros _. apply keeps_ret. }
    unfold try_except.
    assert (Hb : let s1 := snd (transcribe_body L T video_path audio_path s0) in
                 (files s1 = files s0 /\ temp_files s1 = [])
                 \/ (files s1 ⊆ files s0 ∪ {[mktemp T]} /\ temp_files s1 = [mktemp T])).
    { cbv zeta. unfold transcribe_body, bind, path_exists.
      destruct (negb _); [left; split; reflexivity|].
      destruct (model T) as [whisper|]; [|left; split; reflexivity].
      pose proof (acquire_audio_tracks T video_path audio_path s0 eq_refl Hff) as Ha.
      cbv zeta in Ha.
      destruct (acquire_audio T video_path audio_path s0) as [[src|e] s1];
        cbn [snd] in Ha.
      - destruct (keeps_recognise L T whisper src s1) as [Hf Ht].
        rewrite Hf, Ht. exact Ha.
      - exact Ha. }
    cbv zeta in *.
    destruct (transcribe_body L T video_path audio_path s0) as [[d|e] s1];
      cbn [snd] in *.
    - exact Hb.
    - destruct (Hh e s1) as [Hf Ht]. destruct Hb as [[H1 H2]|[H1 H2]]; [left|right].
      + split; [exact (eq_trans Hf H1)|exact (eq_trans Ht H2)].
      + split; [|exact (eq_trans Ht H2)].
        exact (eq_ind_r (fun X : gset string => X ⊆ files s0 ∪ {[mktemp T]}) H1 Hf). }
  cbv zeta in Hinv.
  destruct (try_except (transcribe_body L T video_path audio_path) handler s0) as [r s1].
  cbn [snd] in Hinv.
  destruct (cleanup_spec T s1) as (s' & Hrun & Hsub & Hgone). rewrite Hrun. simpl.
  destruct Hinv as [[Hf Ht]|[Hf Ht]].
  - rewrite Hf in Hsub. exact Hsub.
  - assert (Hno : mktemp T ∉ files s').
    { apply Hgone; [rewrite Ht; apply list_elem_of_singleton; reflexivity|exact Hrm]. }
    simpl in Hf. intros p Hp. specialize (Hsub p Hp). specialize (Hf p Hsub).
    apply elem_of_union in Hf as [Hf|Hf]; [exact Hf|].
    apply elem_of_singleton in Hf. subst p. contradiction.
Qed.

Lemma no_temporary_file_remains_witness :
  files (snd (transcribe sample_literals friendly_tools "/data/answer.webm" None video_on_disk))
  ⊆ files video_on_disk.
Proof.
  apply (no_temporary_file_remains sample_literals friendly_tools "/data/answer.webm" None
           video_on_disk).
  - reflexivity.
  - left. reflexivity.
Defined.

(** C6, as first stated, fails: when [os.remove] raises, the error is
    swallowed and the temporary extract stays on disk after a successful
    call. *)
Lemma temporary_file_left_behind :
  ("/tmp/tmp0.wav" ∉ files video_on_disk)
  /\ is_success_b
       (fst (transcribe sample_literals stubborn_tools "/data/answer.webm" None video_on_disk))
     = true
  /\ bool_decide
       ("/tmp/tmp0.wav"
        ∈ files (snd (transcribe sample_literals stubborn_tools "/data/answer.webm" None
                        video_on_disk))) = true.
Proof.
  split; [|split].
  - unfold video_on_disk. cbn [files]. intros H. apply elem_of_singleton in H.
    discriminate H.
  - vm_compute. reflexivity.
  - vm_compute. reflexivity.
Qed.

(** C9.  When the body of the densifier raises, [_ensure_filler_words]
    returns the transcript it was given, and raises nothing. *)
Theorem densifier_failure_is_contained (L : literals) (T : tools)
    (transcript : Py.text) (audio_path : string) (s : state) (e : exn) :
  fst (densify L T transcript audio_path s) = Raise e ->
  fst (_ensure_filler_words L T transcript audio_path s) = Ok transcript.
Proof.
  intros H. unfold _ensure_filler_words, try_except.
  destruct (densify L T transcript audio_path s) as [[t|e'] s1]; simpl in H.
  - discriminate.
  - reflexivity.
Qed.

Lemma densifier_failure_is_contained_witness :
  fst (densify sample_literals deaf_tools five_words "/tmp/tmp0.wav" video_on_disk)
  = Raise (Exn "FileNotFoundError" "No such file")
  /\ fst (_ensure_filler_words sample_literals deaf_tools five_words "/tmp/tmp0.wav"
            video_on_disk) = Ok five_words.
Proof.
  split; [reflexivity|].
  apply (densifier_failure_is_contained sample_literals deaf_tools five_words
           "/tmp/tmp0.wav" video_on_disk (Exn "FileNotFoundError" "No such file")).
  reflexivity.
Defined.

(** ** Characters *)

Section Characters.
Import Py.

Ltac all_chars c :=
  destruct c as [b0 b1 b2 b3 b4 b5 b6 b7];
  destruct b0, b1, b2, b3, b4, b5, b6, b7; vm_compute; try reflexivity; try discriminate.

Lemma space_is_not_word c : isspace c = true -> isword c = false.
Proof. all_chars c; intros H; discriminate H. Qed.

Lemma lower_keeps_word c : isword (lower_char c) = isword c.
Proof. all_chars c. Qed.

Lemma lower_keeps_space c : isspace (lower_char c) = isspace c.
Proof. all_chars c. Qed.

Lemma eqc_true a b : eqc a b = true <-> a = b.
Proof. unfold eqc. apply Ascii.eqb_eq. Qed.

Lemma eqc_refl a : eqc a a = true.
Proof. apply eqc_true. reflexivity. Qed.

Lemma eqt_true a : forall b, eqt a b = true <-> a = b.
Proof.
  induction a as [|x a IH]; intros [|y b]; simpl; split; intros H;
    try reflexivity; try discriminate.
  - apply andb_true_iff in H as [H1 H2]. apply eqc_true in H1. apply IH in H2.
    congruence.
  - injection H as -> ->. rewrite eqc_refl. simpl. apply IH. reflexivity.
Qed.

Lemma same_char_true a b : Re.same_char true a b = true <-> lower_char a = lower_char b.
Proof. unfold Re.same_char. apply eqc_true. Qed.

Lemma same_char_word a b : Re.same_char true a b = true -> isword b = isword a.
Proof.
  intros H. apply same_char_true in H.
  rewrite <- (lower_keeps_word a), <- (lower_keeps_word b), H. reflexivity.
Qed.


(** A word character never matches a space, even ignoring case. *)
Lemma word_is_not_space ic a b :
  isword a = true -> isspace b = true -> Re.same_char ic a b = false.
Proof.
  intros Ha Hb. destruct (Re.same_char ic a b) eqn:E; [|reflexivity].
  pose proof (space_is_not_word b Hb) as Hw.
  destruct ic.
  - apply same_char_word in E. congruence.
  - unfold Re.same_char in E. apply eqc_true in E. subst. congruence.
Qed.

End Characters.

(** ** The matcher on the patterns of the cleaner *)

Section Matching.
Import Py Re.

Lemma last_of_nil pv : last_of pv [] = pv.
Proof. reflexivity. Qed.

Lemma last_of_cons pv a x : last_of pv (a :: x) = last_of (Some a) x.
Proof.
  unfold last_of. rewrite last_cons. destruct (last x); reflexivity.
Qed.

Lemma last_of_app pv x y : last_of pv (x ++ y) = last_of (last_of pv x) y.
Proof.
  revert pv. induction x as [|a x IH]; intros pv; simpl.
  - reflexivity.
  - rewrite !last_of_cons. apply IH.
Qed.

Lemma rep_loop_step body greedy lo k fuel count s0 :
  rep_loop body greedy lo k (S fuel) count s0
  = let more :=
      body s0 (fun s1 =>
        if Nat.ltb (length (rest s1)) (length (rest s0))
        then rep_loop body greedy lo k fuel (S count) s1 else None) in
    let stop := if Nat.leb lo count then k s0 else None in
    if greedy then orelse more stop else orelse stop more.
Proof. reflexivity. Qed.

Lemma rmatch_cls ic q pv a r c k :
  rmatch ic (Cls q) (MState pv (a :: r) c) k
  = if q a then k (MState (Some a) r c) else None.
Proof. reflexivity. Qed.

Lemma rmatch_cls_end ic q pv c k : rmatch ic (Cls q) (MState pv [] c) k = None.
Proof. reflexivity. Qed.

(** A greedy run over a class takes the whole run [x], when what follows
    the repetition cannot start with a character of the class. *)
Lemma rep_cls_run ic q lo k c : forall x pv r fuel count,
  all_in q x -> not_at q r ->
  (forall pv' ch r', q ch = true -> k (MState pv' (ch :: r') c) = None) ->
  (length (x ++ r) < fuel)%nat ->
  rep_loop (rmatch ic (Cls q)) true lo k fuel count (MState pv (x ++ r) c)
  = if Nat.leb lo (count + length x) then k (after pv x r c) else None.
Proof.
  induction x as [|a x IH]; intros pv r fuel count Hx Hr Hk Hfuel.
  - destruct fuel as [|fuel]; [simpl in Hfuel; lia|].
    rewrite rep_loop_step. cbv zeta. rewrite Nat.add_0_r. unfold after.
    rewrite last_of_nil. cbn [app].
    destruct r as [|ch r].
    + rewrite rmatch_cls_end. reflexivity.
    + simpl in Hr. rewrite rmatch_cls, Hr. reflexivity.
  - destruct fuel as [|fuel]; [simpl in Hfuel; lia|].
    apply Forall_cons in Hx as [Ha Hx].
    rewrite rep_loop_step. cbv zeta. cbn [app]. rewrite rmatch_cls, Ha.
    cbn [rest length].
    destruct (Nat.ltb_spec (length (x ++ r)) (S (length (x ++ r)))) as [_|Hbad]; [|lia].
    rewrite (IH (Some a) r fuel (S count) Hx Hr Hk) by (simpl in Hfuel; lia).
    unfold after. rewrite last_of_cons.
    cbn [length]. replace (count + S (length x))%nat with (S count + length x)%nat by lia.
    rewrite (Hk pv a (x ++ r) Ha).
    destruct (Nat.leb lo (S count + length x)).
    + destruct (k (MState (last_of (Some a) x) r c)) eqn:Ek; simpl;
        [reflexivity|destruct (Nat.leb lo count); reflexivity].
    + simpl. destruct (Nat.leb lo count); reflexivity.
Qed.



Lemma literal_at_end ic a p pv c k :
  rmatch ic (literal (a :: p)) (MState pv [] c) k = None.
Proof. reflexivity. Qed.


Lemma same_prefix_app ic p x r :
  length x = length p -> same_prefix ic p (x ++ r) = same_prefix ic p x.
Proof.
  revert x. induction p as [|a p IH]; intros [|b x] H; try discriminate; simpl.
  - reflexivity.
  - rewrite IH by (simpl in H; lia). reflexivity.
Qed.

(** Two texts equal up to the case match each other. *)
Lemma same_prefix_lower p : forall x,
  lower x = lower p -> same_prefix true p x = true /\ length x = length p.
Proof.
  induction p as [|a p IH]; intros [|b x] H; try discriminate; simpl.
  - split; reflexivity.
  - simpl in H. injection H as Hab Hx. destruct (IH x Hx) as [H1 H2].
    split; [|congruence].
    apply andb_true_iff. split; [|exact H1].
    apply same_char_true. congruence.
Qed.

Lemma rmatch_cat ic r1 r2 s k :
  rmatch ic (Cat r1 r2) s k = rmatch ic r1 s (fun s1 => rmatch ic r2 s1 k).
Proof. reflexivity. Qed.

Lemma rmatch_rep ic greedy lo r1 s k :
  rmatch ic (Rep greedy lo r1) s k
  = rep_loop (rmatch ic r1) greedy lo k (S (length (rest s))) 0 s.
Proof. reflexivity. Qed.

Lemma rmatch_grp ic n r1 s k :
  rmatch ic (Grp n r1) s k
  = rmatch ic r1 s (fun s1 =>
      k (MState (prev s1) (rest s1)
           ((n, take (length (rest s) - length (rest s1)) (rest s)) :: caps s1))).
Proof. reflexivity. Qed.

Lemma rmatch_bnd ic s k : rmatch ic Bnd s k = if at_boundary s then k s else None.
Proof. reflexivity. Qed.

Lemma rmatch_ref ic n s k :
  rmatch ic (Ref n) s k
  = match cap n s with
    | Some g => if same_prefix ic g (rest s) then k (advance (length g) s) else None
    | None => None
    end.
Proof. reflexivity. Qed.

Lemma rep_cls_none ic q lo k c pv r fuel :
  not_at q r -> (1 <= lo)%nat ->
  rep_loop (rmatch ic (Cls q)) true lo k fuel 0 (MState pv r c) = None.
Proof.
  intros Hr Hlo. destruct fuel as [|fuel]; [reflexivity|].
  rewrite rep_loop_step. cbv zeta.
  destruct (Nat.leb_spec lo 0); [lia|].
  destruct r as [|ch r].
  - rewrite rmatch_cls_end. reflexivity.
  - simpl in Hr. rewrite rmatch_cls, Hr. reflexivity.
Qed.

Lemma cap_group1 pv r c : cap 1 (MState pv r c) = group1 c.
Proof. reflexivity. Qed.

Lemma group1_push g c : group1 ((2%nat, g) :: c) = group1 c.
Proof. reflexivity. Qed.

Lemma group1_recorded reps : forall c, group1 (recorded reps c) = group1 c.
Proof.
  induction reps as [|rep reps IH]; intros c; simpl; [reflexivity|].
  rewrite IH. apply group1_push.
Qed.

Lemma word_not_space w r : is_word w -> not_at isspace (w ++ r).
Proof.
  intros [Hne Hw]. destruct w as [|a w]; [congruence|]. simpl.
  apply Forall_cons in Hw as [Ha _].
  destruct (isspace a) eqn:E; [|reflexivity].
  apply space_is_not_word in E. congruence.
Qed.

(** What matches a word up to the case ends with a word character. *)
Lemma same_prefix_ends_word w : forall r pv,
  is_word w -> same_prefix true w r = true ->
  word_at (last_of pv (take (length w) r)) = true /\ (length w <= length r)%nat.
Proof.
  induction w as [|a w IH]; intros r pv [Hne Hw] Hsame; [congruence|].
  destruct r as [|b r]; [discriminate|].
  cbn [same_prefix] in Hsame. apply andb_true_iff in Hsame as [Hab Hsame].
  apply Forall_cons in Hw as [Ha Hw].
  cbn [length]. rewrite firstn_cons, last_of_cons.
  destruct w as [|a' w].
  - split; [|simpl; lia].
    cbn [length]. rewrite take_0. cbn [last_of last word_at].
    rewrite (same_char_word a b Hab). exact Ha.
  - destruct (IH r (Some b)) as [H1 H2]; [split; [discriminate|exact Hw]|exact Hsame|].
    split; [exact H1|simpl in *; lia].
Qed.


Lemma word_again_spec w ws r2 pv c k :
  is_word w -> all_in isspace ws -> not_at isspace r2 -> group1 c = Some w ->
  rmatch true word_again (MState pv (ws ++ r2) c) k
  = if negb (is_empty ws) && same_prefix true w r2
       && negb (word_at (head (drop (length w) r2)))
    then k (MState (last_of (last_of pv ws) (take (length w) r2))
                   (drop (length w) r2)
                   ((2%nat, ws ++ take (length w) r2) :: c))
    else None.
Proof.
  intros Hw Hws Hr2 Hg.
  unfold word_again. cbn [rmatch plus rest].
  rewrite (rep_cls_run true isspace 1 _ c ws pv r2); [|exact Hws|exact Hr2| |lia].
  2:{ intros pv' ch r' Hch. cbn [rmatch]. rewrite cap_group1, Hg.
      destruct Hw as [Hne Hw]. destruct w as [|a w]; [congruence|].
      apply Forall_cons in Hw as [Ha _]. cbn [rest same_prefix].
      rewrite (word_is_not_space true a ch Ha Hch). reflexivity. }
  destruct ws as [|s0 ws].
  - reflexivity.
  - cbn [is_empty negb andb length Nat.add Nat.leb].
    unfold after. cbn [rmatch]. rewrite cap_group1, Hg. cbn [rest].
    destruct (same_prefix true w r2) eqn:Hsame; [|reflexivity].
    destruct (same_prefix_ends_word w r2 (last_of pv (s0 :: ws)) Hw Hsame) as [Hend Hlen].
    cbn [andb]. unfold advance, at_boundary. cbn [prev rest caps].
    rewrite Hend. cbn [xorb].
    destruct (word_at (head (drop (length w) r2))); cbn [negb]; [reflexivity|].
    f_equal. f_equal. f_equal. f_equal.
    rewrite length_app, length_drop.
    replace (length (s0 :: ws) + length r2 - (length r2 - length w))%nat
      with (length (s0 :: ws) + length w)%nat by lia.
    rewrite take_app_add'; reflexivity.
Qed.


(** Any text splits into its leading white space and the rest. *)
Lemma leading_space (r : text) :
  exists ws r2, r = ws ++ r2 /\ all_in isspace ws /\ not_at isspace r2.
Proof.
  induction r as [|ch r IH].
  - exists [], []. repeat split. constructor.
  - destruct (isspace ch) eqn:E.
    + destruct IH as (ws & r2 & -> & Hws & Hr2).
      exists (ch :: ws), r2. repeat split; [constructor; assumption|exact Hr2].
    + exists [], (ch :: r). repeat split; [constructor|exact E].
Qed.

(** After the last occurrence, in front of a text without word
    characters, no further iteration matches. *)
Lemma word_again_stops w post pv c k :
  is_word w -> none_in isword post -> group1 c = Some w ->
  rmatch true word_again (MState pv post c) k = None.
Proof.
  intros Hw Hpost Hg.
  destruct (leading_space post) as (ws & r2 & -> & Hws & Hr2).
  rewrite (word_again_spec w ws r2 pv c k Hw Hws Hr2 Hg).
  replace (same_prefix true w r2) with false; [rewrite andb_false_r; reflexivity|].
  destruct Hw as [Hne Hw]. destruct w as [|a w]; [congruence|].
  apply Forall_cons in Hw as [Ha _].
  destruct r2 as [|b r2]; [reflexivity|].
  apply Forall_app in Hpost as [_ Hpost]. apply Forall_cons in Hpost as [Hb _].
  cbn [same_prefix]. destruct (same_char true a b) eqn:E; [|reflexivity].
  apply same_char_word in E. congruence.
Qed.

Lemma occurrences_cons rep reps :
  occurrences (rep :: reps) = fst rep ++ snd rep ++ occurrences reps.
Proof. unfold occurrences. simpl. rewrite <- app_assoc. reflexivity. Qed.

Lemma repeats_word w rep : is_word w -> repeats w rep -> is_word (snd rep).
Proof.
  intros [Hne Hw] (_ & _ & Hl). split.
  - intros E. rewrite E in Hl. destruct w; [congruence|discriminate].
  - revert Hl Hw. clear Hne. generalize (snd rep). intros x. revert x.
    induction w as [|a w IH]; intros [|b x] Hl Hw; try discriminate; constructor.
    + simpl in Hl. injection Hl as Hab _. apply Forall_cons in Hw as [Ha _].
      rewrite <- lower_keeps_word, Hab, lower_keeps_word. exact Ha.
    + simpl in Hl. injection Hl as _ Hl. apply Forall_cons in Hw as [_ Hw].
      exact (IH x Hl Hw).
Qed.

(** What follows a word of a run does not start with a word character. *)
Lemma occurrences_not_word w reps post :
  Forall (repeats w) reps -> none_in isword post -> not_at isword (occurrences reps ++ post).
Proof.
  intros Hreps Hpost. destruct reps as [|rep reps].
  - destruct post as [|ch post]; [exact I|].
    apply Forall_cons in Hpost as [Hch _]. exact Hch.
  - apply Forall_cons in Hreps as [(Hne & Hws & _) _].
    rewrite occurrences_cons. destruct (fst rep) as [|sp ws]; [congruence|].
    apply Forall_cons in Hws as [Hsp _]. simpl. apply space_is_not_word. exact Hsp.
Qed.

(** The greedy loop takes every occurrence of the run. *)
Lemma word_loop w post k : is_word w -> none_in isword post ->
  (forall s, k s = Some s) ->
  forall reps pv c fuel count,
  Forall (repeats w) reps -> group1 c = Some w ->
  (length (occurrences reps ++ post) < fuel)%nat ->
  rep_loop (rmatch true word_again) true 1 k fuel count
           (MState pv (occurrences reps ++ post) c)
  = if Nat.leb 1 (count + length reps)
    then Some (MState (last_of pv (occurrences reps)) post (recorded reps c))
    else None.
Proof.
  intros Hw Hpost Hk.
  induction reps as [|rep reps IH]; intros pv c fuel count Hreps Hg Hfuel.
  - destruct fuel as [|fuel]; [simpl in Hfuel; lia|].
    rewrite rep_loop_step. cbv zeta. cbn [occurrences flat_map app].
    rewrite (word_again_stops w post pv c _ Hw Hpost Hg).
    cbn [orelse length recorded fold_left last_of]. rewrite Nat.add_0_r, Hk.
    reflexivity.
  - destruct fuel as [|fuel]; [simpl in Hfuel; lia|].
    apply Forall_cons in Hreps as [Hrep Hreps].
    pose proof (repeats_word w rep Hw Hrep) as Hw'.
    destruct Hrep as (Hne & Hws & Hl).
    destruct rep as [ws0 w']. cbn [fst snd] in *.
    destruct (same_prefix_lower w w' Hl) as [Hsame Hlen].
    rewrite rep_loop_step. cbv zeta.
    rewrite occurrences_cons in *. cbn [fst snd] in *. rewrite <- !app_assoc in *.
    rewrite (word_again_spec w ws0 (w' ++ occurrences reps ++ post) pv c _ Hw Hws
               (word_not_space w' _ Hw') Hg).
    rewrite same_prefix_app by exact Hlen. rewrite Hsame.
    rewrite <- Hlen, drop_app_length, take_app_length.
    pose proof (occurrences_not_word w reps post Hreps Hpost) as Hnw.
    replace (word_at (head (occurrences reps ++ post))) with false
      by (destruct (occurrences reps ++ post); [reflexivity|symmetry; exact Hnw]).
    destruct ws0 as [|sp ws]; [congruence|].
    cbn [is_empty negb andb rest].
    destruct (Nat.ltb_spec (length (occurrences reps ++ post))
                (length ((sp :: ws) ++ w' ++ occurrences reps ++ post))) as [_|Hbad].
    2:{ rewrite !length_app in Hbad. simpl in Hbad. lia. }
    rewrite (IH _ _ fuel (S count) Hreps) by
      (try (rewrite group1_push; exact Hg); rewrite !length_app in *; simpl in *; lia).
    repeat match goal with
           | |- context [Nat.leb 1 ?n] =>
               replace (Nat.leb 1 n) with true by (symmetry; apply Nat.leb_le; simpl; lia)
           end.
    cbn [orelse recorded fold_left fst snd]. rewrite !last_of_app. reflexivity.
Qed.

(** [repeated_word] does not match where no word starts. *)
Lemma no_match_without_word r pv c0 must :
  not_at isword r -> match_here true repeated_word must (MState pv r c0) = None.
Proof.
  intros Hr. unfold match_here, repeated_word. cbn [prev rest].
  rewrite rmatch_cat, rmatch_bnd.
  destruct (at_boundary _); [|reflexivity].
  rewrite rmatch_cat, rmatch_grp. unfold plus at 1. rewrite rmatch_rep.
  apply rep_cls_none; [exact Hr|lia].
Qed.

(** [repeated_word] does not match inside a word. *)
Lemma no_match_inside_word a r pv c0 must :
  word_at pv = true -> isword a = true ->
  match_here true repeated_word must (MState pv (a :: r) c0) = None.
Proof.
  intros Hpv Ha. unfold match_here, repeated_word. cbn [prev rest].
  rewrite rmatch_cat, rmatch_bnd.
  unfold at_boundary. cbn [prev rest head word_at]. rewrite Hpv, Ha. reflexivity.
Qed.

(** At the start of a run, [repeated_word] matches the whole run and
    records its first word. *)
Lemma match_run w reps post pv c0 :
  word_at pv = false -> is_word w -> Forall (repeats w) reps -> none_in isword post ->
  match_here true repeated_word false (MState pv (w ++ occurrences reps ++ post) c0)
  = if Nat.leb 1 (length reps)
    then Some (MState (last_of pv (w ++ occurrences reps)) post
                      (recorded reps [(1%nat, w)]))
    else None.
Proof.
  intros Hpv Hw Hreps Hpost.
  pose proof (occurrences_not_word w reps post Hreps Hpost) as Hnw.
  unfold match_here, repeated_word. cbn [prev rest andb].
  rewrite rmatch_cat, rmatch_bnd.
  assert (Hb : at_boundary (MState pv (w ++ occurrences reps ++ post) []) = true).
  { unfold at_boundary. cbn [prev rest]. rewrite Hpv.
    destruct Hw as [Hne Hall]. destruct w as [|a w]; [congruence|].
    apply Forall_cons in Hall as [Ha _]. simpl. exact Ha. }
  rewrite Hb.
  change (Grp 2 (Cat (plus (Cls isspace)) (Cat (Ref 1) Bnd))) with word_again.
  rewrite rmatch_cat, rmatch_grp. unfold plus at 1. rewrite rmatch_rep. cbn [rest].
  rewrite (rep_cls_run true isword 1 _ [] w pv (occurrences reps ++ post));
    [|exact (proj2 Hw)|exact Hnw| |lia].
  2:{ intros pv' ch r' Hch. cbn [prev rest caps]. unfold plus. rewrite rmatch_rep.
      rewrite rep_loop_step. cbv zeta.
      unfold word_again at 1. rewrite rmatch_grp, rmatch_cat. unfold plus.
      rewrite rmatch_rep.
      rewrite rep_cls_none; [reflexivity| |lia].
      simpl. destruct (isspace ch) eqn:E; [|reflexivity].
      apply space_is_not_word in E. congruence. }
  destruct Hw as [Hne Hall].
  destruct w as [|a w]; [congruence|].
  cbn [length Nat.add Nat.leb]. unfold after. cbn [prev rest caps].
  rewrite length_app.
  replace (length (a :: w) + length (occurrences reps ++ post)
           - length (occurrences reps ++ post))%nat with (length (a :: w)) by lia.
  rewrite take_app_length. unfold plus. rewrite rmatch_rep. cbn [rest].
  rewrite (word_loop (a :: w) post _ (conj Hne Hall) Hpost (fun s => eq_refl) reps _
             [(1%nat, a :: w)] _ 0 Hreps eq_refl) by lia.
  cbn [Nat.add]. rewrite last_of_app. reflexivity.
Qed.


Lemma search_from_caps ic r must fuel skipped pv rs c0 :
  search_from ic r must fuel skipped (MState pv rs c0)
  = search_from ic r must fuel skipped (MState pv rs []).
Proof. destruct fuel; reflexivity. Qed.

Lemma search_hit ic r must fuel skipped s s1 :
  match_here ic r must s = Some s1 ->
  search_from ic r must fuel skipped s
  = Some (rev skipped, take (length (rest s) - length (rest s1)) (rest s), s1).
Proof. intros H. destruct fuel; simpl; rewrite H; reflexivity. Qed.

(** The search walks over a text where the pattern matches nowhere. *)
Lemma search_skip ic r b : forall a pv fuel skipped,
  (forall a1 a2, a = a1 ++ a2 -> a2 <> [] ->
     match_here ic r false (MState (last_of pv a1) (a2 ++ b) []) = None) ->
  (length a <= fuel)%nat ->
  search_from ic r false fuel skipped (MState pv (a ++ b) [])
  = search_from ic r false (fuel - length a) (rev a ++ skipped)
      (MState (last_of pv a) b []).
Proof.
  induction a as [|x a IH]; intros pv fuel skipped Hfail Hfuel.
  - cbn [app length rev last_of last]. rewrite Nat.sub_0_r. reflexivity.
  - destruct fuel as [|fuel]; [simpl in Hfuel; lia|].
    pose proof (Hfail [] (x :: a) eq_refl ltac:(discriminate)) as H0.
    cbn [last_of last app] in H0.
    cbn [search_from app]. rewrite H0.
    cbn [rest]. rewrite IH; [|..|simpl in Hfuel; lia].
    + rewrite last_of_cons. cbn [length rev Nat.sub]. rewrite <- app_assoc. reflexivity.
    + intros a1 a2 -> Hne. rewrite <- (last_of_cons pv). apply (Hfail (x :: a1) a2 eq_refl Hne).
Qed.

(** The search fails on a text where the pattern matches nowhere. *)
Lemma search_none ic r : forall rs pv fuel skipped c0,
  (forall a1 a2, rs = a1 ++ a2 ->
     match_here ic r false (MState (last_of pv a1) a2 []) = None) ->
  search_from ic r false fuel skipped (MState pv rs c0) = None.
Proof.
  induction rs as [|x rs IH]; intros pv fuel skipped c0 Hfail.
  - destruct fuel; cbn [search_from];
      change (match_here ic r false (MState pv [] c0))
        with (match_here ic r false (MState (last_of pv []) [] []));
      rewrite (Hfail [] [] eq_refl); reflexivity.
  - destruct fuel as [|fuel]; cbn [search_from];
      change (match_here ic r false (MState pv (x :: rs) c0))
        with (match_here ic r false (MState (last_of pv []) (x :: rs) []));
      rewrite (Hfail [] (x :: rs) eq_refl); [reflexivity|].
    cbn [rest]. apply IH. intros a1 a2 ->. rewrite <- (last_of_cons pv).
    apply (Hfail (x :: a1) a2 eq_refl).
Qed.

Lemma matches_from_step ic r fuel must s :
  matches_from ic r (S fuel) must s
  = match search_from ic r must (length (rest s)) [] s with
    | None => ([], rest s)
    | Some (skipped, matched, s1) =>
        let '(more, tail) := matches_from ic r fuel (Nat.eqb (length matched) 0) s1 in
        ((skipped, matched, s1) :: more, tail)
    end.
Proof. reflexivity. Qed.

Lemma no_word_before pre : none_in isword pre -> word_at (last_of None pre) = false.
Proof.
  intros H. unfold last_of. destruct (last pre) as [ch|] eqn:E; [|reflexivity].
  apply last_Some_elem_of in E. simpl.
  exact (proj1 (Forall_forall _ _) H ch E).
Qed.

Lemma suffix_not_word x : forall a1 a2, none_in isword x -> x = a1 ++ a2 -> not_at isword a2.
Proof.
  intros a1 a2 H ->. apply Forall_app in H as [_ H].
  destruct a2 as [|ch a2]; [exact I|]. apply Forall_cons in H as [H _]. exact H.
Qed.

(** A run of a word between texts without word characters: the word
    [w], followed by one or more further occurrences, each after some
    white space and equal to [w] up to the case, is replaced by [w]
    itself. *)
Lemma marked_run_collapses pre w reps post :
  none_in isword pre -> is_word w -> reps <> [] -> Forall (repeats w) reps ->
  none_in isword post ->
  collapse_words (pre ++ w ++ occurrences reps ++ post) = Ok (pre ++ w ++ post).
Proof.
  intros Hpre Hw Hne Hreps Hpost.
  unfold collapse_words, sub.
  change (parse_template 2 (length (of_string "\1")) (of_string "\1")) with (Ok [PGroup 1]).
  f_equal. unfold sub_pieces, all_matches.
  replace (2 * length (pre ++ w ++ occurrences reps ++ post) + 2)%nat
    with (S (S (2 * length (pre ++ w ++ occurrences reps ++ post)))) by lia.
  rewrite matches_from_step. unfold start_of. cbn [rest].
  rewrite search_skip; [| |rewrite length_app; lia].
  2:{ intros a1 a2 -> Hne2. apply no_match_without_word.
      apply Forall_app in Hpre as [_ Hpre].
      destruct a2 as [|ch a2]; [congruence|].
      apply Forall_cons in Hpre as [Hch _]. exact Hch. }
  pose proof (match_run w reps post (last_of None pre) [] (no_word_before pre Hpre)
                Hw Hreps Hpost) as Hm.
  replace (Nat.leb 1 (length reps)) with true in Hm
    by (destruct reps; [congruence|reflexivity]).
  rewrite (search_hit _ _ _ _ _ _ _ Hm). cbn [rest].
  replace (take (length (w ++ occurrences reps ++ post) - length post)
             (w ++ occurrences reps ++ post)) with (w ++ occurrences reps).
  2:{ rewrite (app_assoc w), length_app, Nat.add_sub, take_app_length. reflexivity. }
  replace (Nat.eqb (length (w ++ occurrences reps)) 0) with false
    by (destruct Hw as [Hw0 _]; destruct w; [congruence|reflexivity]).
  rewrite matches_from_step. cbn [rest].
  rewrite (search_none true repeated_word post) by
    (intros a1 a2 E; apply no_match_without_word; exact (suffix_not_word post a1 a2 Hpost E)).
  cbn [rest flat_map app].
  rewrite rev_app_distr, rev_involutive. cbn [rev app].
  unfold expand. cbn [flat_map].
  change (cap 1 (MState (last_of (last_of None pre) (w ++ occurrences reps)) post
                   (recorded reps [(1%nat, w)])))
    with (group1 (recorded reps [(1%nat, w)])).
  rewrite group1_recorded. cbn [group1 cap caps List.find fst snd Nat.eqb fmap option_fmap
                                   option_map default].
  rewrite !app_nil_r, <- !app_assoc. reflexivity.
Qed.


End Matching.

(** ** Repetition cleaner *)

(** *** Phrases of words separated by single spaces *)

Section Phrases.
Import Py Re.

Lemma space_is_space : isspace " " = true.
Proof. reflexivity. Qed.

Lemma word_char_not_space c : isword c = true -> isspace c = false.
Proof.
  intros H. destruct (isspace c) eqn:E; [|reflexivity].
  apply space_is_not_word in E. congruence.
Qed.


(** *** [split] and [join] *)

Lemma split_from_word w : forall acc r,
  all_in isword w -> split_from acc (w ++ r) = split_from (rev w ++ acc) r.
Proof.
  induction w as [|a w IH]; intros acc r Hw; [reflexivity|].
  apply Forall_cons in Hw as [Ha Hw].
  cbn [app split_from]. rewrite (word_char_not_space a Ha), IH by exact Hw.
  cbn [rev]. rewrite <- app_assoc. reflexivity.
Qed.

Lemma join_cons w w' ws : join space (w :: w' :: ws) = w ++ space ++ join space (w' :: ws).
Proof. reflexivity. Qed.

Lemma split_join ws : Forall is_word ws -> split (join space ws) = ws.
Proof.
  unfold split. induction ws as [|w ws IH]; intros Hws; [reflexivity|].
  apply Forall_cons in Hws as [[Hne Hw] Hws].
  destruct ws as [|w' ws].
  - cbn [join]. rewrite <- (app_nil_r w) at 1. rewrite split_from_word by exact Hw.
    rewrite app_nil_r. cbn [split_from].
    destruct (rev w) eqn:E; [|rewrite <- E, rev_involutive; reflexivity].
    apply (f_equal (@rev ascii)) in E. rewrite rev_involutive in E. simpl in E. congruence.
  - rewrite join_cons, split_from_word by exact Hw.
    rewrite app_nil_r. change space with [" "%char]. cbn [app split_from].
    rewrite space_is_space.
    destruct (rev w) eqn:E.
    + apply (f_equal (@rev ascii)) in E. rewrite rev_involutive in E. simpl in E. congruence.
    + change [" "%char] with space. rewrite <- E, rev_involutive, (IH Hws). reflexivity.
Qed.

Lemma join_app ws1 ws2 : ws1 <> [] -> ws2 <> [] ->
  join space (ws1 ++ ws2) = join space ws1 ++ space ++ join space ws2.
Proof.
  intros H1 H2. induction ws1 as [|w ws1 IH]; [congruence|].
  destruct ws1 as [|w' ws1].
  - destruct ws2 as [|v ws2]; [congruence|]. reflexivity.
  - cbn [app]. rewrite !join_cons. cbn [app] in IH. rewrite IH by discriminate.
    rewrite <- !app_assoc. reflexivity.
Qed.

Lemma lower_app x y : lower (x ++ y) = lower x ++ lower y.
Proof. unfold lower. apply map_app. Qed.

Lemma lower_join ws : lower (join space ws) = join space (map lower ws).
Proof.
  induction ws as [|w ws IH]; [reflexivity|].
  destruct ws as [|w' ws]; [reflexivity|].
  rewrite join_cons, !lower_app, IH. reflexivity.
Qed.

Lemma lower_is_word w : is_word w -> is_word (lower w).
Proof.
  intros [Hne Hw]. split.
  - destruct w; [congruence|discriminate].
  - unfold all_in, lower. apply Forall_map. eapply Forall_impl; [exact Hw|].
    intros c Hc. simpl. rewrite lower_keeps_word. exact Hc.
Qed.

(** Two lists of words with the same joined text, up to the case, are the
    same up to the case. *)
Lemma join_lower_inj xs ys :
  Forall is_word xs -> Forall is_word ys ->
  eqt (lower (join space xs)) (lower (join space ys)) = true ->
  map lower xs = map lower ys.
Proof.
  intros Hx Hy E. apply eqt_true in E. rewrite !lower_join in E.
  rewrite <- (split_join (map lower xs)), <- (split_join (map lower ys)).
  - rewrite E. reflexivity.
  - apply Forall_map. eapply Forall_impl; [exact Hy|]. intros w. apply lower_is_word.
  - apply Forall_map. eapply Forall_impl; [exact Hx|]. intros w. apply lower_is_word.
Qed.


(** *** Windows *)

Lemma map_slice {A B} (f : A -> B) i j (l : list A) :
  map f (slice i j l) = slice i j (map f l).
Proof. unfold slice. rewrite <- firstn_map, <- skipn_map. reflexivity. Qed.

Lemma Forall_slice {A} (P : A -> Prop) i j (l : list A) :
  Forall P l -> Forall P (slice i j l).
Proof. intros H. unfold slice. apply Forall_take, Forall_drop, H. Qed.

Lemma for_each_kept {A B} (f : A -> B -> result B) (l : list A) (b : B) :
  (forall a, a ∈ l -> f a b = Ok b) -> for_each f l b = Ok b.
Proof.
  induction l as [|a l IH]; intros H; [reflexivity|].
  cbn [for_each]. rewrite (H a) by (apply elem_of_cons; left; reflexivity).
  apply IH. intros a' Ha'. apply H. apply elem_of_cons. right. exact Ha'.
Qed.

(** *** Replacement templates without backslash *)

Lemma template_plain groups : forall p fuel,
  plain p -> (length p <= fuel)%nat ->
  parse_template groups fuel p = Ok (map (fun c => PText [c]) p).
Proof.
  induction p as [|c p IH]; intros fuel Hp Hfuel.
  - destruct fuel; reflexivity.
  - destruct fuel as [|fuel]; [simpl in Hfuel; lia|].
    apply Forall_cons in Hp as [Hc Hp].
    cbn [parse_template]. rewrite Hc. cbn [negb].
    rewrite (IH fuel Hp) by (simpl in Hfuel; lia). reflexivity.
Qed.

Lemma expand_plain p matched s : expand (map (fun c => PText [c]) p) matched s = p.
Proof.
  unfold expand. induction p as [|c p IH]; [reflexivity|].
  cbn [map flat_map app]. rewrite IH. reflexivity.
Qed.


(** *** The single-word pass on words that all differ *)

Lemma same_case_word w w' : is_word w -> lower w' = lower w -> is_word w'.
Proof.
  intros Hw E. apply (repeats_word w ([" "%char], w') Hw).
  split; [discriminate|]. split; [repeat constructor|exact E].
Qed.

(** After a word [w], another word [w2] is taken for [w] again only when
    both are the same up to the case. *)
Lemma no_echo : forall w w2 r3,
  all_in isword w -> all_in isword w2 -> not_at isword r3 -> lower w2 <> lower w ->
  same_prefix true w (w2 ++ r3) && negb (word_at (head (drop (length w) (w2 ++ r3))))
  = false.
Proof.
  induction w as [|a w IH]; intros [|b w2] r3 Hw Hw2 Hr3 Hl.
  - congruence.
  - apply Forall_cons in Hw2 as [Hb _]. simpl. rewrite Hb. reflexivity.
  - apply Forall_cons in Hw as [Ha _].
    destruct r3 as [|ch r3]; [reflexivity|]. simpl in Hr3.
    cbn [app same_prefix].
    destruct (same_char true a ch) eqn:E; [|reflexivity].
    apply same_char_word in E. congruence.
  - apply Forall_cons in Hw as [Ha Hw]. apply Forall_cons in Hw2 as [Hb Hw2].
    cbn [app same_prefix length drop].
    destruct (same_char true a b) eqn:E; [|reflexivity].
    apply same_char_true in E. cbn [andb]. apply IH; try assumption.
    intros E2. apply Hl. simpl. rewrite E, E2. reflexivity.
Qed.

(** At a word followed by a space and a different word, [repeated_word]
    does not match. *)
Lemma no_match_before_other_word w w2 r3 pv c0 :
  word_at pv = false -> is_word w -> is_word w2 -> lower w2 <> lower w ->
  not_at isword r3 ->
  match_here true repeated_word false (MState pv (w ++ space ++ w2 ++ r3) c0) = None.
Proof.
  intros Hpv Hw Hw2 Hl Hr3.
  unfold match_here, repeated_word. cbn [prev rest andb].
  rewrite rmatch_cat, rmatch_bnd.
  destruct (at_boundary _); [|reflexivity].
  change (Grp 2 (Cat (plus (Cls isspace)) (Cat (Ref 1) Bnd))) with word_again.
  rewrite rmatch_cat, rmatch_grp. unfold plus at 1. rewrite rmatch_rep. cbn [rest].
  rewrite (rep_cls_run true isword 1 _ [] w pv (space ++ w2 ++ r3));
    [|exact (proj2 Hw)|reflexivity| |lia].
  2:{ intros pv' ch r' Hch. cbn [prev rest caps]. unfold plus. rewrite rmatch_rep.
      rewrite rep_loop_step. cbv zeta.
      unfold word_again at 1. rewrite rmatch_grp, rmatch_cat. unfold plus.
      rewrite rmatch_rep.
      rewrite rep_cls_none; [reflexivity| |lia].
      simpl. exact (word_char_not_space ch Hch). }
  destruct Hw as [Hne Hall].
  destruct w as [|a w]; [congruence|].
  cbn [length Nat.add Nat.leb]. unfold after. cbn [prev rest caps].
  unfold plus. rewrite rmatch_rep. cbn [rest].
  rewrite rep_loop_step. cbv zeta.
  rewrite (word_again_spec (a :: w) space (w2 ++ r3) _ _ _ (conj Hne Hall));
    [|repeat constructor|exact (word_not_space w2 r3 Hw2)|].
  2:{ rewrite length_app.
      replace (length (a :: w) + length (space ++ w2 ++ r3)
               - length (space ++ w2 ++ r3))%nat with (length (a :: w)) by lia.
      rewrite take_app_length. reflexivity. }
  change (negb (is_empty space)) with true. rewrite andb_true_l.
  rewrite (no_echo (a :: w) w2 r3 Hall (proj2 Hw2) Hr3 Hl). reflexivity.
Qed.

(** Inside a word, [repeated_word] does not match. *)
Lemma no_match_within w a1 a2 r pv c0 :
  all_in isword w -> w = a1 ++ a2 -> a1 <> [] -> a2 <> [] ->
  match_here true repeated_word false (MState (last_of pv a1) (a2 ++ r) c0) = None.
Proof.
  intros Hw -> H1 H2. apply Forall_app in Hw as [Hw1 Hw2].
  destruct a2 as [|ch a2]; [congruence|]. apply Forall_cons in Hw2 as [Hch _].
  apply no_match_inside_word; [|exact Hch].
  unfold last_of. destruct (last a1) as [x|] eqn:E.
  - apply last_Some_elem_of in E. exact (proj1 (Forall_forall _ _) Hw1 x E).
  - apply last_None in E. congruence.
Qed.

(** A split of a word followed by [r]: either inside the word, or at one
    of its ends. *)
Lemma no_match_along w r pv :
  is_word w ->
  match_here true repeated_word false (MState pv (w ++ r) []) = None ->
  not_at isword r ->
  forall a1 a2 k, w = a1 ++ k -> a2 = k ++ r -> k <> [] ->
  match_here true repeated_word false (MState (last_of pv a1) a2 []) = None.
Proof.
  intros Hw H0 Hr a1 a2 k E -> Hk.
  destruct a1 as [|x a1].
  - simpl in E. subst k. exact H0.
  - apply (no_match_within w (x :: a1) k r pv [] (proj2 Hw) E); [discriminate|exact Hk].
Qed.

(** In a text of words that all differ up to the case, separated by single
    spaces, [repeated_word] matches nowhere. *)
Lemma no_match_among_words : forall ws pv,
  word_at pv = false -> Forall is_word ws -> NoDup (map lower ws) ->
  forall a1 a2, join space ws = a1 ++ a2 ->
  match_here true repeated_word false (MState (last_of pv a1) a2 []) = None.
Proof.
  induction ws as [|w ws IH]; intros pv Hpv Hws Hnd a1 a2 E.
  - destruct a1; [|discriminate]. destruct a2; [|discriminate].
    apply no_match_without_word. exact I.
  - apply Forall_cons in Hws as [Hw Hws]. cbn [map] in Hnd.
    apply NoDup_cons in Hnd as [Hnew Hnd].
    destruct ws as [|w2 ws].
    + change (join space [w]) with w in E. rewrite <- (app_nil_r w) in E.
      symmetry in E. apply app_eq_app in E as [k [[E1 E2]|[E1 E2]]].
      * symmetry in E2. apply app_eq_nil in E2 as [-> ->]. rewrite app_nil_r in E1.
        subst a1. apply no_match_without_word. exact I.
      * destruct k as [|x k].
        { rewrite app_nil_r in E1. subst a1. simpl in E2. subst a2.
          apply no_match_without_word. exact I. }
        pose proof (match_run w [] [] pv [] Hpv Hw (List.Forall_nil _) (List.Forall_nil _)) as Hm.
        apply (no_match_along w [] pv Hw Hm I a1 a2 (x :: k) E1 E2). discriminate.
    + rewrite join_cons in E. apply Forall_cons in Hws as [Hw2 Hws].
      assert (Hl : lower w2 <> lower w).
      { intros El. apply Hnew. cbn [map]. rewrite El. apply elem_of_cons. left.
        reflexivity. }
      symmetry in E. apply app_eq_app in E as [k [[E1 E2]|[E1 E2]]].
      * (* the position is after the first word *)
        symmetry in E2. apply app_eq_app in E2 as [k2 [[E3 E4]|[E3 E4]]].
        -- (* after the space *)
           subst a1 k. rewrite !last_of_app.
           apply (IH (last_of (last_of pv w) space)); [reflexivity| |exact Hnd|exact E4].
           apply Forall_cons. split; assumption.
        -- (* at the space *)
           destruct k as [|x k].
           ++ rewrite app_nil_r in E1. subst a1. simpl in E4. subst a2.
              apply no_match_without_word. simpl in E3. subst k2. reflexivity.
           ++ destruct k; [|destruct k2; discriminate].
              injection E3 as Ex E3. subst x k2 a2 a1. rewrite last_of_app.
              apply (IH (last_of (last_of pv w) [" "%char]) eq_refl
                        (proj2 (Forall_cons _ _ _) (conj Hw2 Hws)) Hnd
                        [] (join space (w2 :: ws)) eq_refl).
      * (* the position is in the first word *)
        destruct k as [|x k].
        { rewrite app_nil_r in E1. subst a1. simpl in E2. subst a2.
          apply no_match_without_word. reflexivity. }
        refine (no_match_along w (space ++ join space (w2 :: ws)) pv Hw _ eq_refl
                  a1 a2 (x :: k) E1 E2 ltac:(discriminate)).
        destruct ws as [|w3 ws].
        -- change (join space [w2]) with w2. rewrite <- (app_nil_r w2).
           apply no_match_before_other_word; try assumption. exact I.
        -- rewrite join_cons.
           apply no_match_before_other_word; try assumption. reflexivity.
Qed.

(** The single-word pass leaves such a text as it is. *)
Lemma collapse_words_kept ws :
  Forall is_word ws -> NoDup (map lower ws) ->
  collapse_words (join space ws) = Ok (join space ws).
Proof.
  intros Hws Hnd. unfold collapse_words, sub.
  change (parse_template 2 (length (of_string "\1")) (of_string "\1")) with (Ok [PGroup 1]).
  f_equal. unfold sub_pieces, all_matches.
  replace (2 * length (join space ws) + 2)%nat
    with (S (S (2 * length (join space ws)))) by lia.
  rewrite matches_from_step. unfold start_of. cbn [rest].
  rewrite (search_none true repeated_word (join space ws)); [reflexivity|].
  intros a1 a2 E. apply (no_match_among_words ws None eq_refl Hws Hnd a1 a2 E).
Qed.


(** *** Words and phrases *)


Lemma join_starts_with_word ws :
  ws <> [] -> Forall is_word ws -> exists a p, join space ws = a :: p /\ isword a = true.
Proof.
  intros Hne H. destruct ws as [|w ws]; [congruence|].
  apply Forall_cons in H as [[Hw0 Hw] _].
  destruct w as [|a w]; [congruence|]. apply Forall_cons in Hw as [Ha _].
  destruct ws as [|w' ws]; [exists a, w|exists a, (w ++ space ++ join space (w' :: ws))];
    (split; [reflexivity|exact Ha]).
Qed.


End Phrases.

(** *** Sentences of single-spaced words *)

Section Sentences.
Import Py Re.

(** *** [join] around a part of a sentence *)

Lemma join_three pre mid post :
  mid <> [] -> join space (pre ++ mid ++ post) = lead pre ++ join space mid ++ trail post.
Proof.
  intros Hmid.
  assert (Hmp : join space (mid ++ post) = join space mid ++ trail post).
  { destruct post as [|p post]; [rewrite !app_nil_r; reflexivity|].
    apply join_app; [exact Hmid|discriminate]. }
  destruct pre as [|u pre]; [exact Hmp|].
  rewrite join_app; [|discriminate|destruct mid; [congruence|discriminate]].
  rewrite Hmp. cbn [lead]. apply app_assoc.
Qed.

Lemma join_run w rs : join space (w :: rs) = w ++ occurrences (spaced rs).
Proof.
  revert w. induction rs as [|r rs IH]; intros w.
  - cbn. rewrite app_nil_r. reflexivity.
  - rewrite join_cons, IH. unfold spaced. cbn [map]. rewrite occurrences_cons.
    cbn [fst snd]. reflexivity.
Qed.

Lemma spaced_repeats w rs :
  Forall (fun r => lower r = lower w) rs -> Forall (repeats w) (spaced rs).
Proof.
  intros H. unfold spaced. apply Forall_map. eapply Forall_impl; [exact H|].
  intros r Hr. split; [discriminate|]. split; [repeat constructor|exact Hr].
Qed.

Lemma other_word_next_not_word w r : other_word_next w r -> not_at isword r.
Proof. intros [->|(w0 & r3 & -> & _)]; [exact I|reflexivity]. Qed.

Lemma trail_next w post :
  Forall is_word post -> (forall p, head post = Some p -> lower p <> lower w) ->
  other_word_next w (trail post).
Proof.
  intros Hw Hd. destruct post as [|p post]; [left; reflexivity|].
  apply Forall_cons in Hw as [Hp Hw]. pose proof (Hd p eq_refl) as Hdp.
  right. unfold trail.
  destruct post as [|p' post].
  - exists p, []. rewrite app_nil_r. repeat split; try assumption; apply Hp.
  - exists p, (space ++ join space (p' :: post)). rewrite join_cons.
    repeat split; try assumption; apply Hp.
Qed.

(** *** The single-word pass inside a sentence *)

Lemma occurrences_then w reps tail :
  Forall (repeats w) reps -> not_at isword tail -> not_at isword (occurrences reps ++ tail).
Proof.
  intros Hreps Ht. destruct reps as [|[ws0 w'] reps]; [exact Ht|].
  apply Forall_cons in Hreps as [(Hne & Hws & _) _]. cbn [fst] in *.
  rewrite occurrences_cons. cbn [fst snd].
  destruct ws0 as [|sp ws0]; [congruence|].
  apply Forall_cons in Hws as [Hsp _]. simpl. apply space_is_not_word. exact Hsp.
Qed.

(** After the run of [w], what follows is not [w] again. *)
Lemma word_again_fails w tail pv c k :
  is_word w -> other_word_next w tail -> group1 c = Some w ->
  rmatch true word_again (MState pv tail c) k = None.
Proof.
  intros Hw [->|(w0 & r3 & -> & Hw0 & Hl & Hr3)] Hg.
  - apply (word_again_stops w [] pv c k Hw); [constructor|exact Hg].
  - rewrite (word_again_spec w space (w0 ++ r3) pv c k Hw);
      [|repeat constructor|exact (word_not_space w0 r3 Hw0)|exact Hg].
    change (negb (is_empty space)) with true. rewrite andb_true_l.
    rewrite (no_echo w w0 r3 (proj2 Hw) (proj2 Hw0) Hr3 Hl). reflexivity.
Qed.

Lemma word_loop_then w tail k : is_word w -> other_word_next w tail ->
  (forall s, k s = Some s) ->
  forall reps pv c fuel count,
  Forall (repeats w) reps -> group1 c = Some w ->
  (length (occurrences reps ++ tail) < fuel)%nat ->
  rep_loop (rmatch true word_again) true 1 k fuel count
           (MState pv (occurrences reps ++ tail) c)
  = if Nat.leb 1 (count + length reps)
    then Some (MState (last_of pv (occurrences reps)) tail (recorded reps c))
    else None.
Proof.
  intros Hw Htail Hk.
  induction reps as [|rep reps IH]; intros pv c fuel count Hreps Hg Hfuel.
  - destruct fuel as [|fuel]; [simpl in Hfuel; lia|].
    rewrite rep_loop_step. cbv zeta. cbn [occurrences flat_map app].
    rewrite (word_again_fails w tail pv c _ Hw Htail Hg).
    cbn [orelse length recorded fold_left last_of]. rewrite Nat.add_0_r, Hk.
    reflexivity.
  - destruct fuel as [|fuel]; [simpl in Hfuel; lia|].
    apply Forall_cons in Hreps as [Hrep Hreps].
    pose proof (repeats_word w rep Hw Hrep) as Hw'.
    destruct Hrep as (Hne & Hws & Hl).
    destruct rep as [ws0 w']. cbn [fst snd] in *.
    destruct (same_prefix_lower w w' Hl) as [Hsame Hlen].
    rewrite rep_loop_step. cbv zeta.
    rewrite occurrences_cons in *. cbn [fst snd] in *. rewrite <- !app_assoc in *.
    rewrite (word_again_spec w ws0 (w' ++ occurrences reps ++ tail) pv c _ Hw Hws
               (word_not_space w' _ Hw') Hg).
    rewrite same_prefix_app by exact Hlen. rewrite Hsame.
    rewrite <- Hlen, drop_app_length, take_app_length.
    pose proof (occurrences_then w reps tail Hreps (other_word_next_not_word w tail Htail))
      as Hnw.
    replace (word_at (head (occurrences reps ++ tail))) with false
      by (destruct (occurrences reps ++ tail); [reflexivity|symmetry; exact Hnw]).
    destruct ws0 as [|sp ws]; [congruence|].
    cbn [is_empty negb andb rest].
    destruct (Nat.ltb_spec (length (occurrences reps ++ tail))
                (length ((sp :: ws) ++ w' ++ occurrences reps ++ tail))) as [_|Hbad].
    2:{ rewrite !length_app in Hbad. simpl in Hbad. lia. }
    rewrite (IH _ _ fuel (S count) Hreps) by
      (try (rewrite group1_push; exact Hg); rewrite !length_app in *; simpl in *; lia).
    repeat match goal with
           | |- context [Nat.leb 1 ?n] =>
               replace (Nat.leb 1 n) with true by (symmetry; apply Nat.leb_le; simpl; lia)
           end.
    cbn [orelse recorded fold_left fst snd]. rewrite !last_of_app. reflexivity.
Qed.

(** At the start of a run inside a sentence, [repeated_word] matches the
    whole run and stops before the next word. *)
Lemma match_run_then w reps tail pv c0 :
  word_at pv = false -> is_word w -> Forall (repeats w) reps -> other_word_next w tail ->
  match_here true repeated_word false (MState pv (w ++ occurrences reps ++ tail) c0)
  = if Nat.leb 1 (length reps)
    then Some (MState (last_of pv (w ++ occurrences reps)) tail
                      (recorded reps [(1%nat, w)]))
    else None.
Proof.
  intros Hpv Hw Hreps Htail.
  pose proof (occurrences_then w reps tail Hreps (other_word_next_not_word w tail Htail))
    as Hnw.
  unfold match_here, repeated_word. cbn [prev rest andb].
  rewrite rmatch_cat, rmatch_bnd.
  assert (Hb : at_boundary (MState pv (w ++ occurrences reps ++ tail) []) = true).
  { unfold at_boundary. cbn [prev rest]. rewrite Hpv.
    destruct Hw as [Hne Hall]. destruct w as [|a w]; [congruence|].
    apply Forall_cons in Hall as [Ha _]. simpl. exact Ha. }
  rewrite Hb.
  change (Grp 2 (Cat (plus (Cls isspace)) (Cat (Ref 1) Bnd))) with word_again.
  rewrite rmatch_cat, rmatch_grp. unfold plus at 1. rewrite rmatch_rep. cbn [rest].
  rewrite (rep_cls_run true isword 1 _ [] w pv (occurrences reps ++ tail));
    [|exact (proj2 Hw)|exact Hnw| |lia].
  2:{ intros pv' ch r' Hch. cbn [prev rest caps]. unfold plus. rewrite rmatch_rep.
      rewrite rep_loop_step. cbv zeta.
      unfold word_again at 1. rewrite rmatch_grp, rmatch_cat. unfold plus.
      rewrite rmatch_rep.
      rewrite rep_cls_none; [reflexivity| |lia].
      simpl. destruct (isspace ch) eqn:E; [|reflexivity].
      apply space_is_not_word in E. congruence. }
  destruct Hw as [Hne Hall].
  destruct w as [|a w]; [congruence|].
  cbn [length Nat.add Nat.leb]. unfold after. cbn [prev rest caps].
  rewrite length_app.
  replace (length (a :: w) + length (occurrences reps ++ tail)
           - length (occurrences reps ++ tail))%nat with (length (a :: w)) by lia.
  rewrite take_app_length. unfold plus. rewrite rmatch_rep. cbn [rest].
  rewrite (word_loop_then (a :: w) tail _ (conj Hne Hall) Htail (fun s => eq_refl) reps _
             [(1%nat, a :: w)] _ 0 Hreps eq_refl) by lia.
  cbn [Nat.add]. rewrite last_of_app. reflexivity.
Qed.

(** A word followed by another word is no start of a run. *)
Lemma no_match_at_word w r pv c0 :
  word_at pv = false -> is_word w -> other_word_next w r ->
  match_here true repeated_word false (MState pv (w ++ r) c0) = None.
Proof.
  intros Hpv Hw Hr.
  exact (match_run_then w [] r pv c0 Hpv Hw (List.Forall_nil _) Hr).
Qed.

Lemma join_then v rest r :
  join space (v :: rest) ++ r
  = v ++ match rest with [] => r | _ => space ++ join space rest ++ r end.
Proof.
  destruct rest as [|v' rest]; [reflexivity|].
  rewrite join_cons, <- !app_assoc. reflexivity.
Qed.

(** Inside a sentence whose neighbouring words differ, [repeated_word]
    matches nowhere. *)
Lemma no_match_among_neighbours : forall ws pv r,
  word_at pv = false -> Forall is_word ws -> neighbours_differ ws ->
  (forall u, last ws = Some u -> other_word_next u r) ->
  forall a1 a2, join space ws = a1 ++ a2 -> a2 <> [] ->
  match_here true repeated_word false (MState (last_of pv a1) (a2 ++ r) []) = None.
Proof.
  induction ws as [|u ws IH]; intros pv r Hpv Hws Hnd Hlast a1 a2 E Ha2.
  - destruct a1; [|discriminate]. destruct a2; [congruence|discriminate].
  - apply Forall_cons in Hws as [Hu Hws].
    destruct ws as [|v ws].
    + change (join space [u]) with u in E.
      destruct a1 as [|x a1].
      * simpl in E. subst a2. apply no_match_at_word; [exact Hpv|exact Hu|].
        apply Hlast. reflexivity.
      * apply (no_match_within u (x :: a1) a2 r pv [] (proj2 Hu) E); [discriminate|exact Ha2].
    + destruct Hnd as [Hvu Hnd]. apply Forall_cons in Hws as [Hv Hws].
      assert (Hnext : not_at isword
                (match ws with [] => r | _ => space ++ join space ws ++ r end)).
      { destruct ws; [|reflexivity].
        apply (other_word_next_not_word v). apply Hlast. reflexivity. }
      rewrite join_cons in E. symmetry in E.
      apply app_eq_app in E as [k [[E1 E2]|[E1 E2]]].
      * (* after the first word *)
        symmetry in E2. apply app_eq_app in E2 as [k2 [[E3 E4]|[E3 E4]]].
        -- subst a1 k. rewrite !last_of_app.
           exact (IH (last_of (last_of pv u) space) r eq_refl
                     (proj2 (Forall_cons _ _ _) (conj Hv Hws)) Hnd
                     (fun u0 Hu0 => Hlast u0 Hu0) k2 a2 E4 Ha2).
        -- destruct k as [|x k].
           ++ simpl in E3. subst k2. simpl in E4. subst a2. rewrite app_nil_r in E1. subst a1.
              apply no_match_without_word. reflexivity.
           ++ destruct k; [|destruct k2; discriminate].
              injection E3 as Ex E3. subst x k2 a2 a1. simpl app. rewrite last_of_app.
              apply (IH (last_of (last_of pv u) [" "%char]) r eq_refl
                        (proj2 (Forall_cons _ _ _) (conj Hv Hws)) Hnd
                        (fun u0 Hu0 => Hlast u0 Hu0)
                        [] (join space (v :: ws)) eq_refl).
              destruct v; [destruct Hv; congruence|]. destruct ws; discriminate.
      * (* in the first word *)
        destruct k as [|x k].
        { rewrite app_nil_r in E1. subst a1. simpl in E2. subst a2.
          apply no_match_without_word. reflexivity. }
        subst a2.
        set (r3 := match ws with [] => r | _ => space ++ join space ws ++ r end) in *.
        assert (Hrest : ((x :: k) ++ space ++ join space (v :: ws)) ++ r
                        = (x :: k) ++ space ++ v ++ r3).
        { etrans; [symmetry; apply app_assoc|]. f_equal.
          etrans; [symmetry; apply app_assoc|]. f_equal. apply join_then. }
        rewrite Hrest. clear Hrest.
        destruct a1 as [|y a1].
        -- simpl in E1. subst u. cbn [last_of last].
           apply no_match_at_word; [exact Hpv|exact Hu|].
           right. exists v, r3. split; [reflexivity|]. repeat split; try assumption; apply Hv.
        -- apply (no_match_within u (y :: a1) (x :: k) _ pv [] (proj2 Hu) E1); discriminate.
Qed.

(** *** Every run of a sentence *)

Lemma sub_pieces_glue ic r ps s : sub_pieces ic r ps s = glue ps (all_matches ic r s).
Proof. unfold sub_pieces, glue. destruct (all_matches ic r s). reflexivity. Qed.

Lemma matches_from_search ic r fuel s :
  matches_from ic r (S fuel) false s
  = after_search ic r fuel (rest s) (search_from ic r false (length (rest s)) [] s).
Proof. reflexivity. Qed.

Lemma glue_after_hit ic r ps fuel t0 skipped matched s1 :
  glue ps (after_search ic r fuel t0 (Some (skipped, matched, s1)))
  = skipped ++ expand ps matched s1
    ++ glue ps (matches_from ic r fuel (Nat.eqb (length matched) 0) s1).
Proof.
  unfold after_search. destruct (matches_from _ _ _ _ _) as [more tail].
  unfold glue. cbn [fst snd flat_map]. rewrite <- !app_assoc. reflexivity.
Qed.

Lemma said_nil gs : said gs = [] -> gs = [].
Proof. destruct gs as [|[w reps] gs]; [reflexivity|discriminate]. Qed.

Lemma said_words gs : Forall is_run gs -> Forall is_word (said gs).
Proof.
  induction gs as [|[w reps] gs IH]; intros H; [constructor|].
  apply Forall_cons in H as [[Hw Hreps] H]. cbn [fst snd] in *.
  unfold said. cbn [flat_map fst snd]. constructor; [exact Hw|].
  apply Forall_app. split; [|exact (IH H)].
  eapply Forall_impl; [exact Hreps|]. intros r Hr. exact (same_case_word w r Hw Hr).
Qed.

Lemma trail_join post :
  trail post = (match post with [] => [] | _ => space end) ++ join space post.
Proof. destruct post; reflexivity. Qed.

Lemma join_heard w gs :
  join space (w :: heard gs)
  = w ++ (match said gs with [] => [] | _ => space end) ++ join space (heard gs).
Proof.
  destruct gs as [|[w' reps'] gs]; [cbn; rewrite app_nil_r; reflexivity|].
  reflexivity.
Qed.

Lemma join_said w reps gs :
  join space (said ((w, reps) :: gs))
  = w ++ occurrences (spaced reps) ++ trail (said gs).
Proof.
  unfold said at 1. cbn [flat_map fst snd]. fold (said gs).
  etrans; [exact (join_three [] (w :: reps) (said gs) ltac:(discriminate))|].
  cbn [lead app]. rewrite join_run. symmetry. apply app_assoc.
Qed.

(** After a run, the next word of the sentence is another one. *)
Lemma next_run w reps gs :
  Forall is_run gs -> neighbours_differ (heard ((w, reps) :: gs)) ->
  other_word_next w (trail (said gs)).
Proof.
  intros Hgs Hnd. apply trail_next; [exact (said_words gs Hgs)|].
  intros p Hp. destruct gs as [|[w' reps'] gs]; [discriminate|].
  injection Hp as <-. exact (proj1 Hnd).
Qed.

(** The single-word pass walks over a sentence run after run: every run
    is matched as a whole and replaced by its first word. *)
Lemma runs_are_collapsed : forall gs pv sp sfuel skipped fuel c,
  none_in isword sp -> (gs <> [] -> word_at (last_of pv sp) = false) ->
  Forall is_run gs -> neighbours_differ (heard gs) ->
  (length gs <= fuel)%nat -> (length (sp ++ join space (said gs)) <= sfuel)%nat ->
  glue [PGroup 1]
    (after_search true repeated_word fuel (rev skipped ++ sp ++ join space (said gs))
       (search_from true repeated_word false sfuel skipped
          (MState pv (sp ++ join space (said gs)) c)))
  = rev skipped ++ sp ++ join space (heard gs).
Proof.
  induction gs as [|[w reps] gs IH]; intros pv sp sfuel skipped fuel c Hsp Hpv Hgs Hnd Hf Hsf.
  - cbn [said flat_map heard map join]. rewrite !app_nil_r.
    rewrite (search_none true repeated_word sp); [reflexivity|].
    intros a1 a2 E. apply no_match_without_word. exact (suffix_not_word sp a1 a2 Hsp E).
  - apply Forall_cons in Hgs as [[Hw Hreps] Hgs]. cbn [fst snd] in Hw, Hreps.
    pose proof (next_run w reps gs Hgs Hnd) as Hnext.
    assert (Hnd' : neighbours_differ (heard gs)).
    { destruct gs as [|[w' reps'] gs]; [exact I|exact (proj2 Hnd)]. }
    specialize (Hpv ltac:(discriminate)).
    rewrite search_from_caps.
    rewrite search_skip; [| |rewrite length_app in Hsf; lia].
    2:{ intros a1 a2 E Hne. apply no_match_without_word.
        pose proof (suffix_not_word sp a1 a2 Hsp E) as H2.
        destruct a2; [congruence|exact H2]. }
    rewrite join_said in *.
    set (pv1 := last_of pv sp) in *.
    destruct reps as [|r0 reps].
    + (* a word said once *)
      cbn [spaced map occurrences flat_map app] in *.
      rewrite search_skip; [| |rewrite !length_app in Hsf; lia].
      2:{ intros a1 a2 E Hne. destruct a1 as [|x a1].
          - simpl in E. subst a2. apply no_match_at_word; assumption.
          - apply (no_match_within w (x :: a1) a2 _ pv1 [] (proj2 Hw) E);
              [discriminate|exact Hne]. }
      rewrite trail_join in *.
      set (sp' := match said gs with [] => [] | _ => space end) in *.
      assert (Hsp' : none_in isword sp').
      { subst sp'. destruct (said gs); repeat constructor. }
      pose proof (IH (last_of pv1 w) sp' (sfuel - length sp - length w)%nat
                     (rev w ++ rev sp ++ skipped) fuel [] Hsp') as IH'.
      rewrite !rev_app_distr, !rev_involutive, <- !app_assoc in IH'.
      change (heard ((w, []) :: gs)) with (w :: heard gs).
      rewrite join_heard.
      apply IH'; try assumption.
      * intros Hne. subst sp'. destruct (said gs) eqn:E;
          [apply said_nil in E; congruence|reflexivity].
      * simpl in Hf. lia.
      * rewrite !length_app in *. lia.
    + (* a run *)
      set (rs := spaced (r0 :: reps)) in *.
      pose proof (match_run_then w rs (trail (said gs)) pv1 [] Hpv Hw
                    (spaced_repeats w (r0 :: reps) Hreps) Hnext) as Hm.
      change (Nat.leb 1 (length rs)) with true in Hm. cbv iota in Hm.
      rewrite (search_hit _ _ _ _ _ _ _ Hm). cbn [rest].
      rewrite glue_after_hit.
      replace (take _ _) with (w ++ occurrences rs).
      2:{ rewrite (app_assoc w), length_app, Nat.add_sub, take_app_length. reflexivity. }
      replace (Nat.eqb (length (w ++ occurrences rs)) 0) with false
        by (destruct Hw as [Hw0 _]; destruct w; [congruence|reflexivity]).
      destruct fuel as [|fuel]; [simpl in Hf; lia|].
      rewrite matches_from_search. cbn [rest].
      rewrite trail_join.
      set (sp' := match said gs with [] => [] | _ => space end) in *.
      assert (Hsp' : none_in isword sp').
      { subst sp'. destruct (said gs); repeat constructor. }
      pose proof (IH (last_of pv1 (w ++ occurrences rs)) sp'
                     (length (sp' ++ join space (said gs))) [] fuel
                     (recorded rs [(1%nat, w)]) Hsp') as IH'.
      cbn [rev app] in IH'. rewrite IH'; try assumption.
      * unfold expand. cbn [flat_map].
        change (cap 1 (MState (last_of pv1 (w ++ occurrences rs))
                         (sp' ++ join space (said gs)) (recorded rs [(1%nat, w)])))
          with (group1 (recorded rs [(1%nat, w)])).
        rewrite group1_recorded.
        cbn [group1 cap caps List.find fst snd Nat.eqb fmap option_fmap option_map default].
        change (heard ((w, r0 :: reps) :: gs)) with (w :: heard gs).
        rewrite join_heard, rev_app_distr, rev_involutive, !app_nil_r, <- !app_assoc.
        reflexivity.
      * intros Hne. subst sp'. destruct (said gs) eqn:E;
          [apply said_nil in E; congruence|reflexivity].
      * simpl in Hf. lia.
      * lia.
Qed.

Lemma join_counts_words ws : Forall is_word ws -> (length ws <= length (join space ws))%nat.
Proof.
  induction ws as [|w ws IH]; intros H; [simpl; lia|].
  apply Forall_cons in H as [[Hne _] H]. specialize (IH H).
  assert (1 <= length w)%nat by (destruct w; [congruence|simpl; lia]).
  destruct ws as [|w' ws]; [simpl; lia|].
  rewrite join_cons, !length_app. cbn [length] in *. lia.
Qed.

Lemma said_length gs : (length gs <= length (said gs))%nat.
Proof.
  induction gs as [|[w reps] gs IH]; [simpl; lia|].
  unfold said in *. cbn [flat_map fst snd app length]. rewrite length_app. lia.
Qed.

(** The single-word pass turns a sentence into its runs' first words. *)
Lemma collapse_words_runs gs :
  Forall is_run gs -> neighbours_differ (heard gs) ->
  collapse_words (join space (said gs)) = Ok (join space (heard gs)).
Proof.
  intros Hgs Hnd. unfold collapse_words, sub.
  change (parse_template 2 (length (of_string "\1")) (of_string "\1")) with (Ok [PGroup 1]).
  f_equal. rewrite sub_pieces_glue. unfold all_matches.
  replace (2 * length (join space (said gs)) + 2)%nat
    with (S (2 * length (join space (said gs)) + 1)) by lia.
  rewrite matches_from_search. unfold start_of. cbn [rest].
  pose proof (said_length gs) as H1.
  pose proof (join_counts_words (said gs) (said_words gs Hgs)) as H2.
  apply (runs_are_collapsed gs None [] (length (join space (said gs))) []
           (2 * length (join space (said gs)) + 1) [] (List.Forall_nil _)
           (fun _ => eq_refl) Hgs Hnd); [lia|cbn [app]; lia].
Qed.

Lemma said_once ws : said (once ws) = ws.
Proof. induction ws as [|w ws IH]; [reflexivity|]. cbn. f_equal. exact IH. Qed.

Lemma heard_once ws : heard (once ws) = ws.
Proof. induction ws as [|w ws IH]; [reflexivity|]. cbn. f_equal. exact IH. Qed.

Lemma once_runs ws : Forall is_word ws -> Forall is_run (once ws).
Proof.
  intros H. unfold once. apply Forall_map. eapply Forall_impl; [exact H|].
  intros w Hw. split; [exact Hw|constructor].
Qed.

(** The single-word pass keeps a sentence in which no word is said twice
    in a row. *)
Lemma collapse_words_neighbours ws :
  Forall is_word ws -> neighbours_differ ws ->
  collapse_words (join space ws) = Ok (join space ws).
Proof.
  intros Hws Hnd. pose proof (collapse_words_runs (once ws)) as H.
  rewrite said_once, heard_once in H. exact (H (once_runs ws Hws) Hnd).
Qed.

(** *** The phrase pass where no phrase is said twice *)

Lemma window_test words m i t :
  collapse_window words m i t
  = if phrase_repeats words m i
    then sub true 0 (phrase_twice (join space (slice i (i + m) words))
                                  (join space (slice (i + m) (i + m * 2) words)))
           (join space (slice i (i + m) words)) t
    else Ok t.
Proof. reflexivity. Qed.

Lemma phrases_kept words t :
  no_phrase_twice words = true ->
  for_each (collapse_phrases words) (seq 3 (6 - 3)) t = Ok t.
Proof.
  intros H. apply for_each_kept. intros m Hm.
  unfold no_phrase_twice in H.
  pose proof (proj1 (forallb_forall _ _) H m
                (proj1 (list_elem_of_In _ _) Hm)) as H1. cbv beta in H1.
  unfold collapse_phrases.
  destruct (Nat.ltb_spec (length words) (m * 2)) as [|Hlen]; [reflexivity|].
  apply for_each_kept. intros i Hi.
  replace (length words + 1 - m * 2)%nat with (length words - m * 2 + 1)%nat in H1 by lia.
  pose proof (proj1 (forallb_forall _ _) H1 i
                (proj1 (list_elem_of_In _ _) Hi)) as H2. cbv beta in H2.
  rewrite window_test. destruct (phrase_repeats words m i); [discriminate|reflexivity].
Qed.

(** A sentence without repeated phrase: the cleaner is its single-word
    pass. *)
Lemma cleaner_is_word_pass ws :
  Forall is_word ws -> no_phrase_twice ws = true -> (6 <= length ws)%nat ->
  _clean_repetitions (join space ws) = collapse_words (join space ws).
Proof.
  intros Hws Hno Hlen. unfold _clean_repetitions.
  rewrite (split_join ws Hws).
  destruct (Nat.ltb_spec (length ws) 6); [lia|].
  rewrite (phrases_kept ws _ Hno). reflexivity.
Qed.

Lemma short_text_kept text :
  (length (split text) < 6)%nat -> _clean_repetitions text = Ok text.
Proof.
  intros H. unfold _clean_repetitions.
  destruct (Nat.ltb_spec (length (split text)) 6); [reflexivity|lia].
Qed.

(** A sentence without repeated phrase nor repeated word is what the
    cleaner returns for it. *)
Lemma clean_sentence_kept ws :
  Forall is_word ws -> neighbours_differ ws -> no_phrase_twice ws = true ->
  _clean_repetitions (join space ws) = Ok (join space ws).
Proof.
  intros Hws Hnd Hno.
  destruct (Nat.lt_ge_cases (length ws) 6) as [Hlen|Hlen].
  - apply short_text_kept. rewrite (split_join ws Hws). exact Hlen.
  - rewrite (cleaner_is_word_pass ws Hws Hno Hlen).
    exact (collapse_words_neighbours ws Hws Hnd).
Qed.
End Sentences.

(** *** The pattern of a phrase said twice *)

Section Doubled.
Import Py Re.

(** *** Where the phrase cannot start *)










(** *** A substitution with one match *)


(** *** Where a window finds its phrase twice *)


End Doubled.

(** *** A sentence in which one phrase is said twice *)

Section DoubledPhrase.
Import Py Re.

Variables P A A' Q : list text.
Hypothesis Hwords : Forall is_word (P ++ A ++ Q).
Hypothesis Hsame : map lower A' = map lower A.
Hypothesis Hdiffer : NoDup (map lower (P ++ A ++ Q)).
Hypothesis Hlong : (3 <= length A)%nat.

Let words := P ++ A ++ A' ++ Q.















End DoubledPhrase.

(** C2 (amended).  A sentence of single-spaced words in which no word and
    no phrase of three to five words is said twice in a row is what the
    cleaner returns for it.  So cleaning twice is cleaning once on every
    text that the first cleaning turns into such a sentence; and in
    particular on every sentence of single-spaced words whose runs of a
    repeated word, once collapsed, leave such a sentence, when no phrase
    window finds its phrase repeated in it. *)
Theorem clean_result_is_kept (ws : list Py.text) :
  Forall is_word ws -> neighbours_differ ws -> no_phrase_twice ws = true ->
  _clean_repetitions (Py.join space ws) = Ok (Py.join space ws)
  /\ (forall text, _clean_repetitions text = Ok (Py.join space ws) ->
        clean_twice text = _clean_repetitions text)
  /\ (forall gs, heard gs = ws -> Forall is_run gs -> no_phrase_twice (said gs) = true ->
        clean_twice (Py.join space (said gs)) = _clean_repetitions (Py.join space (said gs))).
Proof.
  intros Hws Hnd Hno.
  pose proof (clean_sentence_kept ws Hws Hnd Hno) as Hfix.
  assert (Htwice : forall text, _clean_repetitions text = Ok (Py.join space ws) ->
                                clean_twice text = _clean_repetitions text).
  { intros text H. unfold clean_twice. rewrite H. exact Hfix. }
  split; [exact Hfix|]. split; [exact Htwice|].
  intros gs <- Hgs Hno2.
  destruct (Nat.lt_ge_cases (length (said gs)) 6) as [Hlen|Hlen].
  - assert (E : _clean_repetitions (Py.join space (said gs)) = Ok (Py.join space (said gs))).
    { apply short_text_kept. rewrite (split_join _ (said_words gs Hgs)). exact Hlen. }
    unfold clean_twice. rewrite E. exact E.
  - apply Htwice. rewrite (cleaner_is_word_pass _ (said_words gs Hgs) Hno2 Hlen).
    exact (collapse_words_runs gs Hgs Hnd).
Qed.

Lemma clean_result_is_kept_witness :
  _clean_repetitions scenario_a_cleaned = Ok scenario_a_cleaned
  /\ clean_twice scenario_a = _clean_repetitions scenario_a.
Proof.
  destruct (clean_result_is_kept
              (map Py.of_string
                 ["I"; "went"; "to"; "the"; "store"; "and"; "bought"; "milk"]%string))
    as (H1 & H2 & _).
  - repeat constructor; discriminate.
  - repeat split; discriminate.
  - reflexivity.
  - split; [exact H1|]. apply H2. vm_compute. reflexivity.
Defined.

(** C2, as first stated, fails: the first cleaning of [stutter] removes
    the doubled "I" and leaves "so I think" twice in a row, which only a
    second cleaning collapses. *)
Lemma cleaning_twice_goes_further :
  _clean_repetitions stutter = Ok (Py.of_string "so I think so I think we can go")
  /\ clean_twice stutter = Ok (Py.of_string "so I think we can go")
  /\ clean_twice stutter <> _clean_repetitions stutter.
Proof.
  assert (E1 : _clean_repetitions stutter = Ok (Py.of_string "so I think so I think we can go"))
    by (vm_compute; reflexivity).
  assert (E2 : clean_twice stutter = Ok (Py.of_string "so I think we can go"))
    by (vm_compute; reflexivity).
  split; [exact E1|]. split; [exact E2|]. rewrite E1, E2. discriminate.
Qed.




(** C10 (amended).  In a sentence of single-spaced words made of word
    characters, every maximal run of a word, said once or several times
    in a row in any casing, is replaced by the single-word pass with its
    first occurrence, in that occurrence's casing, whatever the length
    and the number of the runs; and this is what the cleaner returns when
    the sentence has six words or more and no phrase window finds its
    phrase repeated. *)
Theorem run_collapses_to_first_occurrence (gs : list (Py.text * list Py.text)) :
  Forall is_run gs -> neighbours_differ (heard gs) ->
  collapse_words (Py.join space (said gs)) = Ok (Py.join space (heard gs))
  /\ ((6 <= length (said gs))%nat -> no_phrase_twice (said gs) = true ->
      _clean_repetitions (Py.join space (said gs)) = Ok (Py.join space (heard gs))).
Proof.
  intros Hgs Hnd. split; [exact (collapse_words_runs gs Hgs Hnd)|].
  intros Hlen Hno.
  rewrite (cleaner_is_word_pass (said gs) (said_words gs Hgs) Hno Hlen).
  exact (collapse_words_runs gs Hgs Hnd).
Qed.

Lemma run_collapses_to_first_occurrence_witness :
  collapse_words (Py.of_string "I I went to the The THE store and and bought milk")
  = Ok (Py.of_string "I went to the store and bought milk")
  /\ _clean_repetitions (Py.of_string "I I went to the The THE store and and bought milk")
     = Ok (Py.of_string "I went to the store and bought milk").
Proof.
  destruct (run_collapses_to_first_occurrence
              [(Py.of_string "I", [Py.of_string "I"]);
               (Py.of_string "went", []);
               (Py.of_string "to", []);
               (Py.of_string "the", [Py.of_string "The"; Py.of_string "THE"]);
               (Py.of_string "store", []);
               (Py.of_string "and", [Py.of_string "and"]);
               (Py.of_string "bought", []);
               (Py.of_string "milk", [])]) as [H1 H2].
  - repeat constructor; discriminate.
  - repeat split; discriminate.
  - split; [exact H1|]. apply H2; [simpl; lia|reflexivity].
Defined.

(** C10, as first stated, fails.  The doubled word of [dont_dont] is no
    run of word characters, and the single-word pass and the cleaner keep
    it; a text under six tokens is returned before the pass; and of the
    twelve occurrences in [the_twelve_times] the cleaner keeps one in
    lower case, not the first one: the phrase pass has rewritten the run
    before the single-word pass. *)
Lemma doubled_word_is_kept :
  Py.split dont_dont
  = map Py.of_string ["I"; "said"; "don't"; "don't"; "do"; "that"; "now"]%string
  /\ collapse_words dont_dont = Ok dont_dont
  /\ _clean_repetitions dont_dont = Ok dont_dont
  /\ _clean_repetitions (Py.of_string "no no") = Ok (Py.of_string "no no")
  /\ _clean_repetitions the_twelve_times = Ok (Py.of_string "the end").
Proof. repeat split; vm_compute; reflexivity. Qed.

(** ** Filler-word densifier *)

(** What the densifier returns for [repeated_answer], whatever the two
    illegible literals are. *)
Lemma densify_repeated_answer (L : literals) (T : tools) (audio_path : string) (s : state) :
  segment_floor L = 10%nat \/ segment_floor L = 13%nat ->
  from_file T audio_path = Ok tt ->
  fst (_ensure_filler_words L T repeated_answer audio_path s)
  = Ok (merged_answer (if PrimFloat.ltb (um_threshold L) (random T (draws s)) then um else uh)).
Proof.
  intros Hfl Hff.
  unfold _ensure_filler_words, try_except, densify, bind, lift. rewrite Hff.
  replace (Nat.ltb 50 (length (Py.split repeated_answer))
           && PrimFloat.ltb
                (float_of_nat (Re.count_matches false filler_word (Py.lower repeated_answer)))
                (PrimFloat.div (float_of_nat (length (Py.split repeated_answer)))
                   (float_of_nat 50)))
    with true by (vm_compute; reflexivity).
  assert (Hseg : take 3 (List.filter (is_clean_segment L)
                           (Re.findall false clause repeated_answer))
                 = [Py.of_string " " ++ strength]).
  { destruct L as [rm rl fl th]. cbn [segment_floor] in Hfl.
    destruct Hfl as [-> | ->]; vm_compute; reflexivity. }
  assert (Hne : is_empty (List.filter (is_clean_segment L)
                            (Re.findall false clause repeated_answer)) = false).
  { destruct (List.filter _ _); [discriminate Hseg|reflexivity]. }
  rewrite Hne, Hseg. cbn [fold_]. unfold bind, densify_segment.
  replace (Nat.ltb (length (Py.strip (Py.of_string " " ++ strength))) (segment_floor L))
    with false
    by (destruct L as [rm rl fl th]; cbn [segment_floor] in *;
        destruct Hfl as [-> | ->]; vm_compute; reflexivity).
  replace (Nat.leb 6 (length (Py.split (Py.of_string " " ++ strength)))) with true
    by (vm_compute; reflexivity).
  unfold bind, random_random, ret. cbn [fst].
  destruct (PrimFloat.ltb (um_threshold L) (random T (draws s))); vm_compute; reflexivity.
Qed.

(** C1 fails on the code.  In [repeated_answer] the sentence said twice
    is the one clause without filler; the densifier rewrites both of its
    occurrences without their leading space, so that "say" and "my" become
    the single word "saymy": an original word is lost, whether words are
    split at white space or read as runs of word characters. *)
Theorem densifier_merges_two_words (L : literals) (T : tools) (audio_path : string)
    (s : state) :
  segment_floor L = 10%nat \/ segment_floor L = 13%nat ->
  from_file T audio_path = Ok tt ->
  exists filler,
    (filler = um \/ filler = uh)
    /\ fst (_ensure_filler_words L T repeated_answer audio_path s) = Ok (merged_answer filler)
    /\ occurs "say" (Py.split repeated_answer) = true
    /\ occurs "say" (Py.split (merged_answer filler)) = false
    /\ occurs "saymy" (Py.split (merged_answer filler)) = true
    /\ occurs "say" (word_tokens repeated_answer) = true
    /\ occurs "say" (word_tokens (merged_answer filler)) = false
    /\ occurs "saymy" (word_tokens (merged_answer filler)) = true.
Proof.
  intros Hfl Hff.
  exists (if PrimFloat.ltb (um_threshold L) (random T (draws s)) then um else uh).
  split; [destruct (PrimFloat.ltb _ _); [left|right]; reflexivity|].
  split; [exact (densify_repeated_answer L T audio_path s Hfl Hff)|].
  destruct (PrimFloat.ltb _ _); repeat split; vm_compute; reflexivity.
Qed.

Lemma densifier_merges_two_words_witness :
  fst (_ensure_filler_words sample_literals friendly_tools repeated_answer "/tmp/tmp0.wav"
         video_on_disk) = Ok (merged_answer um)
  /\ occurs "say" (word_tokens (merged_answer um)) = false.
Proof.
  destruct (densifier_merges_two_words sample_literals friendly_tools "/tmp/tmp0.wav"
              video_on_disk) as (filler & Hf & Hrun & _ & _ & _ & _ & Hlost & _).
  - left. reflexivity.
  - reflexivity.
  - assert (E : fst (_ensure_filler_words sample_literals friendly_tools repeated_answer
                       "/tmp/tmp0.wav" video_on_disk) = Ok (merged_answer um))
      by (vm_compute; reflexivity).
    rewrite E in Hrun. injection Hrun as Hm.
    split; [exact E|]. destruct Hf as [-> | ->]; [exact Hlost|].
    vm_compute. reflexivity.
Defined.

(** * Further properties *)

(** ** Speaking-rate estimator, further *)

Section RateMore.
Variable L : literals.

(** The word-count fallback is null exactly for a transcript without words. *)
Lemma fallback_none transcript :
  _calculate_fallback_speaking_rate L transcript = None
  <-> spoken_words transcript = [].
Proof.
  unfold _calculate_fallback_speaking_rate.
  destruct (spoken_words transcript) as [|w ws]; [split; reflexivity|].
  cbn [length Nat.eqb].
  destruct (Nat.ltb _ 20); [split; discriminate|].
  destruct (Nat.ltb _ 100); split; discriminate.
Qed.

(** Zero words over any elapsed time make a rate of zero, or no rate. *)
Lemma zero_words_rate (d : float) (wpm : Z) :
  int_of_float (PrimFloat.div (float_of_nat 0) d) = Ok wpm -> wpm = 0.
Proof.
  unfold int_of_float. rewrite div_spec.
  change (Prim2SF (float_of_nat 0)) with (S754_zero false).
  destruct (Prim2SF d) as [sg|sg| |sg m e]; cbn; intros H; congruence.
Qed.

(** The estimator as a choice between the fallback and a rate within the
    bounds. *)
Lemma rate_cases transcript timestamps r :
  _calculate_speaking_rate L transcript timestamps = Ok r ->
  r = _calculate_fallback_speaking_rate L transcript
  \/ exists first final wpm,
       head timestamps = Some first /\ last timestamps = Some final
       /\ timed_rate transcript first final = Some (Ok wpm)
       /\ 30 <= wpm <= 300 /\ r = Some wpm.
Proof.
  unfold _calculate_speaking_rate.
  destruct timestamps as [|first rest0]; [intros [= <-]; left; reflexivity|].
  destruct (last (first :: rest0)) as [final|] eqn:El; [|intros [= <-]; left; reflexivity].
  destruct (Nat.ltb _ 2); [intros [= <-]; left; reflexivity|].
  destruct (timed_rate transcript first final) as [[wpm|e]|] eqn:Et;
    [|discriminate|intros [= <-]; left; reflexivity].
  destruct (Z.ltb_spec wpm 30); [intros [= <-]; left; reflexivity|].
  destruct (Z.ltb_spec 300 wpm); [intros [= <-]; left; reflexivity|].
  cbn [orb]. intros [= <-]. right. exists first, final, wpm.
  repeat split; try assumption; try reflexivity; lia.
Qed.

End RateMore.

(** X1.  Whenever the estimator returns, the rate is null exactly when the
    transcript has no words, whatever the timestamps are. *)
Theorem null_rate_iff_no_words (L : literals) transcript timestamps r :
  _calculate_speaking_rate L transcript timestamps = Ok r ->
  r = None <-> spoken_words transcript = [].
Proof.
  intros H. destruct (rate_cases L transcript timestamps r H)
    as [->|(first & final & wpm & _ & _ & Ht & Hb & ->)].
  - apply fallback_none.
  - split; [discriminate|]. intros Hw. exfalso.
    unfold timed_rate in Ht. rewrite Hw in Ht. cbn [length] in Ht.
    destruct (PrimFloat.leb _ _); [discriminate|].
    injection Ht as Ht. apply zero_words_rate in Ht. lia.
Qed.

Lemma null_rate_iff_no_words_witness :
  @None Z = None <-> spoken_words (Py.of_string "  ") = [].
Proof.
  apply (null_rate_iff_no_words sample_literals (Py.of_string "  ") hi_there None).
  vm_compute. reflexivity.
Defined.

(** X2.  A rate that the estimator returns lies between 30 and 300, or is
    one of the three rates of the word-count fallback. *)
Theorem rate_is_plausible_or_fallback (L : literals) transcript timestamps wpm :
  _calculate_speaking_rate L transcript timestamps = Ok (Some wpm) ->
  30 <= wpm <= 300 \/ wpm = 120 \/ wpm = rate_medium L \/ wpm = rate_long L.
Proof.
  intros H. destruct (rate_cases L transcript timestamps _ H)
    as [E|(first & final & wpm' & _ & _ & _ & Hb & E)].
  - right. unfold _calculate_fallback_speaking_rate in E.
    destruct (Nat.eqb _ 0); [discriminate|].
    destruct (Nat.ltb _ 20); [injection E as ->; left; reflexivity|].
    destruct (Nat.ltb _ 100); injection E as ->; [right; left|right; right]; reflexivity.
  - injection E as ->. left. exact Hb.
Qed.

Lemma rate_is_plausible_or_fallback_witness :
  30 <= 64 <= 300 \/ 64 = 120 \/ 64 = rate_medium sample_literals
  \/ 64 = rate_long sample_literals.
Proof.
  apply (rate_is_plausible_or_fallback sample_literals seven_words seven_timings 64).
  vm_compute. reflexivity.
Defined.

(** X3.  With two timestamps or more, only the start of the first one and
    the end of the last one count: two lists of timestamps that agree on
    these give the same rate, whatever lies in between. *)
Theorem rate_ignores_inner_timestamps (L : literals) transcript
    (ts1 ts2 : list word_timing) (first1 final1 first2 final2 : word_timing) :
  head ts1 = Some first1 -> last ts1 = Some final1 -> (2 <= length ts1)%nat ->
  head ts2 = Some first2 -> last ts2 = Some final2 -> (2 <= length ts2)%nat ->
  start_time first1 = start_time first2 -> end_time final1 = end_time final2 ->
  _calculate_speaking_rate L transcript ts1 = _calculate_speaking_rate L transcript ts2.
Proof.
  intros Hh1 Hl1 Hn1 Hh2 Hl2 Hn2 Hs He.
  rewrite (rate_with_timestamps L transcript ts1 first1 final1 Hh1 Hl1 Hn1).
  rewrite (rate_with_timestamps L transcript ts2 first2 final2 Hh2 Hl2 Hn2).
  unfold timed_rate. rewrite Hs, He. reflexivity.
Qed.

Lemma rate_ignores_inner_timestamps_witness :
  _calculate_speaking_rate sample_literals seven_words seven_timings
  = _calculate_speaking_rate sample_literals seven_words
      [WordTiming (Py.of_string "one") 0%float 0.5%float;
       WordTiming (Py.of_string "two") 0.5%float 1%float;
       WordTiming (Py.of_string "seven") 6.25%float 6.5%float].
Proof.
  refine (rate_ignores_inner_timestamps sample_literals seven_words seven_timings _
            (WordTiming (Py.of_string "one") 0%float 1%float)
            (WordTiming (Py.of_string "seven") 6%float 6.5%float)
            (WordTiming (Py.of_string "one") 0%float 0.5%float)
            (WordTiming (Py.of_string "seven") 6.25%float 6.5%float) _ _ _ _ _ _ _ _);
    try reflexivity; simpl; lia.
Defined.

(** ** Repetition cleaner, further *)

Section Forward.
Import Py Re.

Lemma further_refl r s : further r s s.
Proof. split; [exists []; reflexivity|exists []; split; [reflexivity|constructor]]. Qed.

Lemma further_trans r1 r2 r s s1 s2 :
  (forall n, has_group n r1 = true -> has_group n r = true) ->
  (forall n, has_group n r2 = true -> has_group n r = true) ->
  further r1 s s1 -> further r2 s1 s2 -> further r s s2.
Proof.
  intros H1 H2 [[x Hx] (new & Hc & Hn)] [[x' Hx'] (new' & Hc' & Hn')]. split.
  - exists (x ++ x'). rewrite Hx, Hx', app_assoc. reflexivity.
  - exists (new' ++ new). split; [rewrite Hc', Hc, app_assoc; reflexivity|].
    apply Forall_app. split; eapply Forall_impl; eauto; intros p Hp; cbn in *; auto.
Qed.

Lemma further_weaken r r' s s1 :
  (forall n, has_group n r = true -> has_group n r' = true) ->
  further r s s1 -> further r' s s1.
Proof.
  intros H [Hx (new & Hc & Hn)]. split; [exact Hx|].
  exists new. split; [exact Hc|]. eapply Forall_impl; [exact Hn|]. intros p. apply H.
Qed.

(** The loop of a repetition only goes further. *)
Lemma rep_loop_forward r1 body greedy lo k :
  (forall s k' s2, body s k' = Some s2 -> exists s1, k' s1 = Some s2 /\ further r1 s s1) ->
  forall fuel count s s2,
  rep_loop body greedy lo k fuel count s = Some s2 ->
  exists s1, k s1 = Some s2 /\ further r1 s s1.
Proof.
  intros Hbody. induction fuel as [|fuel IH]; intros count s s2 H; [discriminate|].
  rewrite rep_loop_step in H. cbv zeta in H.
  assert (Hmore : forall s2',
    body s (fun s1 => if Nat.ltb (length (rest s1)) (length (rest s))
                      then rep_loop body greedy lo k fuel (S count) s1 else None)
    = Some s2' -> exists s1, k s1 = Some s2' /\ further r1 s s1).
  { intros s2' Hm. apply Hbody in Hm as (s1 & Hk & Hf).
    destruct (Nat.ltb _ _); [|discriminate].
    apply IH in Hk as (s1' & Hk & Hf'). exists s1'. split; [exact Hk|].
    exact (further_trans r1 r1 r1 s s1 s1' (fun _ h => h) (fun _ h => h) Hf Hf'). }
  assert (Hstop : forall s2',
    (if Nat.leb lo count then k s else None) = Some s2' ->
    exists s1, k s1 = Some s2' /\ further r1 s s1).
  { intros s2' Hs. destruct (Nat.leb lo count); [|discriminate].
    exists s. split; [exact Hs|apply further_refl]. }
  destruct greedy; unfold orelse in H.
  - destruct (body s _) as [s3|] eqn:E.
    + injection H as <-. apply Hmore. reflexivity.
    + apply Hstop. exact H.
  - destruct (if Nat.leb lo count then k s else None) as [s3|] eqn:E.
    + injection H as <-. apply Hstop. reflexivity.
    + apply Hmore. exact H.
Qed.

(** A match only goes further in the subject, and records only groups of
    the pattern. *)
Lemma rmatch_forward ic r : forall s k s2,
  rmatch ic r s k = Some s2 -> exists s1, k s1 = Some s2 /\ further r s s1.
Proof.
  induction r as [c|q| |r1 IH1 r2 IH2|r1 IH1 r2 IH2|greedy lo r1 IH1|n r1 IH1|n| |];
    intros s k s2 H.
  - cbn [rmatch] in H. destruct (rest s) as [|x r'] eqn:E; [discriminate|].
    destruct (same_char ic c x); [|discriminate].
    exists (step x r' s). split; [exact H|]. split.
    + exists [x]. rewrite E. reflexivity.
    + exists []. split; [reflexivity|constructor].
  - cbn [rmatch] in H. destruct (rest s) as [|x r'] eqn:E; [discriminate|].
    destruct (q x); [|discriminate].
    exists (step x r' s). split; [exact H|]. split.
    + exists [x]. rewrite E. reflexivity.
    + exists []. split; [reflexivity|constructor].
  - exists s. split; [exact H|apply further_refl].
  - rewrite rmatch_cat in H. apply IH1 in H as (s1 & H & Hf1).
    apply IH2 in H as (s1' & H & Hf2). exists s1'. split; [exact H|].
    apply (further_trans r1 r2 _ s s1 s1'); try assumption;
      intros m Hm; cbn [has_group]; rewrite Hm; [reflexivity|apply orb_true_r].
  - cbn [rmatch] in H. unfold orelse in H.
    destruct (rmatch ic r1 s k) as [s3|] eqn:E.
    + injection H as <-. apply IH1 in E as (s1 & H & Hf). exists s1. split; [exact H|].
      apply (further_weaken r1); [|exact Hf].
      intros m Hm. cbn [has_group]. rewrite Hm. reflexivity.
    + apply IH2 in H as (s1 & H & Hf). exists s1. split; [exact H|].
      apply (further_weaken r2); [|exact Hf].
      intros m Hm. cbn [has_group]. rewrite Hm. apply orb_true_r.
  - rewrite rmatch_rep in H.
    apply (rep_loop_forward r1 (rmatch ic r1) greedy lo k IH1) in H. exact H.
  - rewrite rmatch_grp in H. apply IH1 in H as (s1 & H & [[x Hx] (new & Hc & Hn)]).
    eexists. split; [exact H|]. split.
    + exists x. exact Hx.
    + cbn [caps]. eexists (_ :: new). split; [rewrite Hc; reflexivity|].
      constructor.
      * cbn [fst has_group]. rewrite Nat.eqb_refl. reflexivity.
      * eapply Forall_impl; [exact Hn|]. intros p Hp. cbn [has_group].
        cbn in Hp. rewrite Hp. apply orb_true_r.
  - rewrite rmatch_ref in H. destruct (cap n s) as [g|]; [|discriminate].
    destruct (same_prefix ic g (rest s)); [|discriminate].
    exists (advance (length g) s). split; [exact H|]. split.
    + exists (take (length g) (rest s)). cbn [advance rest]. symmetry. apply take_drop.
    + exists []. split; [reflexivity|constructor].
  - rewrite rmatch_bnd in H. destruct (at_boundary s); [|discriminate].
    exists s. split; [exact H|apply further_refl].
  - cbn [rmatch] in H. destruct (at_end s); [|discriminate].
    exists s. split; [exact H|apply further_refl].
Qed.

(** What an attempt at a position leaves is a suffix of what it found. *)
Lemma match_here_forward ic r must s s1 :
  match_here ic r must s = Some s1 ->
  further r (MState (prev s) (rest s) []) s1.
Proof.
  unfold match_here. intros H. apply rmatch_forward in H as (s1' & H & Hf).
  destruct (_ && _); [discriminate|]. injection H as ->. exact Hf.
Qed.

Lemma match_here_rest ic r must s s1 :
  match_here ic r must s = Some s1 ->
  rest s = take (length (rest s) - length (rest s1)) (rest s) ++ rest s1.
Proof.
  intros H. apply match_here_forward in H as [[x Hx] _]. cbn [rest] in Hx.
  rewrite Hx at 2 3. rewrite length_app, Nat.add_sub, take_app_length. exact Hx.
Qed.

(** A search cuts what is left in three: skipped, matched, left. *)
Lemma search_from_cut ic r : forall fuel must skipped s sk matched s1,
  search_from ic r must fuel skipped s = Some (sk, matched, s1) ->
  exists must' s0,
    match_here ic r must' s0 = Some s1
    /\ matched = take (length (rest s0) - length (rest s1)) (rest s0)
    /\ rev skipped ++ rest s = sk ++ rest s0.
Proof.
  induction fuel as [|fuel IH]; intros must skipped s sk matched s1 H;
    cbn [search_from] in H.
  - destruct (match_here ic r must s) as [s1'|] eqn:E; [|destruct (rest s); discriminate].
    injection H as <- <- <-. exists must, s. repeat split. exact E.
  - destruct (match_here ic r must s) as [s1'|] eqn:E.
    + injection H as <- <- <-. exists must, s. repeat split. exact E.
    + destruct (rest s) as [|c r'] eqn:Er; [discriminate|].
      apply IH in H as (must' & s0 & Hm & Hmatched & Hcut).
      exists must', s0. split; [exact Hm|]. split; [exact Hmatched|].
      rewrite <- Hcut. cbn [rev rest]. rewrite <- app_assoc. reflexivity.
Qed.

(** The substitution does not lengthen the subject when no replacement
    is longer than the match it stands for. *)
Lemma matches_from_shrink ic r ps :
  (forall must s0 s1, match_here ic r must s0 = Some s1 ->
     (length (expand ps (take (length (rest s0) - length (rest s1)) (rest s0)) s1)
      <= length (rest s0) - length (rest s1))%nat) ->
  forall fuel must s,
  (length (flat_map (fun m : text * text * mstate =>
                       let '(skipped, matched, s1) := m in
                       skipped ++ expand ps matched s1)
                    (fst (matches_from ic r fuel must s))
           ++ snd (matches_from ic r fuel must s))
   <= length (rest s))%nat.
Proof.
  intros Hexp. induction fuel as [|fuel IH]; intros must s; [simpl; lia|].
  rewrite matches_from_step.
  destruct (search_from ic r must (length (rest s)) [] s) as [[[sk matched] s1]|] eqn:E;
    [|simpl; lia].
  specialize (IH (Nat.eqb (length matched) 0) s1).
  destruct (matches_from ic r fuel (Nat.eqb (length matched) 0) s1) as [more tail].
  cbn [fst snd flat_map] in *.
  apply search_from_cut in E as (must' & s0 & Hm & -> & Hcut). cbn [rev app] in Hcut.
  pose proof (Hexp must' s0 s1 Hm) as Hlen.
  pose proof (match_here_rest ic r must' s0 s1 Hm) as Hrest.
  apply (f_equal (@length ascii)) in Hrest, Hcut.
  rewrite !length_app in *. lia.
Qed.

Lemma sub_pieces_shrink ic r ps s :
  (forall must s0 s1, match_here ic r must s0 = Some s1 ->
     (length (expand ps (take (length (rest s0) - length (rest s1)) (rest s0)) s1)
      <= length (rest s0) - length (rest s1))%nat) ->
  (length (sub_pieces ic r ps s) <= length s)%nat.
Proof.
  intros H. unfold sub_pieces, all_matches.
  pose proof (matches_from_shrink ic r ps H (2 * length s + 2) false (start_of s)) as Hs.
  destruct (matches_from _ _ _ _ _) as [ms tail]. exact Hs.
Qed.

End Forward.

Section Shrinking.
Import Py Re.

(** What matches an escaped text has the length of that text. *)
Lemma literal_forward ic p : forall s k s2,
  rmatch ic (literal p) s k = Some s2 ->
  exists s1, k s1 = Some s2
             /\ (exists x, rest s = x ++ rest s1 /\ length x = length p)
             /\ caps s1 = caps s.
Proof.
  induction p as [|a p IH]; intros s k s2 H.
  - exists s. split; [exact H|]. split; [exists []; split; reflexivity|reflexivity].
  - cbn [literal foldr] in H. rewrite rmatch_cat in H. cbn [rmatch] in H.
    destruct (rest s) as [|x r'] eqn:E; [discriminate|].
    destruct (same_char ic a x); [|discriminate].
    apply IH in H as (s1 & H & (y & Hy & Hlen) & Hc).
    exists s1. split; [exact H|]. split; [|exact Hc].
    exists (x :: y). cbn [step rest] in Hy. rewrite Hy. split; [reflexivity|].
    simpl. rewrite Hlen. reflexivity.
Qed.

(** A match of the phrase said twice is longer than the first phrase. *)
Lemma phrase_twice_longer p1 p2 must s0 s1 :
  match_here true (phrase_twice p1 p2) must s0 = Some s1 ->
  (length p1 <= length (rest s0) - length (rest s1))%nat.
Proof.
  unfold match_here, phrase_twice. rewrite rmatch_cat. intros H.
  apply literal_forward in H as (sa & H & (x & Hx & Hlen) & _).
  apply rmatch_forward in H as (sb & H & [[y Hy] _]).
  destruct (_ && _); [discriminate|]. injection H as ->.
  cbn [rest] in Hx. rewrite Hx, Hy, !length_app. lia.
Qed.

(** The words of a text are made of its characters. *)
Lemma split_from_chars (P : ascii -> Prop) : forall s acc,
  Forall P s -> Forall P acc -> Forall (Forall P) (split_from acc s).
Proof.
  induction s as [|c s IH]; intros acc Hs Hacc.
  - cbn [split_from]. destruct acc; [constructor|].
    constructor; [|constructor]. apply Forall_rev. exact Hacc.
  - apply Forall_cons in Hs as [Hc Hs]. cbn [split_from].
    destruct (isspace c).
    + destruct acc as [|a acc]; [apply IH; [exact Hs|constructor]|].
      constructor; [apply Forall_rev; exact Hacc|apply IH; [exact Hs|constructor]].
    + apply IH; [exact Hs|]. constructor; assumption.
Qed.

Lemma join_chars (P : ascii -> Prop) ws :
  P " "%char -> Forall (Forall P) ws -> Forall P (join space ws).
Proof.
  intros Hsp. induction ws as [|w ws IH]; intros H; [constructor|].
  apply Forall_cons in H as [Hw H].
  destruct ws as [|w' ws]; [exact Hw|].
  rewrite join_cons. apply Forall_app. split; [exact Hw|].
  apply Forall_cons. split; [exact Hsp|exact (IH H)].
Qed.

(** A phrase taken from a text without backslash has none. *)
Lemma phrase_plain text i j : plain text -> plain (join space (slice i j (split text))).
Proof.
  intros H. apply join_chars; [reflexivity|].
  apply Forall_slice. apply split_from_chars; [exact H|constructor].
Qed.

(** One window: with a phrase without backslash the substitution returns,
    and does not lengthen the text. *)
Lemma collapse_window_shrinks text m i cleaned :
  plain text ->
  exists r, collapse_window (split text) m i cleaned = Ok r
            /\ (length r <= length cleaned)%nat.
Proof.
  intros Hp. unfold collapse_window.
  destruct (eqt _ _); [|exists cleaned; split; [reflexivity|lia]].
  set (p1 := join space (slice i (i + m) (split text))).
  set (p2 := join space (slice (i + m) (i + m * 2) (split text))).
  unfold sub.
  rewrite (template_plain 0 p1 (length p1) (phrase_plain text _ _ Hp)) by lia.
  eexists. split; [reflexivity|].
  apply sub_pieces_shrink. intros must s0 s1 Hm.
  rewrite expand_plain. exact (phrase_twice_longer p1 p2 must s0 s1 Hm).
Qed.

Lemma for_each_shrinks {A} (f : A -> text -> result text) (l : list A) :
  (forall a b, exists r, f a b = Ok r /\ (length r <= length b)%nat) ->
  forall b, exists r, for_each f l b = Ok r /\ (length r <= length b)%nat.
Proof.
  intros Hf. induction l as [|a l IH]; intros b.
  - exists b. split; [reflexivity|lia].
  - cbn [for_each]. destruct (Hf a b) as (r & -> & Hr).
    destruct (IH r) as (r' & Hr' & Hlen). exists r'. split; [exact Hr'|lia].
Qed.

Lemma collapse_phrases_shrinks text m cleaned :
  plain text ->
  exists r, collapse_phrases (split text) m cleaned = Ok r
            /\ (length r <= length cleaned)%nat.
Proof.
  intros Hp. unfold collapse_phrases.
  destruct (Nat.ltb _ _); [exists cleaned; split; [reflexivity|lia]|].
  apply for_each_shrinks. intros i b. apply collapse_window_shrinks. exact Hp.
Qed.

(** Only [Grp 2] occurs in the repeated part of [repeated_word]. *)
Lemma group1_kept new got :
  Forall (fun p : nat * text => has_group (fst p) (plus word_again) = true) new ->
  cap 1 (MState None [] (new ++ [(1%nat, got)])) = Some got.
Proof.
  induction new as [|[n g] new IH]; intros H; [reflexivity|].
  apply Forall_cons in H as [Hn H]. cbn in Hn.
  destruct n as [|[|[|n]]]; try discriminate Hn.
  unfold cap in *. cbn [caps app List.find fst Nat.eqb] in *. exact (IH H).
Qed.

(** The first group of a match of [repeated_word] is not longer than the
    match. *)
Lemma repeated_word_group must s0 s1 :
  match_here true repeated_word must s0 = Some s1 ->
  (length (default [] (cap 1 s1)) <= length (rest s0) - length (rest s1))%nat.
Proof.
  unfold match_here, repeated_word.
  change (Grp 2 (Cat (plus (Cls isspace)) (Cat (Ref 1) Bnd))) with word_again.
  rewrite rmatch_cat, rmatch_bnd. destruct (at_boundary _); [|discriminate].
  rewrite rmatch_cat, rmatch_grp. intros H.
  apply rmatch_forward in H as (sa & H & [[x Hx] (new & Hc & Hn)]).
  cbn [rest caps] in *.
  assert (new = []) as ->.
  { destruct new as [|p new]; [reflexivity|]. apply Forall_cons in Hn as [Hn _].
    discriminate Hn. }
  rewrite app_nil_l in Hc.
  apply rmatch_forward in H as (sb & H & [[y Hy] (new2 & Hc2 & Hn2)]).
  destruct (_ && _); [discriminate|]. injection H as ->.
  cbn [rest caps] in *. rewrite Hc in Hc2.
  assert (Hcap : cap 1 s1 = Some (take (length (rest s0) - length (rest sa)) (rest s0))).
  { unfold cap. rewrite Hc2. apply (group1_kept new2 _ Hn2). }
  rewrite Hcap. unfold default. cbn [from_option id].
  rewrite length_take, Hx, Hy, !length_app. lia.
Qed.

Lemma collapse_words_shrinks cleaned :
  exists r, collapse_words cleaned = Ok r /\ (length r <= length cleaned)%nat.
Proof.
  unfold collapse_words, sub.
  change (parse_template 2 (length (of_string "\1")) (of_string "\1")) with (Ok [PGroup 1]).
  eexists. split; [reflexivity|].
  apply sub_pieces_shrink. intros must s0 s1 Hm.
  unfold expand. cbn [flat_map]. rewrite app_nil_r.
  exact (repeated_word_group must s0 s1 Hm).
Qed.

(** The cleaner on a text without backslash. *)
Lemma clean_repetitions_shrinks text :
  plain text ->
  exists r, _clean_repetitions text = Ok r /\ (length r <= length text)%nat.
Proof.
  intros Hp. unfold _clean_repetitions.
  destruct (Nat.ltb _ 6); [exists text; split; [reflexivity|lia]|].
  destruct (for_each_shrinks (collapse_phrases (split text)) (seq 3 (6 - 3))
              (fun m b => collapse_phrases_shrinks text m b Hp) text) as (r & -> & Hr).
  destruct (collapse_words_shrinks r) as (r' & Hr' & Hlen).
  exists r'. split; [exact Hr'|lia].
Qed.

(** In a list without duplicate, two adjacent windows differ. *)
Lemma windows_differ {A} (l : list A) (m i : nat) :
  NoDup l -> (0 < m)%nat -> (i + m * 2 <= length l)%nat ->
  slice i (i + m) l <> slice (i + m) (i + m * 2) l.
Proof.
  intros Hnd Hm Hi E. unfold slice in E.
  replace (i + m - i)%nat with m in E by lia.
  replace (i + m * 2 - (i + m))%nat with m in E by lia.
  apply (f_equal (fun x => x !! 0%nat)) in E.
  rewrite !lookup_take_lt, !lookup_drop, !Nat.add_0_r in E by lia.
  destruct (lookup_lt_is_Some_2 l i ltac:(lia)) as [x Hx]. rewrite Hx in E.
  pose proof (NoDup_lookup l i (i + m) x Hnd Hx (eq_sym E)). lia.
Qed.

Lemma distinct_window_kept ws m i t :
  Forall is_word ws -> NoDup (map lower ws) ->
  (0 < m)%nat -> (i + m * 2 <= length ws)%nat ->
  collapse_window ws m i t = Ok t.
Proof.
  intros Hw Hnd Hm Hi. unfold collapse_window.
  destruct (eqt _ _) eqn:E; [|reflexivity]. exfalso.
  apply join_lower_inj in E; [|apply Forall_slice; assumption..].
  rewrite !map_slice in E. revert E.
  apply windows_differ; [exact Hnd|exact Hm|rewrite length_map; exact Hi].
Qed.

End Shrinking.

(** X4.  On a text without backslash the cleaner returns: no replacement
    template that it builds from the words of the text can be rejected. *)
Theorem cleaner_returns_without_backslash (text : Py.text) :
  plain text -> exists cleaned, _clean_repetitions text = Ok cleaned.
Proof.
  intros Hp. destruct (clean_repetitions_shrinks text Hp) as (r & Hr & _).
  exists r. exact Hr.
Qed.

Lemma cleaner_returns_without_backslash_witness :
  exists cleaned, _clean_repetitions stutter = Ok cleaned.
Proof.
  apply (cleaner_returns_without_backslash stutter).
  unfold plain, stutter. repeat constructor.
Defined.

(** X5.  On a text without backslash the cleaner never lengthens the
    text: every substitution puts the first phrase, or the first word, in
    place of a match that begins with it. *)
Theorem cleaner_never_lengthens (text cleaned : Py.text) :
  plain text -> _clean_repetitions text = Ok cleaned ->
  (length cleaned <= length text)%nat.
Proof.
  intros Hp H. destruct (clean_repetitions_shrinks text Hp) as (r & Hr & Hlen).
  rewrite H in Hr. injection Hr as <-. exact Hlen.
Qed.

Lemma cleaner_never_lengthens_witness :
  (length (Py.of_string "so I think so I think we can go") <= length stutter)%nat.
Proof.
  apply (cleaner_never_lengthens stutter (Py.of_string "so I think so I think we can go")).
  - unfold plain, stutter. repeat constructor.
  - vm_compute. reflexivity.
Defined.

(** X6.  A text made of words that all differ, up to the case, and are
    separated by single spaces is returned as it is, however long it
    is. *)
Theorem distinct_words_are_kept (ws : list Py.text) :
  Forall is_word ws -> NoDup (map Py.lower ws) ->
  _clean_repetitions (Py.join space ws) = Ok (Py.join space ws).
Proof.
  intros Hw Hnd. unfold _clean_repetitions. rewrite (split_join ws Hw).
  destruct (Nat.ltb _ 6); [reflexivity|].
  rewrite for_each_kept; [apply collapse_words_kept; assumption|].
  intros m Hm. apply elem_of_seq in Hm. unfold collapse_phrases.
  destruct (Nat.ltb_spec (length ws) (m * 2)); [reflexivity|].
  apply for_each_kept. intros i Hi. apply elem_of_seq in Hi.
  apply distinct_window_kept; try assumption; lia.
Qed.

Lemma distinct_words_are_kept_witness :
  _clean_repetitions (Py.of_string "I went to the store and bought milk")
  = Ok (Py.of_string "I went to the store and bought milk").
Proof.
  refine (distinct_words_are_kept
            (map Py.of_string ["I"; "went"; "to"; "the"; "store"; "and"; "bought"; "milk"]%string)
            _ _).
  - repeat constructor; try discriminate.
  - repeat (constructor;
            [intros H; repeat (apply elem_of_cons in H as [H|H]; [vm_compute in H; discriminate H|]);
             inversion H|]).
    constructor.
Defined.

(** ** Filler-word densifier, further *)

Section Densifier.
Variables (L : literals) (T : tools).

Lemma densify_segment_draws segment modified s :
  (draws s <= draws (snd (densify_segment L T segment modified s)) <= S (draws s))%nat.
Proof.
  unfold densify_segment.
  destruct (Nat.ltb _ _); [simpl; lia|].
  destruct (Nat.leb _ _); simpl; lia.
Qed.

Lemma fold_densify_draws (l : list Py.text) : forall modified s,
  (draws s <= draws (snd (fold_ (densify_segment L T) l modified s))
   <= draws s + length l)%nat.
Proof.
  induction l as [|seg l IH]; intros modified s; [simpl; lia|].
  cbn [fold_ length]. unfold bind.
  pose proof (densify_segment_draws seg modified s) as Hd.
  destruct (densify_segment L T seg modified s) as [[m|e] s1]; cbn [snd] in *.
  - specialize (IH m s1). lia.
  - lia.
Qed.

End Densifier.

(** X7.  A transcript of at most 50 words is returned as it is by the
    densifier, whatever the audio file is, and no random number is
    drawn. *)
Theorem short_transcript_is_not_densified (L : literals) (T : tools)
    (transcript : Py.text) (audio_path : string) (s : state) :
  (length (Py.split transcript) <= 50)%nat ->
  fst (_ensure_filler_words L T transcript audio_path s) = Ok transcript
  /\ draws (snd (_ensure_filler_words L T transcript audio_path s)) = draws s.
Proof.
  intros H. unfold _ensure_filler_words, try_except, densify, bind, lift.
  destruct (from_file T audio_path) as [[]|e]; [|split; reflexivity].
  destruct (Nat.ltb_spec 50 (length (Py.split transcript))); [lia|].
  split; reflexivity.
Qed.

Lemma short_transcript_is_not_densified_witness :
  fst (_ensure_filler_words sample_literals friendly_tools five_words "/tmp/a.wav"
         video_on_disk) = Ok five_words
  /\ draws (snd (_ensure_filler_words sample_literals friendly_tools five_words "/tmp/a.wav"
                   video_on_disk)) = draws video_on_disk.
Proof.
  apply (short_transcript_is_not_densified sample_literals friendly_tools five_words
           "/tmp/a.wav" video_on_disk).
  vm_compute. lia.
Defined.

(** X8.  The densifier draws at most three random numbers, one for each
    clause it rewrites, and leaves the files on disk alone. *)
Theorem densifier_draws_at_most_three (L : literals) (T : tools)
    (transcript : Py.text) (audio_path : string) (s : state) :
  let s' := snd (_ensure_filler_words L T transcript audio_path s) in
  (draws s <= draws s' <= draws s + 3)%nat /\ files s' = files s.
Proof.
  cbv zeta. split; [|apply keeps_ensure_filler_words].
  unfold _ensure_filler_words, try_except, densify, bind, lift.
  destruct (from_file T audio_path) as [[]|e]; [|simpl; lia].
  destruct (_ && _); [|simpl; lia].
  destruct (is_empty _); [simpl; lia|].
  match goal with
  | |- context [fold_ ?f ?l ?b ?s0] =>
      pose proof (fold_densify_draws L T l b s0) as Hd;
      assert (Hl : (length l <= 3)%nat) by (rewrite length_take; lia);
      revert Hd; destruct (fold_ f l b s0) as [[m|e] s1]; intros Hd
  end; simpl; destruct Hd as [Hd1 Hd2];
    (split; [exact Hd1|]; eapply Nat.le_trans; [exact Hd2|];
     apply Nat.add_le_mono_l; exact Hl).
Qed.

Section OneClause.
Import Py Re.

Lemma word_char_not_clause_end c : isword c = true -> is_clause_end c = false.
Proof.
  destruct c as [b0 b1 b2 b3 b4 b5 b6 b7];
    destruct b0, b1, b2, b3, b4, b5, b6, b7; vm_compute; try reflexivity; discriminate.
Qed.

Lemma word_char_not_newline c : isword c = true -> N.eqb (code c) 10 = false.
Proof.
  destruct c as [b0 b1 b2 b3 b4 b5 b6 b7];
    destruct b0, b1, b2, b3, b4, b5, b6, b7; vm_compute; try reflexivity; discriminate.
Qed.

(** A lazy run over a class goes on as long as what follows cannot
    match. *)
Lemma rep_cls_lazy ic q k c0 r : forall x pv fuel count,
  all_in q x ->
  (forall x1 a x2, x = x1 ++ a :: x2 ->
     k (MState (last_of pv x1) (a :: x2 ++ r) c0) = None) ->
  (length (x ++ r) < fuel)%nat ->
  rep_loop (rmatch ic (Cls q)) false 0 k fuel count (MState pv (x ++ r) c0)
  = rep_loop (rmatch ic (Cls q)) false 0 k (fuel - length x) (count + length x)
      (MState (last_of pv x) r c0).
Proof.
  induction x as [|a x IH]; intros pv fuel count Hx Hk Hfuel.
  - cbn [app length last_of last]. rewrite Nat.sub_0_r, Nat.add_0_r. reflexivity.
  - destruct fuel as [|fuel]; [simpl in Hfuel; lia|].
    apply Forall_cons in Hx as [Ha Hx].
    rewrite rep_loop_step. cbv zeta. cbn [Nat.leb].
    pose proof (Hk [] a x eq_refl) as H0. cbn [app last_of last] in H0.
    cbn [app]. rewrite H0. cbn [orelse].
    rewrite rmatch_cls, Ha. unfold step. cbn [rest caps].
    destruct (Nat.ltb_spec (length (x ++ r)) (length (a :: x ++ r))) as [_|Hbad];
      [|simpl in Hbad; lia].
    rewrite IH; [| exact Hx | | simpl in Hfuel; lia].
    + rewrite last_of_cons. cbn [length]. f_equal; lia.
    + intros x1 b x2 ->. rewrite <- (last_of_cons pv). apply (Hk (a :: x1) b x2 eq_refl).
Qed.

(** After the clause pattern's run, only its end is left to match. *)
Lemma clause_end_fails pv a r c0 k :
  is_clause_end a = false -> (r = [] -> N.eqb (code a) 10 = false) ->
  rmatch false (Alt (Cls is_clause_end) Eos) (MState pv (a :: r) c0) k = None.
Proof.
  intros Ha Hr. cbn [rmatch rest]. rewrite Ha. cbn [orelse].
  unfold at_end. cbn [rest]. destruct r; [rewrite Hr by reflexivity|]; reflexivity.
Qed.

(** The clauses of a text without clause punctuation that does not end
    with a newline: the text itself, and the empty clause at its end. *)
Lemma one_clause t a :
  none_in is_clause_end (t ++ [a]) -> N.eqb (code a) 10 = false ->
  findall false clause (t ++ [a]) = [t ++ [a]; []].
Proof.
  intros Hnone Hnl. set (x := t ++ [a]) in *.
  assert (Hx : x <> []) by (subst x; destruct t; discriminate).
  assert (Hclass : all_in (fun c => negb (is_clause_end c)) x).
  { eapply Forall_impl; [exact Hnone|]. intros c Hc. cbn in *. rewrite Hc. reflexivity. }
  assert (Hm : forall k0 pv,
    rmatch false clause (MState pv x []) k0 = k0 (MState (last_of pv x) [] [])).
  { intros k0 pv. unfold clause. rewrite rmatch_cat, rmatch_rep. cbn [rest].
    rewrite <- (app_nil_r x) at 2.
    rewrite (rep_cls_lazy false _ _ [] [] x pv _ 0 Hclass); [| |rewrite app_nil_r; lia].
    2:{ intros x1 b x2 E. apply clause_end_fails.
        - apply (proj1 (Forall_forall _ _) Hnone). rewrite E.
          apply elem_of_app. right. apply elem_of_cons. left. reflexivity.
        - intros E2. apply app_eq_nil in E2 as [-> _]. subst x.
          apply app_inj_tail in E as [_ <-]. exact Hnl. }
    replace (S (length x) - length x)%nat with 1%nat by lia.
    rewrite rep_loop_step. cbv zeta. cbn [Nat.leb].
    cbn [rmatch rest orelse at_end]. destruct (k0 _); reflexivity. }
  unfold findall, all_matches.
  replace (2 * length x + 2)%nat with (S (S (S (2 * length x - 1)))) by
    (destruct x; [congruence|simpl; lia]).
  rewrite matches_from_step. unfold start_of. cbn [rest].
  assert (H1 : match_here false clause false (MState None x [])
               = Some (MState (last_of None x) [] [])).
  { unfold match_here. cbn [prev rest andb]. rewrite Hm. reflexivity. }
  rewrite (search_hit _ _ _ _ _ _ _ H1). cbn [rest length].
  rewrite Nat.sub_0_r, firstn_all.
  replace (Nat.eqb (length x) 0) with false by (destruct x; [congruence|reflexivity]).
  rewrite matches_from_step. cbn [rest length].
  assert (H2 : forall pv, match_here false clause false (MState pv [] [])
                          = Some (MState pv [] [])).
  { intros pv. reflexivity. }
  rewrite (search_hit _ _ _ _ _ _ _ (H2 _)). cbn [rest length Nat.sub take Nat.eqb].
  rewrite matches_from_step. cbn [rest length search_from].
  assert (H3 : forall pv, match_here false clause true (MState pv [] []) = None).
  { intros pv. reflexivity. }
  rewrite H3. reflexivity.
Qed.

(** [str.replace] of a whole string. *)
Lemma replace_go_skip old new : forall s skip,
  (length s <= skip)%nat -> replace_go old new skip s = [].
Proof.
  induction s as [|c s IH]; intros skip H; [reflexivity|].
  destruct skip as [|n]; [simpl in H; lia|]. cbn [replace_go]. apply IH. simpl in H. lia.
Qed.

Lemma starts_with_self s r : starts_with s (s ++ r) = true.
Proof.
  induction s as [|c s IH]; [reflexivity|]. cbn [app starts_with].
  rewrite eqc_refl. exact IH.
Qed.

Lemma replace_self old new : old <> [] -> replace old new old = new.
Proof.
  intros H. destruct old as [|c s]; [congruence|]. cbn [replace replace_go].
  rewrite <- (app_nil_r (c :: s)) at 2. rewrite starts_with_self.
  rewrite replace_go_skip by (simpl; lia). apply app_nil_r.
Qed.

Lemma join_length ws : Forall is_word ws -> (length ws <= length (join space ws))%nat.
Proof.
  induction ws as [|w ws IH]; intros H; [simpl; lia|].
  apply Forall_cons in H as [[Hne _] H]. specialize (IH H).
  assert (1 <= length w)%nat by (destruct w; [congruence|simpl; lia]).
  destruct ws as [|w' ws]; [simpl; lia|].
  rewrite join_cons, !length_app. cbn [length] in *. lia.
Qed.

Lemma join_ends_with_word ws :
  ws <> [] -> Forall is_word ws ->
  exists p a, join space ws = p ++ [a] /\ isword a = true.
Proof.
  induction ws as [|w ws IH]; intros Hne H; [congruence|].
  apply Forall_cons in H as [[Hw0 Hw] H].
  destruct ws as [|w' ws].
  - destruct (exists_last Hw0) as (p & a & ->). exists p, a. split; [reflexivity|].
    apply Forall_app in Hw as [_ Hw]. apply Forall_cons in Hw as [Ha _]. exact Ha.
  - destruct (IH ltac:(discriminate) H) as (p & a & E & Ha).
    exists (w ++ space ++ p), a. rewrite join_cons, E, <- !app_assoc. split; [reflexivity|exact Ha].
Qed.

Lemma join_no_clause_end ws : Forall is_word ws -> none_in is_clause_end (join space ws).
Proof.
  intros H. apply join_chars; [reflexivity|].
  eapply Forall_impl; [exact H|]. intros w [_ Hw].
  eapply Forall_impl; [exact Hw|]. intros c. apply word_char_not_clause_end.
Qed.

(** A phrase of words has no white space around it. *)
Lemma strip_join ws : Forall is_word ws -> strip (join space ws) = join space ws.
Proof.
  intros H. destruct ws as [|w0 ws0] eqn:Ews; [reflexivity|]. rewrite <- Ews in *.
  assert (Hne : ws <> []) by (rewrite Ews; discriminate).
  destruct (join_starts_with_word ws Hne H) as (a & p & E & Ha).
  destruct (join_ends_with_word ws Hne H) as (q & b & E' & Hb).
  unfold strip. rewrite E at 1. cbn [lstrip]. rewrite (word_char_not_space a Ha).
  rewrite <- E, E', rev_app_distr. cbn [rev app lstrip].
  rewrite (word_char_not_space b Hb). cbn [rev]. rewrite rev_involutive. reflexivity.
Qed.

End OneClause.

(** X9.  A transcript made of more than 50 words separated by single
    spaces, without punctuation and without filler, comes out of the
    densifier with exactly one filler more, "um" or "uh" by the draw,
    between the two halves of its words. *)
Theorem single_clause_gets_one_filler (L : literals) (T : tools)
    (ws : list Py.text) (audio_path : string) (s : state) :
  Forall is_word ws -> from_file T audio_path = Ok tt ->
  (segment_floor L <= 50)%nat ->
  fillers_are_sparse (Py.join space ws) = true ->
  has_filler (Py.join space ws) = false ->
  let filler :=
    if PrimFloat.ltb (um_threshold L) (random T (draws s))
    then Py.of_string "um" else Py.of_string "uh" in
  fst (_ensure_filler_words L T (Py.join space ws) audio_path s)
  = Ok (Py.join space (take (length ws / 2) ws ++ [filler] ++ drop (length ws / 2) ws)).
Proof.
  intros Hw Hfile Hfloor Hsparse Hfill. cbv zeta.
  set (t := Py.join space ws) in *.
  assert (Hsplit : Py.split t = ws) by (apply split_join; exact Hw).
  assert (Hlen : (50 < length ws)%nat).
  { unfold fillers_are_sparse in Hsparse. apply andb_true_iff in Hsparse as [H _].
    rewrite Hsplit in H. apply Nat.ltb_lt. exact H. }
  assert (Hne : ws <> []) by (destruct ws; [simpl in Hlen; lia|discriminate]).
  destruct (join_ends_with_word ws Hne Hw) as (p & a & Et & Ha). fold t in Et.
  assert (Hclauses : Re.findall false clause t = [t; []]).
  { rewrite Et. apply one_clause.
    - rewrite <- Et. apply join_no_clause_end. exact Hw.
    - apply word_char_not_newline. exact Ha. }
  unfold _ensure_filler_words, try_except, densify, bind, lift. rewrite Hfile.
  fold (fillers_are_sparse t). rewrite Hsparse, Hclauses.
  assert (Hclean : is_clean_segment L t = true).
  { unfold is_clean_segment. fold (has_filler t). rewrite Hfill, Hsplit.
    apply andb_true_iff. split; [apply Nat.ltb_lt; lia|reflexivity]. }
  cbn [List.filter]. rewrite Hclean.
  replace (is_clean_segment L []) with false
    by (unfold is_clean_segment; destruct (segment_floor L); reflexivity).
  cbn [is_empty take fold_]. unfold bind, densify_segment.
  pose proof (strip_join ws Hw) as Hstrip. fold t in Hstrip. rewrite Hstrip, Hsplit.
  pose proof (join_length ws Hw) as Hjl. fold t in Hjl.
  destruct (Nat.ltb_spec (length t) (segment_floor L)); [lia|].
  destruct (Nat.leb_spec 6 (length ws)); [|lia].
  unfold bind, random_random, ret. cbn [fst].
  rewrite replace_self by (rewrite Et; destruct p; discriminate).
  f_equal.
  assert (Hmid : (0 < length ws / 2 < length ws)%nat).
  { split; [apply Nat.div_str_pos; lia|apply Nat.div_lt; lia]. }
  set (mid := (length ws / 2)%nat) in *.
  rewrite join_app;
    [|intros E; apply (f_equal (@length _)) in E; rewrite length_take in E;
      cbn [length] in E; lia
     |discriminate].
  cbn [app].
  assert (Hdrop : drop mid ws <> []).
  { intros E. apply (f_equal (@length _)) in E. rewrite length_drop in E.
    cbn [length] in E. lia. }
  destruct (drop mid ws) as [|w' rest0] eqn:Ed; [congruence|].
  rewrite join_cons.
  destruct (PrimFloat.ltb (um_threshold L) (random T (draws s))); reflexivity.
Qed.

Lemma single_clause_gets_one_filler_witness :
  fst (_ensure_filler_words sample_literals friendly_tools (Py.join space plain_answer)
         "/tmp/a.wav" video_on_disk)
  = Ok (Py.join space (take 26 plain_answer ++ [Py.of_string "um"] ++ drop 26 plain_answer)).
Proof.
  refine (single_clause_gets_one_filler sample_literals friendly_tools plain_answer
            "/tmp/a.wav" video_on_disk _ _ _ _ _).
  - repeat constructor; try discriminate.
  - reflexivity.
  - simpl. lia.
  - vm_compute. reflexivity.
  - vm_compute. reflexivity.
Defined.

(** ** Orchestrator and construction, further *)

Section Orchestrator.
Variables (L : literals) (T : tools).

(** With nothing tracked, the [finally] block does nothing. *)
Lemma cleanup_nothing s : temp_files s = [] -> cleanup T s = (Ok tt, s).
Proof. intros H. unfold cleanup, bind, get_temp_files. rewrite H. reflexivity. Qed.

Lemma bind_ok {A B} (m : M A) (f : A -> M B) s b s' :
  bind m f s = (Ok b, s') -> exists a s1, m s = (Ok a, s1) /\ f a s1 = (Ok b, s').
Proof.
  unfold bind. destruct (m s) as [[a|e] s1]; [|discriminate].
  intros H. exists a, s1. split; [reflexivity|exact H].
Qed.

(** With a separate audio file given and on disk, the body of
    [transcribe] creates no file and tracks none. *)
Lemma body_with_audio video_path p s :
  p <> "" -> p ∈ files s ->
  let s1 := snd (transcribe_body L T video_path (Some p) s) in
  files s1 = files s /\ temp_files s1 = temp_files s.
Proof.
  intros Hp Hin. cbv zeta. unfold transcribe_body, bind, path_exists.
  destruct (negb _); [split; reflexivity|].
  destruct (model T) as [whisper|]; [|split; reflexivity].
  unfold acquire_audio, bind, path_exists.
  destruct (String.eqb_spec p ""); [contradiction|].
  rewrite (bool_decide_eq_true_2 _ Hin). cbn [ret default].
  apply keeps_recognise.
Qed.

End Orchestrator.

(** X10.  For a video that is not on disk, [transcribe] reports "Video file
    not found", whatever the model and the audio path are; it creates or
    deletes no file, logs nothing and draws no random number. *)
Theorem missing_video_is_reported (L : literals) (T : tools)
    (video_path : string) (audio_path : option string) (s : state) :
  video_path ∉ files s ->
  let out := transcribe L T video_path audio_path s in
  fst out = Ok video_not_found
  /\ files (snd out) = files s /\ log (snd out) = log s /\ draws (snd out) = draws s.
Proof.
  intros H. cbv zeta.
  unfold transcribe, try_finally, try_except, transcribe_body, bind, path_exists.
  cbn [files]. rewrite (bool_decide_eq_false_2 _ H). cbn [negb ret].
  rewrite cleanup_nothing by reflexivity. repeat split.
Qed.

Lemma missing_video_is_reported_witness :
  let out := transcribe sample_literals friendly_tools "/data/other.webm" None video_on_disk in
  fst out = Ok video_not_found
  /\ files (snd out) = files video_on_disk /\ log (snd out) = log video_on_disk
  /\ draws (snd out) = draws video_on_disk.
Proof.
  apply (missing_video_is_reported sample_literals friendly_tools "/data/other.webm" None
           video_on_disk).
  unfold video_on_disk. cbn [files]. intros H. apply elem_of_singleton in H. discriminate H.
Defined.

(** X11.  [__init__] never raises.  When loading the Whisper model fails,
    the service it builds has no model, and that service answers every
    request for a video on disk with "Transcription service not
    initialized correctly", without running a tool or touching a file. *)
Theorem service_without_model_refuses (E : loader) (s0 : state) :
  load_fails E ->
  exists svc s1,
    __init__ E s0 = (Ok svc, s1) /\ self_model svc = None
    /\ forall L T video_path audio_path s,
         video_path ∈ files s ->
         let out := transcribe L (tools_of svc T) video_path audio_path s in
         fst out = Ok not_initialized /\ files (snd out) = files s.
Proof.
  intros Hfail.
  assert (Hinit : exists svc s1, __init__ E s0 = (Ok svc, s1) /\ self_model svc = None).
  { unfold load_fails in Hfail. unfold __init__, bind, logger.
    destruct (cuda_is_available E) as [cuda|e].
    - destruct Hfail as [e He]. rewrite He. eexists _, _. split; reflexivity.
    - eexists _, _. split; reflexivity. }
  destruct Hinit as (svc & s1 & Hrun & Hnone).
  exists svc, s1. split; [exact Hrun|]. split; [exact Hnone|].
  intros L T video_path audio_path s Hin. cbv zeta.
  unfold transcribe, try_finally, try_except, transcribe_body, bind, path_exists.
  cbn [files]. rewrite (bool_decide_eq_true_2 _ Hin). cbn [negb].
  unfold tools_of. cbn [model]. rewrite Hnone. cbn [ret].
  rewrite cleanup_nothing by reflexivity. split; reflexivity.
Qed.

Lemma service_without_model_refuses_witness :
  exists svc s1,
    __init__ no_model_file video_on_disk = (Ok svc, s1) /\ self_model svc = None
    /\ forall L T video_path audio_path s,
         video_path ∈ files s ->
         let out := transcribe L (tools_of svc T) video_path audio_path s in
         fst out = Ok not_initialized /\ files (snd out) = files s.
Proof.
  apply (service_without_model_refuses no_model_file video_on_disk).
  unfold load_fails. cbn. eexists. reflexivity.
Defined.

(** X12.  With a separate audio file given and on disk, [transcribe]
    neither creates nor deletes a file, whether it succeeds or fails: no
    audio is extracted, and the caller's audio file is still there
    afterwards. *)
Theorem given_audio_is_kept (L : literals) (T : tools)
    (video_path p : string) (s : state) :
  p <> "" -> p ∈ files s ->
  files (snd (transcribe L T video_path (Some p) s)) = files s.
Proof.
  intros Hp Hin. unfold transcribe, try_finally.
  set (s0 := State (files s) (draws s) (log s) []).
  pose proof (body_with_audio L T video_path p s0 Hp Hin) as Hb. cbv zeta in Hb.
  assert (Hinv : let s1 := snd (try_except (transcribe_body L T video_path (Some p))
                                  (fun e =>
                                     let* _ := logger "ERROR"
                                                 ("Transcription error: " +:+ exn_message e) in
                                     ret [("success", VBool false);
                                          ("error", VStr (exn_message e))]) s0) in
                 files s1 = files s /\ temp_files s1 = []).
  { cbv zeta. unfold try_except.
    destruct (transcribe_body L T video_path (Some p) s0) as [[d|e] s1]; cbn [snd] in *.
    - exact Hb.
    - unfold bind, logger, ret. cbn [snd files temp_files]. exact Hb. }
  cbv zeta in Hinv.
  destruct (try_except _ _ s0) as [r s1]. cbn [snd] in Hinv. destruct Hinv as [Hf Ht].
  rewrite (cleanup_nothing T s1 Ht). exact Hf.
Qed.

Lemma given_audio_is_kept_witness :
  files (snd (transcribe sample_literals friendly_tools "/data/answer.webm"
                (Some "/data/answer.webm") video_on_disk)) = files video_on_disk.
Proof.
  apply (given_audio_is_kept sample_literals friendly_tools "/data/answer.webm"
           "/data/answer.webm" video_on_disk).
  - discriminate.
  - unfold video_on_disk. cbn [files]. apply elem_of_singleton. reflexivity.
Defined.

(** X13.  When the audio has to be extracted and [ffmpeg] fails,
    [transcribe] reports a failure: "Failed to extract audio: ..." around
    the error of a non-zero exit status, and the bare message of any other
    exception; the recogniser is not run. *)
Theorem failed_extraction_is_reported (L : literals) (T : tools)
    (whisper : string -> result recognition)
    (video_path : string) (audio_path : option string) (s : state) (msg : string) :
  video_path ∈ files s -> model T = Some whisper -> audio_given audio_path s = false ->
  extraction_error (exit (ffmpeg T video_path (mktemp T))) = Some msg ->
  fst (transcribe L T video_path audio_path s)
  = Ok [("success", VBool false); ("error", VStr msg)].
Proof.
  intros Hin Hm Ha He. unfold transcribe. rewrite finally_keeps_result.
  unfold try_except, transcribe_body, bind, path_exists. cbn [files].
  rewrite (bool_decide_eq_true_2 _ Hin), Hm. cbn [negb].
  assert (Hacq : exists e s1,
    acquire_audio T video_path audio_path (State (files s) (draws s) (log s) [])
    = (Raise e, s1) /\ exn_message e = msg).
  { assert (Hext : exists e s1,
      (let* p := _extract_audio T video_path in
       let* _ := temp_files_append p in ret p) (State (files s) (draws s) (log s) [])
      = (Raise e, s1) /\ exn_message e = msg).
    { unfold _extract_audio, bind, run_ffmpeg, raise.
      destruct (ffmpeg T video_path (mktemp T)) as [ex wrote]. cbn [exit wrote_output] in *.
      destruct ex as [|e|e]; [discriminate| |]; injection He as <-;
        eexists _, _; (split; [reflexivity|reflexivity]). }
    unfold acquire_audio, bind, path_exists. cbn [files].
    unfold audio_given in Ha.
    destruct audio_path as [p|]; [|exact Hext].
    destruct (String.eqb p ""); [exact Hext|].
    cbn [negb andb] in Ha. cbn [files]. rewrite Ha. exact Hext. }
  destruct Hacq as (e & s1 & -> & <-). reflexivity.
Qed.

Lemma failed_extraction_is_reported_witness :
  fst (transcribe sample_literals
         (Tools (Some (fun _ => Ok hello)) "/tmp/tmp0.wav"
                (fun _ _ => FfmpegRun (Exit_failed (Exn "CalledProcessError" "exit status 1"))
                                      false)
                (fun _ => Ok None) (fun _ => Ok tt) (fun _ => 0.75%float) (fun _ => true))
         "/data/answer.webm" None video_on_disk)
  = Ok [("success", VBool false);
        ("error", VStr "Failed to extract audio: exit status 1")].
Proof.
  refine (failed_extraction_is_reported sample_literals _ (fun _ => Ok hello)
            "/data/answer.webm" None video_on_disk _ _ _ _ _).
  - unfold video_on_disk. cbn [files]. apply elem_of_singleton. reflexivity.
  - reflexivity.
  - reflexivity.
  - reflexivity.
Defined.

Section Result.
Variables (L : literals) (T : tools).

Lemma recognise_rate whisper source_audio_path :
  returns (rate_of_result L) (recognise L T whisper source_audio_path).
Proof.
  intros s d s' H. unfold recognise in H.
  apply bind_ok in H as (? & s1 & _ & H).
  apply bind_ok in H as (rec & s2 & _ & H).
  apply bind_ok in H as (t1 & s3 & _ & H).
  apply bind_ok in H as (t2 & s4 & _ & H).
  apply bind_ok in H as (dur & s5 & _ & H).
  apply bind_ok in H as (rate & s6 & Hrate & H).
  unfold ret in H. injection H as <- _.
  intros t ts Ht Hts. cbn in Ht, Hts. injection Ht as <-. injection Hts as <-.
  destruct (is_empty (flatten_timestamps rec)).
  - unfold ret in Hrate. injection Hrate as <- _. reflexivity.
  - unfold lift in Hrate. injection Hrate as Hrate _. exists rate. split; [exact Hrate|].
    reflexivity.
Qed.

Lemma body_rate video_path audio_path :
  returns (rate_of_result L) (transcribe_body L T video_path audio_path).
Proof.
  unfold transcribe_body. apply returns_bind. intros there.
  destruct (negb there).
  - apply returns_ret. intros t ts Ht. discriminate Ht.
  - destruct (model T) as [whisper|].
    + apply returns_bind. intros src. apply recognise_rate.
    + apply returns_ret. intros t ts Ht. discriminate Ht.
Qed.

(** The recognition does not depend on how the probe fails. *)
Lemma recognise_probe f g whisper source_audio_path s :
  (forall p, found_duration (f p) = found_duration (g p)) ->
  recognise L (with_ffprobe T f) whisper source_audio_path s
  = recognise L (with_ffprobe T g) whisper source_audio_path s.
Proof.
  intros Hfg. unfold recognise, bind.
  destruct (logger _ _ s) as [[?|?] s1]; [|reflexivity].
  destruct (lift _ s1) as [[rec|?] s2]; [|reflexivity].
  destruct (lift _ s2) as [[t1|?] s3]; [|reflexivity].
  change (_ensure_filler_words L (with_ffprobe T f)) with (_ensure_filler_words L (with_ffprobe T g)).
  destruct (_ensure_filler_words _ _ _ _ s3) as [[t2|?] s4]; [|reflexivity].
  assert (Hp : probe_duration (with_ffprobe T f) source_audio_path s4
               = probe_duration (with_ffprobe T g) source_audio_path s4).
  { unfold probe_duration, try_except, lift, with_ffprobe. cbn [ffprobe].
    specialize (Hfg source_audio_path). unfold found_duration in Hfg.
    destruct (f source_audio_path) as [d1|e1], (g source_audio_path) as [d2|e2];
      simpl in *; unfold ret; congruence. }
  rewrite Hp. reflexivity.
Qed.

End Result.

(** X14.  In a result that carries a transcript and timestamps, the
    speaking rate is null when there is no timestamp, and otherwise it is
    what the estimator computes from the transcript and the timestamps of
    that same result: the transcript as cleaned and densified, not as
    recognised. *)
Theorem reported_rate_is_of_reported_transcript (L : literals) (T : tools)
    (video_path : string) (audio_path : option string) (s : state)
    (d : dict) (t : Py.text) (ts : list word_timing) :
  fst (transcribe L T video_path audio_path s) = Ok d ->
  get "transcript" d = VText t -> get "timestamps" d = VTimings ts ->
  if is_empty ts then get "speaking_rate" d = VNone
  else exists r, _calculate_speaking_rate L t ts = Ok r
                 /\ get "speaking_rate" d = opt_value VInt r.
Proof.
  unfold transcribe. rewrite finally_keeps_result. unfold try_except.
  destruct (transcribe_body L T video_path audio_path _) as [[d0|e] s1] eqn:Hbody;
    cbn [fst].
  - intros [= <-]. exact (body_rate L T video_path audio_path _ d0 s1 Hbody t ts).
  - unfold bind, logger, ret. cbn [fst]. intros [= <-] Ht. discriminate Ht.
Qed.

Lemma reported_rate_is_of_reported_transcript_witness :
  exists r,
    _calculate_speaking_rate sample_literals scenario_a_cleaned (flatten_timestamps stuttered)
    = Ok r
    /\ get "speaking_rate"
         [("success", VBool true); ("transcript", VText scenario_a_cleaned);
          ("timestamps", VTimings (flatten_timestamps stuttered));
          ("duration", VFloat 4%float); ("speaking_rate", VInt 120)]
       = opt_value VInt r.
Proof.
  exact (reported_rate_is_of_reported_transcript sample_literals stutter_tools
           "/data/answer.webm" None video_on_disk _ scenario_a_cleaned
           (flatten_timestamps stuttered)
           ltac:(vm_compute; reflexivity) eq_refl eq_refl).
Defined.

(** X15.  [transcribe] depends on the duration probe only through the
    duration it finds: a probe that raises counts as one that finds none,
    and the call goes on. *)
Theorem probe_counts_by_its_duration (L : literals) (T : tools)
    (f g : string -> result (option float))
    (video_path : string) (audio_path : option string) (s : state) :
  (forall p, found_duration (f p) = found_duration (g p)) ->
  transcribe L (with_ffprobe T f) video_path audio_path s
  = transcribe L (with_ffprobe T g) video_path audio_path s.
Proof.
  intros Hfg. unfold transcribe.
  assert (Hbody : forall s0,
    transcribe_body L (with_ffprobe T f) video_path audio_path s0
    = transcribe_body L (with_ffprobe T g) video_path audio_path s0).
  { intros s0. unfold transcribe_body, bind.
    destruct (path_exists video_path s0) as [[there|?] s1]; [|reflexivity].
    destruct (negb there); [reflexivity|].
    change (model (with_ffprobe T f)) with (model T).
    change (model (with_ffprobe T g)) with (model T).
    destruct (model T) as [whisper|]; [|reflexivity].
    change (acquire_audio (with_ffprobe T f)) with (acquire_audio (with_ffprobe T g)).
    destruct (acquire_audio _ _ _ s1) as [[src|?] s2]; [|reflexivity].
    apply recognise_probe. exact Hfg. }
  unfold try_finally, try_except. rewrite Hbody. reflexivity.
Qed.

Lemma probe_counts_by_its_duration_witness :
  transcribe sample_literals
    (with_ffprobe friendly_tools (fun _ => Raise (Exn "JSONDecodeError" "Expecting value")))
    "/data/answer.webm" None video_on_disk
  = transcribe sample_literals (with_ffprobe friendly_tools (fun _ => Ok None))
      "/data/answer.webm" None video_on_disk.
Proof.
  apply (probe_counts_by_its_duration sample_literals friendly_tools).
  intros p. reflexivity.
Defined.

(** X16.  When the recogniser raises, [transcribe] reports a failure with
    the message of the exception, whether the audio was given or
    extracted; nothing is cleaned, densified or probed. *)
Theorem failed_recognition_is_reported (L : literals) (T : tools)
    (whisper : string -> result recognition)
    (video_path : string) (audio_path : option string) (s : state) (e : exn) :
  video_path ∈ files s -> model T = Some whisper ->
  audio_given audio_path s = true \/ exit (ffmpeg T video_path (mktemp T)) = Exit_ok ->
  (forall p, whisper p = Raise e) ->
  fst (transcribe L T video_path audio_path s)
  = Ok [("success", VBool false); ("error", VStr (exn_message e))].
Proof.
  intros Hin Hm Haudio Hw. unfold transcribe. rewrite finally_keeps_result.
  unfold try_except, transcribe_body, bind, path_exists. cbn [files].
  rewrite (bool_decide_eq_true_2 _ Hin), Hm. cbn [negb].
  assert (Hacq : exists src s1,
    acquire_audio T video_path audio_path (State (files s) (draws s) (log s) [])
    = (Ok src, s1)).
  { unfold acquire_audio, bind, path_exists. cbn [files].
    assert (Hext : exit (ffmpeg T video_path (mktemp T)) = Exit_ok ->
      exists src s1,
        (let* p := _extract_audio T video_path in
         let* _ := temp_files_append p in ret p) (State (files s) (draws s) (log s) [])
        = (Ok src, s1)).
    { intros Hex. unfold _extract_audio, bind, run_ffmpeg. rewrite Hex.
      eexists _, _. reflexivity. }
    unfold audio_given in Haudio.
    destruct audio_path as [p|].
    - destruct (String.eqb p ""); cbn [negb andb] in Haudio.
      + destruct Haudio as [Ha|Ha]; [discriminate|exact (Hext Ha)].
      + cbn [files]. destruct (bool_decide (p ∈ files s)).
        * eexists _, _. reflexivity.
        * destruct Haudio as [Ha|Ha]; [discriminate|exact (Hext Ha)].
    - destruct Haudio as [Ha|Ha]; [discriminate|exact (Hext Ha)]. }
  destruct Hacq as (src & s1 & ->).
  unfold recognise, bind, logger, lift. rewrite Hw. reflexivity.
Qed.

Lemma failed_recognition_is_reported_witness :
  fst (transcribe sample_literals broken_tools "/data/answer.webm" None video_on_disk)
  = Ok [("success", VBool false); ("error", VStr "CUDA out of memory")].
Proof.
  refine (failed_recognition_is_reported sample_literals broken_tools
            (fun _ => Raise (Exn "RuntimeError" "CUDA out of memory"))
            "/data/answer.webm" None video_on_disk
            (Exn "RuntimeError" "CUDA out of memory") _ _ _ _).
  - unfold video_on_disk. cbn [files]. apply elem_of_singleton. reflexivity.
  - reflexivity.
  - right. reflexivity.
  - intros p. reflexivity.
Defined.

(** ** Transcript cleanup service *)

Section CleanupService.
Variables (C : Cleanup.literals) (G : Cleanup.gemini) (self : Cleanup.service).

(** What the inner [try] block returns is the raw transcript, or the
    answer of the model when it is not suspiciously short. *)
Lemma ask_returns raw prompt s r s' :
  Cleanup.ask C G self raw prompt s = (Ok r, s') ->
  r = None \/ r = Some raw
  \/ exists model cleaned,
       Cleanup.GenerativeModel G (Cleanup.gemini_model self) = Ok model
       /\ model prompt = Ok (Cleanup.Text cleaned)
       /\ suspiciously_short C raw cleaned = false /\ r = Some cleaned.
Proof.
  unfold Cleanup.ask. intros H.
  apply bind_ok in H as (model & s1 & Hmodel & H).
  apply bind_ok in H as (response & s2 & Hresp & H).
  apply bind_ok in H as (? & s3 & _ & H).
  apply bind_ok in H as (has & s4 & Hhas & H).
  unfold lift in Hmodel, Hresp, Hhas.
  injection Hmodel as Hmodel _. injection Hresp as Hresp _. injection Hhas as Hhas _.
  destruct response as [|cleaned|e]; cbn in Hhas; [|
    |discriminate Hhas].
  - injection Hhas as <-.
    apply bind_ok in H as (? & s5 & _ & H). unfold ret in H. injection H as <- _.
    left. reflexivity.
  - injection Hhas as <-.
    apply bind_ok in H as (c & s5 & Hc & H). unfold lift in Hc. cbn in Hc.
    injection Hc as <- _.
    fold (suspiciously_short C raw cleaned) in H.
    destruct (suspiciously_short C raw cleaned) eqn:Hs.
    + apply bind_ok in H as (? & s6 & _ & H). unfold ret in H. injection H as <- _.
      right. left. reflexivity.
    + apply bind_ok in H as (? & s6 & _ & H). unfold ret in H. injection H as <- _.
      right. right. exists model, cleaned. repeat split; assumption.
Qed.

End CleanupService.

(** X17.  [clean_transcript] never raises, and what it returns is the raw
    transcript itself, or the text that the generative model answered to
    the cleanup prompt, and then only when that text is not suspiciously
    short. *)
Theorem cleanup_keeps_raw_or_takes_answer (C : Cleanup.literals) (G : Cleanup.gemini)
    (self : Cleanup.service) (raw : Py.text) (s : state) :
  exists t,
    fst (Cleanup.clean_transcript C G self raw s) = Ok t
    /\ (t = raw \/ (answer G self raw = Some t /\ suspiciously_short C raw t = false)).
Proof.
  unfold Cleanup.clean_transcript.
  destruct (_ || _); [exists raw; split; [reflexivity|left; reflexivity]|].
  unfold try_except at 1. unfold bind at 1. unfold logger at 1.
  set (s1 := State _ _ _ _).
  unfold bind at 1. unfold try_except at 1.
  destruct (Cleanup.ask C G self raw (Cleanup._create_cleanup_prompt raw) s1)
    as [[r|e] s2] eqn:Hask.
  - apply ask_returns in Hask as [->|[->|(model & cleaned & Hm & Hr & Hs & ->)]].
    + exists raw. split; [reflexivity|left; reflexivity].
    + exists raw. split; [reflexivity|left; reflexivity].
    + exists cleaned. split; [reflexivity|]. right. split; [|exact Hs].
      unfold answer. rewrite Hm, Hr. reflexivity.
  - exists raw. split; [reflexivity|left; reflexivity].
Qed.

(** X18.  An empty transcript, or one that is too short once stripped, is
    returned as it is with one warning in the log, and the generative
    model is not asked: the outcome is the same whatever the model is. *)
Theorem short_transcript_is_not_sent (C : Cleanup.literals) (G : Cleanup.gemini)
    (self : Cleanup.service) (raw : Py.text) (s : state) :
  raw = [] \/ (length (Py.strip raw) < Cleanup.too_short C)%nat ->
  Cleanup.clean_transcript C G self raw s
  = (Ok raw, State (files s) (draws s)
               (log s ++ ["WARNING: Transcript too short to clean up"]) (temp_files s)).
Proof.
  intros H. unfold Cleanup.clean_transcript.
  replace (is_empty raw || Nat.ltb (length (Py.strip raw)) (Cleanup.too_short C))
    with true; [reflexivity|].
  destruct H as [->|H]; [reflexivity|].
  symmetry. apply orb_true_iff. right. apply Nat.ltb_lt. exact H.
Qed.

Lemma short_transcript_is_not_sent_witness :
  Cleanup.clean_transcript sample_cleanup_literals (parrot (Py.of_string "ok"))
    (Cleanup.Service "gemini-2.0-flash") (Py.of_string "  hi  ") video_on_disk
  = (Ok (Py.of_string "  hi  "),
     State (files video_on_disk) (draws video_on_disk)
       (log video_on_disk ++ ["WARNING: Transcript too short to clean up"])
       (temp_files video_on_disk)).
Proof.
  apply (short_transcript_is_not_sent sample_cleanup_literals (parrot (Py.of_string "ok"))
           (Cleanup.Service "gemini-2.0-flash") (Py.of_string "  hi  ") video_on_disk).
  right. vm_compute. lia.
Defined.

(** X19.  When the transcript is long enough and the generative model
    answers with a text that is not suspiciously short, that text is what
    [clean_transcript] returns. *)
Theorem plausible_answer_is_taken (C : Cleanup.literals) (G : Cleanup.gemini)
    (self : Cleanup.service) (raw cleaned : Py.text) (s : state) :
  raw <> [] -> (Cleanup.too_short C <= length (Py.strip raw))%nat ->
  answer G self raw = Some cleaned -> suspiciously_short C raw cleaned = false ->
  fst (Cleanup.clean_transcript C G self raw s) = Ok cleaned.
Proof.
  intros Hne Hlen Hans Hs. unfold Cleanup.clean_transcript.
  replace (is_empty raw || Nat.ltb (length (Py.strip raw)) (Cleanup.too_short C))
    with false.
  2:{ symmetry. apply orb_false_iff. split; [destruct raw; [congruence|reflexivity]|].
      apply Nat.ltb_ge. exact Hlen. }
  unfold answer in Hans.
  destruct (Cleanup.GenerativeModel G (Cleanup.gemini_model self)) as [model|] eqn:Hm;
    [|discriminate].
  destruct (model (Cleanup._create_cleanup_prompt raw)) as [[|t|]|] eqn:Hr; try discriminate.
  injection Hans as ->.
  unfold try_except, bind, logger, Cleanup.ask, bind, lift, logger.
  rewrite Hm, Hr. cbn [Cleanup.hasattr_text Cleanup.text_of].
  fold (suspiciously_short C raw cleaned). rewrite Hs. reflexivity.
Qed.

Lemma plausible_answer_is_taken_witness :
  fst (Cleanup.clean_transcript sample_cleanup_literals
         (parrot (Py.of_string "Well, um, I like my new job."))
         (Cleanup.Service "gemini-2.0-flash") (Py.of_string "well um i like my new job")
         video_on_disk)
  = Ok (Py.of_string "Well, um, I like my new job.").
Proof.
  apply (plausible_answer_is_taken sample_cleanup_literals
           (parrot (Py.of_string "Well, um, I like my new job."))
           (Cleanup.Service "gemini-2.0-flash") (Py.of_string "well um i like my new job")
           (Py.of_string "Well, um, I like my new job.") video_on_disk).
  - discriminate.
  - vm_compute. lia.
  - reflexivity.
  - reflexivity.
Defined.
